(** * Browser error debugging server: verification loop and remediation

    A shallow embedding of the TypeScript sources (browser backends, error
    detector, UI validator, test runner, fix application and the
    fix-and-retest loop) together with the properties stated about them.

    Conventions.
    - A JavaScript string is a [string]; every character stands for one code
      unit below 256.
    - A JavaScript number that the code uses as a count, a line number of
      the page or an iteration bound is an integer in [Z]. The line number of
      a fix record comes out of [JSON.parse] unchecked: it is a rational in
      [Q], an integer or not (the rounding to a double is not modelled).
    - Asynchronous code is sequential code in the monad [M]: a state
      transformer on [World] that either returns a value or throws.
    - Everything outside the program (the page, the network, the language
      model, the passing of time) answers through [env], a function of the
      requests made so far. *)

From Stdlib Require Import ZArith Lia Ascii String DecimalString QArith.
From stdpp Require Import base option list strings gmap.
From Equations Require Import Equations.

Local Open Scope Z_scope.

(** ** JavaScript string helpers *)

Module Js.

Definition LF : ascii := ascii_of_nat 10.
Definition nl : string := String LF "".

(** [String(n)] for an integer [n]. *)
Definition show (z : Z) : string := NilEmpty.string_of_int (Z.to_int z).

(** White space and line terminators removed by [String.prototype.trim],
    among the code units below 256. *)
Definition is_space (c : ascii) : bool :=
  let n := Z.of_nat (nat_of_ascii c) in
  ((9 <=? n) && (n <=? 13)) || (n =? 32) || (n =? 160).

Fixpoint trimStart (s : string) : string :=
  match s with
  | String c s' => if is_space c then trimStart s' else s
  | EmptyString => EmptyString
  end.

Fixpoint trimEnd (s : string) : string :=
  match s with
  | String c s' =>
      match trimEnd s' with
      | EmptyString => if is_space c then EmptyString else String c EmptyString
      | t => String c t
      end
  | EmptyString => EmptyString
  end.

(** [s.trim()] *)
Definition trim (s : string) : string := trimEnd (trimStart s).

(** [s.split('\n')]: never empty, [''.split('\n')] is [['']]. *)
Fixpoint split_lines (s : string) : list string :=
  match s with
  | EmptyString => [EmptyString]
  | String c s' =>
      if Ascii.eqb c LF then EmptyString :: split_lines s'
      else match split_lines s' with
           | l :: ls => String c l :: ls
           | [] => [String c EmptyString]
           end
  end.

(** [lines.join('\n')] *)
Fixpoint join_lines (ls : list string) : string :=
  match ls with
  | [] => EmptyString
  | [l] => l
  | l :: ls' => l +:+ nl +:+ join_lines ls'
  end.

(** [parts.join(sep)] *)
Fixpoint join (sep : string) (ls : list string) : string :=
  match ls with
  | [] => EmptyString
  | [l] => l
  | l :: ls' => l +:+ sep +:+ join sep ls'
  end.

(** [s.startsWith(p)] *)
Definition startsWith (p s : string) : bool := String.prefix p s.

(** Truthiness of an optional string: [undefined] and [''] are falsy. *)
Definition truthy (o : option string) : bool :=
  match o with
  | Some (String _ _) => true
  | _ => false
  end.

(** [o || d] on optional strings. *)
Definition or_else (o : option string) (d : string) : string :=
  match o with
  | Some (String c s) => String c s
  | _ => d
  end.

(** [n || d] on optional numbers: [undefined] and [0] are falsy. *)
Definition num_or (o : option Z) (d : Z) : Z :=
  match o with
  | Some n => if n =? 0 then d else n
  | None => d
  end.

(** A number given as a fraction is an integer. *)
Definition isInteger (x : Q) : bool := Qnum x mod Z.pos (Qden x) =? 0.

(** The integer at or below a number. *)
Definition floor (x : Q) : Z := Qnum x / Z.pos (Qden x).

(** [a[i]]: the element at an integer index inside the array, [undefined]
    at any other index. *)
Definition item {A} (a : list A) (i : Q) : option A :=
  if isInteger i && (0 <=? floor i) then a !! Z.to_nat (floor i) else None.

(** [String(x)] for an integer [x]; the program renders no other number. *)
Definition showInteger (x : Q) : string := show (floor x).

End Js.

(** ** Error model (error/types.ts) *)

Module Types.

Inductive ErrorType := console | network | react | ui.

#[global] Instance ErrorType_eq_dec : EqDecision ErrorType.
Proof. solve_decision. Defined.

Definition type_name (t : ErrorType) : string :=
  match t with
  | console => "console"
  | network => "network"
  | react => "react"
  | ui => "ui"
  end.

Inductive Level := level_error | level_warning | level_info.

Inductive Action := click | type_text | wait | check.

(** The fields the four sub-interfaces add to [BrowserError]. *)
Inductive Detail :=
| Plain
| ConsoleDetail (level : Level)
| NetworkDetail (status : option Z) (statusText method requestUrl : option string)
| ReactDetail (componentStack errorBoundary : option string)
| UIDetail (element : string) (action : option Action) (expected actual : option string).

Record BrowserError := {
  type : ErrorType;
  message : string;
  stack : option string;
  source : option string;
  line : option Z;
  column : option Z;
  timestamp : Z;
  detail : Detail;
}.

Record ErrorCollection := {
  errors : list BrowserError;
  hasErrors : bool;
  summary : string;
}.

(** gemini/client.ts: one proposed line replacement and a fix record. *)
Record Change := {
  change_line : Z;
  oldCode : string;
  newCode : string;
}.

Record CodeFix := {
  file : string;
  changes : list Change;
  explanation : string;
}.

(** The same records as [JSON.parse] returns them, cast to [CodeFix] without
    any check. [line] is a number, an integer or not. [file], [changes] and
    [oldCode] are there with their declared type, or they are not: a value
    of another type makes the program throw where a missing one does.
    [newCode] and [explanation] are strings: records in which [line] is no
    number or [newCode] no string are outside the model. *)
Record ParsedChange := {
  parsed_line : Q;
  parsed_oldCode : option string;
  parsed_newCode : string;
}.

Record ParsedFix := {
  parsed_file : option string;
  parsed_changes : option (list ParsedChange);
  parsed_explanation : string;
}.

(** A record that is as the interface declares it, as a parsed record. *)
Definition parsedChange (c : Change) : ParsedChange :=
  {| parsed_line := inject_Z (change_line c);
     parsed_oldCode := Some (oldCode c);
     parsed_newCode := newCode c |}.

Definition parsed (codeFix : CodeFix) : ParsedFix :=
  {| parsed_file := Some (file codeFix);
     parsed_changes := Some (parsedChange <$> changes codeFix);
     parsed_explanation := explanation codeFix |}.

(** A thrown value: an [Error] with its message, or anything else. *)
Inductive Exn := JsError (msg : string) | JsOther.

Inductive Res (A : Type) := Ok (a : A) | Throw (e : Exn).
Arguments Ok {A} a.
Arguments Throw {A} e.

(** [error instanceof Error ? error.message : fallback] *)
Definition message_or (e : Exn) (fallback : string) : string :=
  match e with
  | JsError m => m
  | JsOther => fallback
  end.

End Types.

Import Types.

(** ** Backend state (browser/cdp.ts, browser/playwright.ts, browser/controller.ts) *)

Module CDP.

(** [client] is [true] while the protocol client is connected (not [null]). *)
Record CDPController := {
  client : bool;
  errors : list BrowserError;
}.

(** [captureErrors]: copy the buffer, reset it, return the copy. *)
Definition captureErrors (c : CDPController) : list BrowserError * CDPController :=
  let currentErrors := errors c in
  (currentErrors, {| client := client c; errors := [] |}).

(** A subscribed handler runs [this.errors.push(error)]. *)
Definition push (es : list BrowserError) (c : CDPController) : CDPController :=
  if client c then {| client := true; errors := errors c ++ es |} else c.

Definition clear (c : CDPController) : CDPController :=
  {| client := client c; errors := [] |}.

Definition close (c : CDPController) : CDPController :=
  {| client := false; errors := errors c |}.

End CDP.

Module Playwright.

(** [page] is [true] while a page is open (not [null]). *)
Record PlaywrightController := {
  page : bool;
  errors : list BrowserError;
}.

(** [captureErrors]: nothing without a page; otherwise copy, reset, return. *)
Definition captureErrors (p : PlaywrightController)
  : list BrowserError * PlaywrightController :=
  if negb (page p) then ([], p)
  else
    let currentErrors := errors p in
    (currentErrors, {| page := page p; errors := [] |}).

Definition push (es : list BrowserError) (p : PlaywrightController)
  : PlaywrightController :=
  if page p then {| page := true; errors := errors p ++ es |} else p.

Definition clear (p : PlaywrightController) : PlaywrightController :=
  {| page := page p; errors := [] |}.

Definition close (p : PlaywrightController) : PlaywrightController :=
  {| page := false; errors := errors p |}.

End Playwright.

Module Controller.

Record BrowserControllerImpl := {
  cdpClient : option CDP.CDPController;
  playwrightClient : option Playwright.PlaywrightController;
  useCDP : bool;
}.

(** [new BrowserControllerImpl()] *)
Definition fresh : BrowserControllerImpl :=
  {| cdpClient := None; playwrightClient := None; useCDP := true |}.

(** Errors reported by the page reach the buffer of every client whose
    handlers are subscribed. *)
Definition deliver (es : list BrowserError) (b : BrowserControllerImpl)
  : BrowserControllerImpl :=
  {| cdpClient := CDP.push es <$> cdpClient b;
     playwrightClient := Playwright.push es <$> playwrightClient b;
     useCDP := useCDP b |}.

End Controller.

(** ** The world the program runs in *)

Module Env.

(** What the program gets back from the outside, as far as it looks at it:
    the result of a script ([undefined] when it is not serialisable), or the
    fix record parsed from the language model's answer. *)
Inductive Value :=
| VUndefined
| VBool (b : bool)
| VErrors (l : list BrowserError)
| VInteraction (success : bool) (error : option string)
| VFix (f : option ParsedFix).

(** The suspension points of the program. *)
Inductive Request :=
| ConnectCDP
| LaunchPlaywright (headless : bool)
| Navigate (url : string)
| Evaluate (script : string)
| Sleep (ms : Z)
| EnsureServerRunning
| GenerateFix (errors : list BrowserError) (fileContent : option string).

(** While the program is suspended the outside answers, errors reported by
    the page arrive and time passes. *)
Record Reply := {
  outcome : Res Value;
  arrivals : list BrowserError;
  elapsed : Z;
}.

(** A path names a regular file or a directory. *)
Inductive Node :=
| RegularFile (content : string) (readable writable : bool)
| Directory.

(** utils/config.ts, the fields used here. *)
Record Config := {
  devServer_url : string;
  browser_headless : bool;
  test_maxRetryAttempts : Z;
}.

Record World := {
  env : list Request -> Reply;
  trace : list Request;
  clock : Z;
  browser : option Controller.BrowserControllerImpl;
  fs : gmap string Node;
  console_out : list string;
  heap : list ErrorCollection;
  fixes : list ParsedFix;
  resolve : string -> string;
  config : Config;
}.

Definition set_browser (b : option Controller.BrowserControllerImpl) (w : World) : World :=
  {| env := env w; trace := trace w; clock := clock w; browser := b;
     fs := fs w; console_out := console_out w; heap := heap w; fixes := fixes w;
     resolve := resolve w; config := config w |}.

Definition set_fs (f : gmap string Node) (w : World) : World :=
  {| env := env w; trace := trace w; clock := clock w; browser := browser w;
     fs := f; console_out := console_out w; heap := heap w; fixes := fixes w;
     resolve := resolve w; config := config w |}.

Definition set_console (c : list string) (w : World) : World :=
  {| env := env w; trace := trace w; clock := clock w; browser := browser w;
     fs := fs w; console_out := c; heap := heap w; fixes := fixes w;
     resolve := resolve w; config := config w |}.

Definition set_heap (h : list ErrorCollection) (w : World) : World :=
  {| env := env w; trace := trace w; clock := clock w; browser := browser w;
     fs := fs w; console_out := console_out w; heap := h; fixes := fixes w;
     resolve := resolve w; config := config w |}.

Definition set_fixes (h : list ParsedFix) (w : World) : World :=
  {| env := env w; trace := trace w; clock := clock w; browser := browser w;
     fs := fs w; console_out := console_out w; heap := heap w; fixes := h;
     resolve := resolve w; config := config w |}.

(** One suspension: the request is recorded, the reply is read off [env],
    arrivals reach the subscribed buffers and the clock advances. *)
Definition suspend (r : Request) (w : World) : Reply * World :=
  let t := r :: trace w in
  let rep := env w t in
  (rep,
   {| env := env w; trace := t; clock := clock w + Z.max 0 (elapsed rep);
      browser := Controller.deliver (arrivals rep) <$> browser w;
      fs := fs w; console_out := console_out w; heap := heap w; fixes := fixes w;
      resolve := resolve w; config := config w |}).

(** *** The monad of asynchronous code *)

Definition M (A : Type) : Type := World -> Res A * World.

#[global] Instance M_ret : MRet M := fun A a w => (Ok a, w).

#[global] Instance M_bind : MBind M := fun A B f m w =>
  match m w with
  | (Ok a, w') => f a w'
  | (Throw e, w') => (Throw e, w')
  end.

Definition throw {A} (e : Exn) : M A := fun w => (Throw e, w).

(** [try { m } catch (e) { h e }] *)
Definition try_catch {A} (m : M A) (h : Exn -> M A) : M A := fun w =>
  match m w with
  | (Ok a, w') => (Ok a, w')
  | (Throw e, w') => h e w'
  end.

Definition gets {A} (f : World -> A) : M A := fun w => (Ok (f w), w).

Definition modify (f : World -> World) : M unit := fun w => (Ok tt, f w).

(** [await] of something outside the program. *)
Definition request (r : Request) : M Value := fun w =>
  let '(rep, w') := suspend r w in (outcome rep, w').

(** [Date.now()] *)
Definition now : M Z := gets clock.

(** [console.warn], [console.error] *)
Definition console_write (s : string) : M unit :=
  modify (fun w => set_console (console_out w ++ [s]) w).

(** [await new Promise((resolve) => setTimeout(resolve, ms))] *)
Definition sleep (ms : Z) : M unit := fun w =>
  let '(_, w') := suspend (Sleep ms) w in (Ok tt, w').

(** A new object literal on the heap; its reference is its index. *)
Definition alloc (c : ErrorCollection) : M nat := fun w =>
  (Ok (length (heap w)), set_heap (heap w ++ [c]) w).

(** The object a reference points to. *)
Definition deref (r : nat) (w : World) : option ErrorCollection := heap w !! r.

(** Reading a field through a reference. *)
Definition read (r : nat) : M ErrorCollection := fun w =>
  match deref r w with
  | Some c => (Ok c, w)
  | None => (Throw (JsError "Cannot read properties of undefined"), w)
  end.

(** Assigning to the fields of the object behind a reference. *)
Definition update (r : nat) (f : ErrorCollection -> ErrorCollection) : M unit :=
  c ← read r;
  modify (fun w => set_heap (<[r := f c]> (heap w)) w).

(** Fix records are objects too: [JSON.parse] makes a new one. *)
Definition alloc_fix (f : ParsedFix) : M nat := fun w =>
  (Ok (length (fixes w)), set_fixes (fixes w ++ [f]) w).

Definition read_fix (r : nat) : M ParsedFix := fun w =>
  match fixes w !! r with
  | Some f => (Ok f, w)
  | None => (Throw (JsError "Cannot read properties of undefined"), w)
  end.

Definition update_fix (r : nat) (f : ParsedFix -> ParsedFix) : M unit :=
  c ← read_fix r;
  modify (fun w => set_fixes (<[r := f c]> (fixes w)) w).

End Env.

Import Env.

(** ** BrowserControllerImpl (browser/controller.ts) and its two clients *)

Module Browser.

Import Controller.

(** The controller object a component holds; a method call on [null] throws
    a [TypeError]. *)
Definition the_browser : M BrowserControllerImpl := fun w =>
  match browser w with
  | Some b => (Ok b, w)
  | None => (Throw (JsError "Cannot read properties of null"), w)
  end.

Definition put_browser (b : BrowserControllerImpl) : M unit :=
  modify (set_browser (Some b)).

(** [initialize]: the protocol client first, the automation client when
    that fails. *)
Definition initialize : M unit :=
  try_catch
    (_ ← request ConnectCDP;
     b ← the_browser;
     put_browser {| cdpClient := Some {| CDP.client := true; CDP.errors := [] |};
                    playwrightClient := playwrightClient b;
                    useCDP := true |})
    (fun _ =>
     _ ← console_write "CDP connection failed, falling back to Playwright:";
     headless ← gets (fun w => browser_headless (config w));
     _ ← request (LaunchPlaywright headless);
     b ← the_browser;
     put_browser {| cdpClient := cdpClient b;
                    playwrightClient :=
                      Some {| Playwright.page := true; Playwright.errors := [] |};
                    useCDP := false |}).

(** [navigate]: the active client checks that it is connected, empties its
    buffer, then loads the page. *)
Definition navigate (url : string) : M unit :=
  b ← the_browser;
  match useCDP b, cdpClient b with
  | true, Some c =>
      if negb (CDP.client c) then throw (JsError "CDP client not connected")
      else
        _ ← put_browser {| cdpClient := Some (CDP.clear c);
                           playwrightClient := playwrightClient b;
                           useCDP := useCDP b |};
        _ ← request (Navigate url);
        mret tt
  | _, _ =>
      match playwrightClient b with
      | Some p =>
          if negb (Playwright.page p)
          then throw (JsError "Playwright page not initialized")
          else
            _ ← put_browser {| cdpClient := cdpClient b;
                               playwrightClient := Some (Playwright.clear p);
                               useCDP := useCDP b |};
            _ ← request (Navigate url);
            mret tt
      | None => throw (JsError "Browser not initialized")
      end
  end.

(** [captureErrors] on the controller state: the active client's drain, or
    nothing without a client. *)
Definition capture (b : BrowserControllerImpl)
  : list BrowserError * BrowserControllerImpl :=
  match useCDP b, cdpClient b with
  | true, Some c =>
      let '(es, c') := CDP.captureErrors c in
      (es, {| cdpClient := Some c'; playwrightClient := playwrightClient b;
              useCDP := useCDP b |})
  | _, _ =>
      match playwrightClient b with
      | Some p =>
          let '(es, p') := Playwright.captureErrors p in
          (es, {| cdpClient := cdpClient b; playwrightClient := Some p';
                  useCDP := useCDP b |})
      | None => ([], b)
      end
  end.

Definition captureErrors : M (list BrowserError) :=
  b ← the_browser;
  let '(es, b') := capture b in
  _ ← put_browser b';
  mret es.

(** [evaluate]: run a script in the page. *)
Definition evaluate (script : string) : M Value :=
  b ← the_browser;
  match useCDP b, cdpClient b with
  | true, Some c =>
      if negb (CDP.client c) then throw (JsError "CDP client not connected")
      else request (Evaluate script)
  | _, _ =>
      match playwrightClient b with
      | Some p =>
          if negb (Playwright.page p)
          then throw (JsError "Playwright page not initialized")
          else request (Evaluate script)
      | None => throw (JsError "Browser not initialized")
      end
  end.

(** [getPage]: [true] when the automation client has an open page. *)
Definition getPage : M bool :=
  b ← the_browser;
  mret match playwrightClient b with
       | Some p => Playwright.page p
       | None => false
       end.

(** [close] *)
Definition close : M unit :=
  b ← the_browser;
  put_browser {| cdpClient := None; playwrightClient := None; useCDP := useCDP b |}.

(** The errors waiting in the active client's buffer. *)
Definition buffered (b : BrowserControllerImpl) : list BrowserError :=
  match useCDP b, cdpClient b with
  | true, Some c => CDP.errors c
  | _, _ =>
      match playwrightClient b with
      | Some p => Playwright.errors p
      | None => []
      end
  end.

End Browser.

(** ** ErrorDetector (error/detector.ts) *)

Module Detector.

Definition reactProbe : string :=
"
        (function() {
          const errors = [];
          const errorBoundaries = document.querySelectorAll('[data-react-error-boundary]');
          errorBoundaries.forEach(boundary => {
            const errorText = boundary.textContent || '';
            if (errorText.includes('Error') || errorText.includes('Something went wrong')) {
              errors.push({
                type: 'react',
                message: errorText,
                errorBoundary: boundary.getAttribute('data-react-error-boundary'),
                timestamp: Date.now()
              });
            }
          });
          
          if (window.__REACT_DEVTOOLS_GLOBAL_HOOK__) {
            const devtools = window.__REACT_DEVTOOLS_GLOBAL_HOOK__;
            if (devtools.renderers && devtools.renderers.size > 0) {
              devtools.renderers.forEach(renderer => {
                if (renderer.currentDispatcherRef && renderer.currentDispatcherRef.current) {
                  const dispatcher = renderer.currentDispatcherRef.current;
                  if (dispatcher.getCurrentFiber) {
                    try {
                      const fiber = dispatcher.getCurrentFiber();
                      if (fiber && fiber.memoizedState && fiber.memoizedState.error) {
                        errors.push({
                          type: 'react',
                          message: fiber.memoizedState.error.message || 'React component error',
                          componentStack: fiber.memoizedState.error.stack,
                          timestamp: Date.now()
                        });
                      }
                    } catch (e) {
                      // Ignore errors accessing React internals
                    }
                  }
                }
              });
            }
          }
          
          return errors;
        })()
      ".


Definition has_type (t : ErrorType) (e : BrowserError) : bool :=
  bool_decide (type e = t).

Definition detectConsoleErrors : M (list BrowserError) :=
  errors ← Browser.captureErrors;
  mret (List.filter (has_type console) errors).

Definition detectNetworkErrors : M (list BrowserError) :=
  errors ← Browser.captureErrors;
  mret (List.filter (has_type network) errors).

(** [reactErrorInfo || []]: a falsy result becomes the empty array. *)
Definition or_empty (v : Value) : Value :=
  match v with
  | VUndefined | VBool false | VFix None => VErrors []
  | _ => v
  end.

Definition detectReactErrors : M Value :=
  try_catch
    (reactErrorInfo ← Browser.evaluate reactProbe;
     mret (or_empty reactErrorInfo))
    (fun _ => mret (VErrors [])).

Definition detectUIErrors : M (list BrowserError) :=
  errors ← Browser.captureErrors;
  mret (List.filter (has_type ui) errors).

(** [acc[error.type] = (acc[error.type] || 0) + 1] on an object whose keys
    keep their insertion order. *)
Fixpoint bump (t : ErrorType) (acc : list (ErrorType * Z)) : list (ErrorType * Z) :=
  match acc with
  | [] => [(t, 1)]
  | (t', n) :: rest =>
      if decide (t = t') then (t', n + 1) :: rest else (t', n) :: bump t rest
  end.

Definition byType (errors : list BrowserError) : list (ErrorType * Z) :=
  fold_left (fun acc error => bump (type error) acc) errors [].

Definition summaryPart (entry : ErrorType * Z) : string :=
  let '(t, count) := entry in
  Js.show count +:+ " " +:+ type_name t +:+ " error" +:+
  (if 1 <? count then "s" else "").

Definition generateSummary (errors : list BrowserError) : string :=
  if (Z.of_nat (length errors) =? 0) then "No errors detected"
  else "Found " +:+ Js.show (Z.of_nat (length errors)) +:+ " error(s): " +:+
       Js.join ", " (summaryPart <$> byType errors).

(** [...reactErrors]: only an array can be spread. *)
Definition spread (v : Value) : M (list BrowserError) :=
  match v with
  | VErrors l => mret l
  | _ => throw (JsError "reactErrors is not iterable")
  end.

(** [detectAllErrors]: the four detection steps in order, then a new
    collection object. *)
Definition detectAllErrors : M nat :=
  consoleErrors ← detectConsoleErrors;
  networkErrors ← detectNetworkErrors;
  reactErrors ← detectReactErrors;
  uiErrors ← detectUIErrors;
  reactList ← spread reactErrors;
  let allErrors := consoleErrors ++ networkErrors ++ reactList ++ uiErrors in
  alloc {| errors := allErrors;
           hasErrors := 0 <? Z.of_nat (length allErrors);
           summary := generateSummary allErrors |}.

End Detector.

(** ** UIValidator (test/validator.ts) *)

Module Validator.

Record UIValidationRule := {
  selector : string;
  action : option Action;
  value : option string;
  expected : option string;
  timeout : option Z;
}.

Record InteractionResult := {
  success : bool;
  error : option BrowserError;
}.

Record MultipleResult := {
  all_success : bool;
  ui_errors : list BrowserError;
}.

Definition action_name (a : Action) : string :=
  match a with
  | click => "click"
  | type_text => "type"
  | wait => "wait"
  | check => "check"
  end.

Definition getActionScript (rule : UIValidationRule) : string :=
  match action rule with
  | Some click => "element.click();"
  | Some type_text =>
      "element.value = '" +:+ Js.or_else (value rule) "" +:+
      "'; element.dispatchEvent(new Event('input', { bubbles: true }));"
  | Some check =>
      "if (element.checked !== " +:+
      (if bool_decide (expected rule = Some "checked") then "true" else "false") +:+
      ") { throw new Error('Checkbox state mismatch'); }"
  | Some wait =>
      "setTimeout(() => {}, " +:+ Js.show (Js.num_or (timeout rule) 1000) +:+ ");"
  | None => ""
  end.

Definition script_head : string :=
"
        (function() {
          const element = document.querySelector('".

Definition script_body : string :=
"');
          if (!element) {
            return { success: false, error: 'Element not found' };
          }

          try {
            ".

Definition script_tail : string :=
"
            return { success: true };
          } catch (error) {
            return { success: false, error: error.message };
          }
        })()
      ".

(** The script [validateInteraction] hands to the page: the selector and
    the action script are spliced into the template as they are. *)
Definition interactionScript (rule : UIValidationRule) : string :=
  script_head +:+ selector rule +:+ script_body +:+ getActionScript rule +:+ script_tail.

Definition uiError (msg : string) (rule : UIValidationRule) (ts : Z) : BrowserError :=
  {| type := ui; message := msg; stack := None; source := None;
     line := None; column := None; timestamp := ts;
     detail := UIDetail (selector rule) (action rule) None None |}.

Definition validateInteraction (rule : UIValidationRule) : M InteractionResult :=
  try_catch
    (page ← Browser.getPage;
     if negb page then
       ts ← now;
       mret {| success := false;
               error := Some (uiError "Page not available for interaction" rule ts) |}
     else
       result ← Browser.evaluate (interactionScript rule);
       match result with
       | VInteraction true _ => mret {| success := true; error := None |}
       | VInteraction false err =>
           ts ← now;
           mret {| success := false;
                   error := Some (uiError (Js.or_else err "Interaction failed") rule ts) |}
       | VUndefined | VFix None =>
           throw (JsError "Cannot read properties of undefined (reading 'success')")
       | VBool _ | VErrors _ | VFix (Some _) =>
           ts ← now;
           mret {| success := false;
                   error := Some (uiError "Interaction failed" rule ts) |}
       end)
    (fun e =>
       ts ← now;
       mret {| success := false;
               error := Some (uiError (message_or e "Unknown validation error") rule ts) |}).

(** The loop of [validateMultiple], with the [errors] array built so far. *)
Fixpoint validateEach (rules : list UIValidationRule) (errors : list BrowserError)
  : M (list BrowserError) :=
  match rules with
  | [] => mret errors
  | rule :: rest =>
      result ← validateInteraction rule;
      match success result, error result with
      | false, Some e => validateEach rest (errors ++ [e])
      | _, _ => validateEach rest errors
      end
  end.

Definition validateMultiple (rules : list UIValidationRule) : M MultipleResult :=
  errors ← validateEach rules [];
  mret {| all_success := Z.of_nat (length errors) =? 0; ui_errors := errors |}.

End Validator.

(** ** TestRunner (test/runner.ts) *)

Module Runner.

Import Validator.

Record FeatureTest := {
  name : string;
  url : option string;
  uiRules : option (list UIValidationRule);
  waitTime : option Z;
}.

(** [errors] is a reference to the collection object. *)
Record TestResult := {
  feature : string;
  success : bool;
  errors : nat;
  duration : Z;
}.

(** Navigate when a URL is given, pause when a wait is given, then detect. *)
Definition observe (feature : FeatureTest) : M nat :=
  _ ← match url feature with
      | Some (String c s) => Browser.navigate (String c s)
      | _ => mret tt
      end;
  _ ← match waitTime feature with
      | Some ms => if ms =? 0 then mret tt else sleep ms
      | None => mret tt
      end;
  Detector.detectAllErrors.

(** The three assignments made to the collection when UI validation fails. *)
Definition recordFailure (errors : nat) (uiErrors : list BrowserError) : M unit :=
  _ ← update errors (fun c =>
        {| Types.errors := Types.errors c ++ uiErrors;
           hasErrors := hasErrors c; summary := summary c |});
  _ ← update errors (fun c =>
        {| Types.errors := Types.errors c; hasErrors := true; summary := summary c |});
  update errors (fun c =>
        {| Types.errors := Types.errors c; hasErrors := hasErrors c;
           summary := summary c +:+ ". UI validation failed: " +:+
                      Js.show (Z.of_nat (length uiErrors)) +:+ " error(s)" |}).

(** Run the UI rules, if any; the result is [uiValidationSuccess]. *)
Definition validate (feature : FeatureTest) (errors : nat) : M bool :=
  match uiRules feature with
  | Some (rule :: rest) =>
      uiResult ← validateMultiple (rule :: rest);
      _ ← (if negb (all_success uiResult)
           then recordFailure errors (ui_errors uiResult)
           else mret tt);
      mret (all_success uiResult)
  | _ => mret true
  end.

(** The body of the [try] block. *)
Definition attempt (feature : FeatureTest) (startTime : Z) : M TestResult :=
  errors ← observe feature;
  uiValidationSuccess ← validate feature errors;
  c ← read errors;
  let success := negb (hasErrors c) && uiValidationSuccess in
  finish ← now;
  mret {| feature := name feature; success := success; errors := errors;
          duration := finish - startTime |}.

(** The single record the [catch] block wraps a thrown value in. *)
Definition syntheticError (e : Exn) (ts : Z) : BrowserError :=
  {| type := console; message := message_or e "Unknown test error";
     stack := None; source := None; line := None; column := None;
     timestamp := ts; detail := Plain |}.

Definition failed (feature : FeatureTest) (startTime : Z) (e : Exn) : M TestResult :=
  ts ← now;
  errors ← alloc {| Types.errors := [syntheticError e ts];
                    hasErrors := true;
                    summary := "Test execution failed: " +:+ message_or e "Unknown error" |};
  finish ← now;
  mret {| feature := name feature; success := false; errors := errors;
          duration := finish - startTime |}.

Definition testFeature (feature : FeatureTest) : M TestResult :=
  startTime ← now;
  try_catch (attempt feature startTime) (failed feature startTime).

End Runner.

(** ** GeminiClient (gemini/client.ts): obtaining and applying a fix *)

Module Gemini.

(** [existsSync(path)] *)
Definition existsSync (path : string) : M bool :=
  gets (fun w => bool_decide (is_Some (fs w !! path))).

(** [await readFile(path, 'utf-8')] *)
Definition readFile (path : string) : M string := fun w =>
  match fs w !! path with
  | Some (RegularFile content true _) => (Ok content, w)
  | Some (RegularFile _ false _) => (Throw (JsError "EACCES: permission denied"), w)
  | Some Directory => (Throw (JsError "EISDIR: illegal operation on a directory"), w)
  | None => (Throw (JsError "ENOENT: no such file or directory"), w)
  end.

(** [await writeFile(path, content, 'utf-8')] *)
Definition writeFile (path content : string) : M unit := fun w =>
  match fs w !! path with
  | Some (RegularFile _ r true) =>
      (Ok tt, set_fs (<[path := RegularFile content r true]> (fs w)) w)
  | Some (RegularFile _ _ false) => (Throw (JsError "EACCES: permission denied"), w)
  | Some Directory => (Throw (JsError "EISDIR: illegal operation on a directory"), w)
  | None => (Ok tt, set_fs (<[path := RegularFile content true true]> (fs w)) w)
  end.

(** [generateFix]: the request to the model and the parsing of its answer
    are the outside's; a given [filePath] replaces the file of the answer. *)
Definition generateFix (errors : ErrorCollection) (fileContent filePath : option string)
  : M (option nat) :=
  try_catch
    (answer ← request (GenerateFix (Types.errors errors) fileContent);
     match answer with
     | VFix (Some codeFix) =>
         r ← alloc_fix
               match filePath with
               | Some (String c s) =>
                   {| parsed_file := Some (String c s);
                      parsed_changes := parsed_changes codeFix;
                      parsed_explanation := parsed_explanation codeFix |}
               | _ => codeFix
               end;
         mret (Some r)
     | _ => mret None
     end)
    (fun _ => _ ← console_write "Error generating fix:"; mret None).

(** *** The changes of a record that is as declared

    What the sort and the loop of [applyFix] do when every line number is an
    integer and every field is there. *)

(** [changes.sort((a, b) => b.line - a.line)]: a stable sort, larger line
    numbers first. *)
Fixpoint insert_desc (x : Change) (l : list Change) : list Change :=
  match l with
  | [] => [x]
  | y :: l' =>
      if change_line x <? change_line y then y :: insert_desc x l' else x :: l
  end.

Fixpoint sort_desc (l : list Change) : list Change :=
  match l with
  | [] => []
  | x :: l' => insert_desc x (sort_desc l')
  end.

Definition mismatchWarning (change : Change) : string :=
  "Line " +:+ Js.show (change_line change) +:+
  " does not match expected content. Skipping.".

(** [lineIndex >= 0 && lineIndex < lines.length], with [lineIndex = line - 1] *)
Definition inRange (change : Change) (lines : list string) : bool :=
  (0 <=? change_line change - 1) && (change_line change - 1 <? Z.of_nat (length lines)).

(** [lines[lineIndex].trim() === change.oldCode.trim()] *)
Definition matches (change : Change) (lines : list string) : bool :=
  match lines !! Z.to_nat (change_line change - 1) with
  | Some l => String.eqb (Js.trim l) (Js.trim (oldCode change))
  | None => false
  end.

(** One turn of the loop over the changes, on the [lines] array. *)
Definition applyChange (lines : list string) (change : Change) : list string :=
  if inRange change lines && matches change lines
  then <[Z.to_nat (change_line change - 1) := newCode change]> lines
  else lines.

Definition sorted (codeFix : CodeFix) : CodeFix :=
  {| file := file codeFix; changes := sort_desc (changes codeFix);
     explanation := explanation codeFix |}.

(** *** [applyFix] on the record as parsed *)

(** [(a, b) => b.line - a.line] is positive: [a] goes after [b]. *)
Definition goesAfter (a b : ParsedChange) : bool :=
  negb (Qle_bool (parsed_line b) (parsed_line a)).

(** [changes.sort(...)] with that comparison: a stable sort. *)
Fixpoint insert_parsed (x : ParsedChange) (l : list ParsedChange)
  : list ParsedChange :=
  match l with
  | [] => [x]
  | y :: l' => if goesAfter x y then y :: insert_parsed x l' else x :: l
  end.

Fixpoint sort_parsed (l : list ParsedChange) : list ParsedChange :=
  match l with
  | [] => []
  | x :: l' => insert_parsed x (sort_parsed l')
  end.

(** The record after the sort, which is in place. *)
Definition sortedFix (codeFix : ParsedFix) : ParsedFix :=
  {| parsed_file := parsed_file codeFix;
     parsed_changes := sort_parsed <$> parsed_changes codeFix;
     parsed_explanation := parsed_explanation codeFix |}.

(** [lineIndex >= 0 && lineIndex < lines.length] *)
Definition indexInRange (lineIndex : Q) (lines : list string) : bool :=
  Qle_bool 0 lineIndex &&
  negb (Qle_bool (inject_Z (Z.of_nat (length lines))) lineIndex).

(** The receiver of a method call or the argument of [path.resolve]:
    [undefined] there throws a [TypeError]. *)
Definition defined {A} (o : option A) : M A :=
  match o with
  | Some a => mret a
  | None => throw (JsError "Cannot read properties of undefined")
  end.

(** The loop: each change acts on the lines left by the changes before it. *)
Fixpoint applyChanges (changes : list ParsedChange) (lines : list string)
  : M (list string) :=
  match changes with
  | [] => mret lines
  | change :: rest =>
      let lineIndex := (parsed_line change - 1)%Q in
      if indexInRange lineIndex lines then
        current ← defined (Js.item lines lineIndex);
        oldCode ← defined (parsed_oldCode change);
        if String.eqb (Js.trim current) (Js.trim oldCode)
        then applyChanges rest
               (<[Z.to_nat (Js.floor lineIndex) := parsed_newCode change]> lines)
        else
          _ ← console_write ("Line " +:+ Js.showInteger (parsed_line change) +:+
                             " does not match expected content. Skipping.");
          applyChanges rest lines
      else applyChanges rest lines
  end.

(** [applyFix], on a reference to the fix record (the sort is in place). *)
Definition applyFix (fixRef : nat) : M bool :=
  try_catch
    (codeFix ← read_fix fixRef;
     file ← defined (parsed_file codeFix);
     filePath ← gets (fun w => resolve w file);
     found ← existsSync filePath;
     if negb found then
       _ ← console_write ("File not found: " +:+ filePath);
       mret false
     else
       content ← readFile filePath;
       let lines := Js.split_lines content in
       changes ← defined (parsed_changes codeFix);
       _ ← update_fix fixRef sortedFix;
       lines' ← applyChanges (sort_parsed changes) lines;
       _ ← writeFile filePath (Js.join_lines lines');
       mret true)
    (fun _ => _ ← console_write "Error applying fix:"; mret false).

End Gemini.

(** ** CursorIntegration (cursor/integration.ts) *)

Module Cursor.

Record FixResult := {
  success : bool;
  codeFix : option nat;
  error : option string;
}.

Definition is_digit (c : ascii) : bool :=
  let n := Z.of_nat (nat_of_ascii c) in (48 <=? n) && (n <=? 57).

Fixpoint all_digits (s : string) : bool :=
  match s with
  | EmptyString => true
  | String c s' => is_digit c && all_digits s'
  end.

(** What [(?::\d+)?$] accepts: nothing, or a colon and digits up to the end. *)
Definition line_suffix (s : string) : bool :=
  match s with
  | EmptyString => true
  | String c (String d s') =>
      bool_decide (c = ":"%char) && is_digit d && all_digits s'
  | _ => false
  end.

(** A character [.] does not match. *)
Definition is_terminator (c : ascii) : bool :=
  let n := Z.of_nat (nat_of_ascii c) in (n =? 10) || (n =? 13).

(** Group 1 of [/^(.+?)(?::\d+)?$/]: the shortest non-empty prefix without a
    line terminator that leaves an accepted suffix. *)
Fixpoint pathPart (s : string) : option string :=
  match s with
  | EmptyString => None
  | String c rest =>
      if is_terminator c then None
      else if line_suffix rest then Some (String c EmptyString)
      else String c <$> pathPart rest
  end.

Definition extractFilePath (resolve : string -> string) (source : string)
  : option string :=
  if bool_decide (source = EmptyString) || Js.startsWith "http://" source
     || Js.startsWith "https://" source
  then None
  else match pathPart source with
       | Some filePath =>
           if Js.startsWith "/" filePath then Some filePath
           else Some (resolve filePath)
       | None => None
       end.

(** The surrounding file, for the first error that names a source. *)
Definition fileContext (errors : ErrorCollection) : M (option string * option string) :=
  match List.find (fun e => Js.truthy (source e)) (Types.errors errors) with
  | Some errorWithSource =>
      r ← gets resolve;
      let filePath := extractFilePath r (default EmptyString (source errorWithSource)) in
      match filePath with
      | Some (String c s) =>
          found ← Gemini.existsSync (String c s);
          if found : bool then
            fileContent ← Gemini.readFile (String c s);
            mret (Some (String c s), Some fileContent)
          else mret (Some (String c s), None)
      | _ => mret (filePath, @None string)
      end
  | None => mret (@None string, @None string)
  end.

Definition fixError (error : nat) : M FixResult :=
  try_catch
    (errors ← read error;
     '(filePath, fileContent) ← fileContext errors;
     codeFix ← Gemini.generateFix errors fileContent filePath;
     match codeFix with
     | None =>
         mret {| success := false; codeFix := None;
                 error := Some "Could not generate fix for the error" |}
     | Some fixRef =>
         applied ← Gemini.applyFix fixRef;
         if negb applied then
           mret {| success := false; codeFix := Some fixRef;
                   error := Some "Failed to apply fix to file" |}
         else mret {| success := true; codeFix := Some fixRef; error := None |}
     end)
    (fun e =>
       mret {| success := false; codeFix := None;
               error := Some (message_or e "Unknown error during fix") |}).

End Cursor.

(** ** The fix-and-retest tool of the server *)

Module Server.

Import Runner.

(** The payload of the three ways the tool answers. *)
Inductive Report :=
| Passed (feature : string) (iterations : Z)
| FixFailed (feature : string) (iterations : Z) (error : option string)
    (lastErrors : option ErrorCollection)
| Exhausted (feature : option string) (iterations : Z)
    (errors : option ErrorCollection).

Definition iterations (r : Report) : Z :=
  match r with
  | Passed _ n | FixFailed _ n _ _ | Exhausted _ n _ => n
  end.

Record FixAndRetestArgs := {
  arg_feature : FeatureTest;
  maxIterations : option Z;
}.

(** [ensureBrowser]: make and initialise the controller on first use. *)
Definition ensureBrowser : M unit := fun w =>
  match browser w with
  | Some _ => (Ok tt, w)
  | None => Browser.initialize (set_browser (Some Controller.fresh) w)
  end.

(** [{ ...feature, url: feature.url || this.config.devServer.url }] *)
Definition withDefaultUrl (feature : FeatureTest) (w : World) : FeatureTest :=
  {| name := name feature;
     url := Some (Js.or_else (url feature) (devServer_url (config w)));
     uiRules := uiRules feature;
     waitTime := waitTime feature |}.

(** The [while (iteration < maxIterations)] loop and the report after it. *)
Equations? retest (feature : FeatureTest) (maxIterations iteration : Z)
    (lastResult : option TestResult) (w : World) : Res Report * World
    by wf (Z.to_nat (maxIterations - iteration)) lt :=
  retest feature maxIterations iteration lastResult w
    with Z_lt_dec iteration maxIterations := {
    | right _ =>
        (Ok (Exhausted (Runner.feature <$> lastResult) maxIterations
               (lastResult ≫= fun r => deref (Runner.errors r) w)), w)
    | left _ with testFeature (withDefaultUrl feature w) w := {
      | (Throw e, w1) => (Throw e, w1)
      | (Ok result, w1) with Runner.success result := {
        | true => (Ok (Passed (Runner.feature result) (iteration + 1)), w1)
        | false with Cursor.fixError (Runner.errors result) w1 := {
          | (Throw e, w2) => (Throw e, w2)
          | (Ok fixResult, w2) with Cursor.success fixResult := {
            | false =>
                (Ok (FixFailed (Runner.feature result) (iteration + 1)
                       (Cursor.error fixResult)
                       (deref (Runner.errors result) w2)), w2)
            | true =>
                retest feature maxIterations (iteration + 1) (Some result)
                  (snd (sleep 2000 w2)) } } } } }.
Proof. all: lia. Qed.

Definition handleFixAndRetest (args : FixAndRetestArgs) : M Report :=
  _ ← ensureBrowser;
  _ ← request EnsureServerRunning;
  config ← gets config;
  let maxIterations := Js.num_or (maxIterations args) (test_maxRetryAttempts config) in
  retest (arg_feature args) maxIterations 0 None.

End Server.

(** ** Single-quoted string literals of the script language *)

Module Lexical.

Definition quote : ascii := "'"%char.
Definition backslash : ascii := "\"%char.

(** Reading a single-quoted literal from just after its opening quote: the
    raw text up to the closing quote and what follows that quote. A
    backslash takes the next character with it; a bare line terminator or
    the end of the text leaves the literal unterminated. *)
Fixpoint literal (s : string) : option (string * string) :=
  match s with
  | EmptyString => None
  | String c s' =>
      if Ascii.eqb c quote then Some (EmptyString, s')
      else if Ascii.eqb c backslash then
        match s' with
        | String d s'' =>
            match literal s'' with
            | Some (body, rest) => Some (String c (String d body), rest)
            | None => None
            end
        | EmptyString => None
        end
      else if Cursor.is_terminator c then None
      else match literal s' with
           | Some (body, rest) => Some (String c body, rest)
           | None => None
           end
  end.

(** A string that can stand between single quotes as it is. *)
Fixpoint plain (s : string) : bool :=
  match s with
  | EmptyString => true
  | String c s' =>
      negb (Ascii.eqb c quote) && negb (Ascii.eqb c backslash)
      && negb (Cursor.is_terminator c) && plain s'
  end.

(** The script from the selector on: what follows the quote that
    [script_head] opens. *)
Definition afterHead (rule : Validator.UIValidationRule) : string :=
  Validator.selector rule +:+ Validator.script_body +:+
  Validator.getActionScript rule +:+ Validator.script_tail.

(** The text the template puts right after the selector's closing quote. *)
Definition afterSelector (rule : Validator.UIValidationRule) : string :=
  match Validator.script_body with
  | String _ rest => rest +:+ Validator.getActionScript rule +:+ Validator.script_tail
  | EmptyString => EmptyString
  end.

(** The selector stays data: the literal opened for it holds the selector
    and ends at the template's own closing quote. *)
Definition selectorContained (rule : Validator.UIValidationRule) : Prop :=
  literal (afterHead rule) = Some (Validator.selector rule, afterSelector rule).

(** The two pieces of the action script for [type] around the value. *)
Definition typeHead : string := "element.value = '".

Definition typeTail : string :=
  "'; element.dispatchEvent(new Event('input', { bubbles: true }));".

(** The action script from the value on. *)
Definition afterValueQuote (rule : Validator.UIValidationRule) : string :=
  Js.or_else (Validator.value rule) "" +:+ typeTail.

(** The value stays data: its literal holds the value and ends at the
    template's closing quote. *)
Definition valueContained (rule : Validator.UIValidationRule) : Prop :=
  literal (afterValueQuote rule)
  = Some (Js.or_else (Validator.value rule) "",
          "; element.dispatchEvent(new Event('input', { bubbles: true }));").

(** *** The script as script text and literals

    The template has single-quoted literals only: no double quote, no
    backquote, no slash. [tokens] reads a script of that kind from its
    start: script text and single-quoted literals in turn, a literal that
    does not close being the last token. *)

Inductive Token :=
  | Code (text : string)
  | Literal (body : string)
  | Unterminated (body : string).

Definition codeChar (c : ascii) (ts : list Token) : list Token :=
  match ts with
  | Code text :: rest => Code (String c text) :: rest
  | _ => Code (String c EmptyString) :: ts
  end.

Definition literalChar (c : ascii) (ts : list Token) : list Token :=
  match ts with
  | Literal body :: rest => Literal (String c body) :: rest
  | Unterminated body :: rest => Unterminated (String c body) :: rest
  | _ => ts
  end.

Fixpoint tokens (s : string) : list Token :=
  match s with
  | EmptyString => []
  | String c s' =>
      if Ascii.eqb c quote then inLiteral s' else codeChar c (tokens s')
  end
with inLiteral (s : string) : list Token :=
  match s with
  | EmptyString => [Unterminated EmptyString]
  | String c s' =>
      if Ascii.eqb c quote then Literal EmptyString :: tokens s'
      else if Ascii.eqb c backslash then
        match s' with
        | String d s'' => literalChar c (literalChar d (inLiteral s''))
        | EmptyString => [Unterminated (String c EmptyString)]
        end
      else if Cursor.is_terminator c then [Unterminated EmptyString]
      else literalChar c (inLiteral s')
  end.

(** What [inLiteral] gives starts with the literal it was in. *)
Definition literalFirst (ts : list Token) : Prop :=
  match ts with
  | Literal _ :: _ | Unterminated _ :: _ => True
  | _ => False
  end.

Fixpoint noQuote (s : string) : bool :=
  match s with
  | EmptyString => true
  | String c s' => negb (Ascii.eqb c quote) && noQuote s'
  end.

(** The script text of the template, for the action [type], around its
    four literals: the selector, a message, the value and an event name. *)
Definition toSelector : string :=
"
        (function() {
          const element = document.querySelector(".

Definition toMessage : string :=
");
          if (!element) {
            return { success: false, error: ".

Definition toValue : string :=
" };
          }

          try {
            element.value = ".

Definition toEventName : string := "; element.dispatchEvent(new Event(".

Definition toEnd : string :=
", { bubbles: true }));
            return { success: true };
          } catch (error) {
            return { success: false, error: error.message };
          }
        })()
      ".

(** The tokens of the script for [type] when the selector and the value
    are the bodies of their literals. *)
Definition typeTokens (selector value : string) : list Token :=
  [ Code toSelector; Literal selector;
    Code toMessage; Literal "Element not found";
    Code toValue; Literal value;
    Code toEventName; Literal "input";
    Code toEnd ].

(** The tokens up to the value's literal closed early with [body]. *)
Definition toValueTokens (selector body : string) : list Token :=
  [ Code toSelector; Literal selector;
    Code toMessage; Literal "Element not found";
    Code toValue; Literal body ].

(** A selector that closes its literal and goes on with a call of its own. *)
Definition injected : Validator.UIValidationRule :=
  {| Validator.selector := "x'); fetch('/steal?c=' + document.cookie); ('";
     Validator.action := Some click; Validator.value := None;
     Validator.expected := None; Validator.timeout := None |}.

Definition typeEmail : Validator.UIValidationRule :=
  {| Validator.selector := "#email"; Validator.action := Some type_text;
     Validator.value := Some "user@example.com"; Validator.expected := None;
     Validator.timeout := None |}.

(** A value that closes its literal and goes on with a statement of its
    own. *)
Definition injectedValue : Validator.UIValidationRule :=
  {| Validator.selector := "#email"; Validator.action := Some type_text;
     Validator.value := Some "a'; document.title = 'x";
     Validator.expected := None; Validator.timeout := None |}.

(** A selector whose single quote comes after a backslash. *)
Definition escapedQuote : Validator.UIValidationRule :=
  {| Validator.selector := "a\'b"; Validator.action := Some click;
     Validator.value := None; Validator.expected := None;
     Validator.timeout := None |}.

End Lexical.

(** ** Concrete situations used as examples *)

Module Scenario.

Import Controller.

(** An outside where nothing happens: scripts yield nothing serialisable,
    no error arrives, no time passes. *)
Definition quiet : list Request -> Reply := fun _ =>
  {| outcome := Ok VUndefined; arrivals := []; elapsed := 0 |}.

Definition config0 : Config :=
  {| devServer_url := "http://localhost:3000"; browser_headless := true;
     test_maxRetryAttempts := 5 |}.

Definition world (e : list Request -> Reply) (b : option BrowserControllerImpl)
    (files : gmap string Node) : World :=
  {| env := e; trace := []; clock := 0; browser := b; fs := files;
     console_out := []; heap := []; fixes := [];
     resolve := fun p => "/app/" +:+ p; config := config0 |}.

(** A failed request, as the response handler records it. *)
Definition notFound : BrowserError :=
  {| type := network; message := "Network error: 404 Not Found";
     stack := None; source := None; line := None; column := None;
     timestamp := 0;
     detail := NetworkDetail (Some 404) (Some "Not Found") (Some "GET")
                 (Some "http://localhost:3000/api/user") |}.

(** An uncaught exception, as the exception handler records it. *)
Definition uncaught : BrowserError :=
  {| type := console; message := "TypeError: x is null";
     stack := None; source := Some "src/App.tsx"; line := Some 10; column := Some 3;
     timestamp := 0; detail := Plain |}.

Definition cdpWith (es : list BrowserError) : BrowserControllerImpl :=
  {| cdpClient := Some {| CDP.client := true; CDP.errors := es |};
     playwrightClient := None; useCDP := true |}.

Definition playwrightWith (open : bool) (es : list BrowserError)
  : BrowserControllerImpl :=
  {| cdpClient := None;
     playwrightClient := Some {| Playwright.page := open; Playwright.errors := es |};
     useCDP := false |}.

(** A page on which every interaction succeeds and the probe finds nothing. *)
Definition healthy : list Request -> Reply := fun t =>
  {| outcome := match t with
                | Evaluate script :: _ =>
                    if String.eqb script Detector.reactProbe then Ok (VErrors [])
                    else Ok (VInteraction true None)
                | _ => Ok VUndefined
                end;
     arrivals := []; elapsed := 0 |}.

(** A page on which no element is found. *)
Definition broken : list Request -> Reply := fun t =>
  {| outcome := match t with
                | Evaluate script :: _ =>
                    if String.eqb script Detector.reactProbe then Ok (VErrors [])
                    else Ok (VInteraction false (Some "Element not found"))
                | _ => Ok VUndefined
                end;
     arrivals := []; elapsed := 0 |}.

(** A network down: navigation fails. *)
Definition offline : list Request -> Reply := fun t =>
  {| outcome := match t with
                | Navigate _ :: _ => Throw (JsError "net::ERR_CONNECTION_REFUSED")
                | _ => Ok VUndefined
                end;
     arrivals := []; elapsed := 0 |}.

(** A protocol session with one uncaught exception and one failed request
    in the buffer, on a healthy page. *)
Definition twoBuffered : World :=
  world healthy (Some (cdpWith [uncaught; notFound])) ∅.

(** A protocol session with only a failed request in the buffer. *)
Definition oneFailedRequest : World :=
  world healthy (Some (cdpWith [notFound])) ∅.

(** An automation session on a page where no element is found. *)
Definition nothingFound : World := world broken (Some (playwrightWith true [])) ∅.

(** An automation session on a healthy page. *)
Definition allFine : World := world healthy (Some (playwrightWith true [])) ∅.

(** A protocol session while the network is down. *)
Definition unreachable : World := world offline (Some (cdpWith [])) ∅.

(** The fix of the specification's example: line 10 of a ten-line file. *)
Definition tenLines : string :=
  "l1" +:+ Js.nl +:+ "l2" +:+ Js.nl +:+ "l3" +:+ Js.nl +:+ "l4" +:+ Js.nl +:+
  "l5" +:+ Js.nl +:+ "l6" +:+ Js.nl +:+ "l7" +:+ Js.nl +:+ "l8" +:+ Js.nl +:+
  "l9" +:+ Js.nl +:+ "  const x = null;".

Definition nullToObject : CodeFix :=
  {| file := "src/App.tsx";
     changes := [ {| change_line := 10; oldCode := "const x = null;";
                     newCode := "const x = {};" |} ];
     explanation := "initialise x" |}.

Definition wrongOldText : CodeFix :=
  {| file := "src/App.tsx";
     changes := [ {| change_line := 10; oldCode := "const y = 1;";
                     newCode := "const x = {};" |} ];
     explanation := "initialise x" |}.

(** A world with one file and one fix record. *)
Definition project (content : string) (codeFix : CodeFix) : World :=
  set_fixes [parsed codeFix]
    (world quiet None {[ "/app/src/App.tsx" := RegularFile content true true ]}).

(** An old text that differs from the trimmed line only by a leading blank. *)
Definition paddedOldText : Change :=
  {| change_line := 1; oldCode := " a"; newCode := "b" |}.

Definition paddedFix : CodeFix :=
  {| file := "src/App.tsx"; changes := [paddedOldText]; explanation := "" |}.

(** A fix record that names line 1.5. *)
Definition betweenLines : ParsedFix :=
  {| parsed_file := Some "src/App.tsx";
     parsed_changes := Some [ {| parsed_line := (3 # 2)%Q;
                                 parsed_oldCode := Some "l1";
                                 parsed_newCode := "x" |} ];
     parsed_explanation := "" |}.

(** The ten-line file, readable and writable, with that record. *)
Definition halfLine : World :=
  set_fixes [betweenLines]
    (world quiet None {[ "/app/src/App.tsx" := RegularFile tenLines true true ]}).

(** A page where no element is found and a model that keeps proposing a
    change whose old text is not in the file. *)
Definition unhelpful : list Request -> Reply := fun t =>
  {| outcome := match t with
                | Evaluate script :: _ =>
                    if String.eqb script Detector.reactProbe then Ok (VErrors [])
                    else Ok (VInteraction false (Some "Element not found"))
                | GenerateFix _ _ :: _ => Ok (VFix (Some (parsed wrongOldText)))
                | _ => Ok VUndefined
                end;
     arrivals := []; elapsed := 0 |}.

Definition stuck : World :=
  world unhelpful (Some (playwrightWith true []))
    {[ "/app/src/App.tsx" := RegularFile tenLines true true ]}.


Definition clickLogin : Validator.UIValidationRule :=
  {| Validator.selector := "#login-button"; Validator.action := Some click;
     Validator.value := None; Validator.expected := None;
     Validator.timeout := None |}.

Definition login : Runner.FeatureTest :=
  {| Runner.name := "login"; Runner.url := Some "http://localhost:3000/login";
     Runner.uiRules := Some [clickLogin]; Runner.waitTime := None |}.

Definition home : Runner.FeatureTest :=
  {| Runner.name := "home"; Runner.url := None;
     Runner.uiRules := None; Runner.waitTime := None |}.

(** The stuck project after its first pass, and after the model has
    answered the request for a fix. *)
Definition afterFirstPass : World := (Runner.testFeature login stuck).2.

Definition firstErrors : ErrorCollection :=
  default {| errors := []; hasErrors := false; summary := "" |}
          (deref 0 afterFirstPass).

Definition afterGenerate : World :=
  (Gemini.generateFix firstErrors None None afterFirstPass).2.

Definition retestLogin (maxIterations : option Z) : Server.FixAndRetestArgs :=
  {| Server.arg_feature := login; Server.maxIterations := maxIterations |}.

End Scenario.

(** ** Notions the statements are about *)

Module Notions.

Import Validator.

(** The results of the rules, one by one, as [validateMultiple] obtains
    them. *)
Fixpoint outcomes (rules : list UIValidationRule) : M (list InteractionResult) :=
  match rules with
  | [] => mret []
  | rule :: rest =>
      result ← validateInteraction rule;
      results ← outcomes rest;
      mret (result :: results)
  end.

(** The error a result adds to the array of [validateMultiple]. *)
Definition failure (result : InteractionResult) : option BrowserError :=
  match success result, error result with
  | false, Some e => Some e
  | _, _ => None
  end.

(** Every rule of the feature was run in this pass and passed. *)
Definition rulesPassed (feature : Runner.FeatureTest) (w : World) : Prop :=
  exists r w1 results w2,
    Runner.observe feature w = (Ok r, w1) /\
    outcomes (default [] (Runner.uiRules feature)) w1 = (Ok results, w2) /\
    Forall (fun result => success result = true) results.

(** The collection as [testFeature] leaves it after a failed UI validation. *)
Definition withUIErrors (c : ErrorCollection) (uiErrors : list BrowserError)
  : ErrorCollection :=
  {| errors := errors c ++ uiErrors;
     hasErrors := true;
     summary := summary c +:+ ". UI validation failed: " +:+
                Js.show (Z.of_nat (length uiErrors)) +:+ " error(s)" |}.

(** The collection the [catch] block of [testFeature] builds. *)
Definition synthetic (e : Exn) (ts : Z) : ErrorCollection :=
  {| errors := [Runner.syntheticError e ts];
     hasErrors := true;
     summary := "Test execution failed: " +:+ message_or e "Unknown error" |}.

(** The warnings the loop over the changes writes, in order. *)
Fixpoint warnings (changes : list Change) (lines : list string) : list string :=
  match changes with
  | [] => []
  | change :: rest =>
      if Gemini.inRange change lines then
        if Gemini.matches change lines
        then warnings rest (<[Z.to_nat (change_line change - 1) := newCode change]> lines)
        else Gemini.mismatchWarning change :: warnings rest lines
      else warnings rest lines
  end.

(** No change of the list finds its line, in range and matching. *)
Definition noneApplies (changes : list Change) (lines : list string) : Prop :=
  Forall (fun change =>
            Gemini.inRange change lines && Gemini.matches change lines = false)
         changes.

(** The sentence "on mismatch that single replacement is skipped", with the
    mismatch read as written: the trimmed line differs from the proposed old
    text. *)
Definition skipsOnMismatch (lines : list string) (change : Change) : Prop :=
  forall l,
    Gemini.inRange change lines = true ->
    lines !! Z.to_nat (change_line change - 1) = Some l ->
    Js.trim l <> oldCode change ->
    Gemini.applyChange lines change = lines.

(** Reading, or writing, the file at a path throws. *)
Definition readThrows (path : string) (w : World) : Prop :=
  exists e, (Gemini.readFile path w).1 = Throw e.

Definition writeThrows (path : string) (w : World) : Prop :=
  forall content, exists e, (Gemini.writeFile path content w).1 = Throw e.

(** The file trouble of the sentence on [false]: the target file does not
    exist, or reading or writing it throws. *)
Definition fileTrouble (path : string) (w : World) : Prop :=
  fs w !! path = None \/ readThrows path w \/ writeThrows path w.

(** The sentence "[applyFix] returns [false] only when the target file does
    not exist or reading or writing it throws", for one call. *)
Definition falseOnlyFromFile (fixRef : nat) (w : World) : Prop :=
  forall codeFix name w',
    fixes w !! fixRef = Some codeFix ->
    parsed_file codeFix = Some name ->
    Gemini.applyFix fixRef w = (Ok false, w') ->
    fileTrouble (resolve w name) w.

(** A change the loop does not get past on these lines: its line number is
    in range and is not an integer or its old text is missing. *)
Definition breaks (lines : list string) (change : ParsedChange) : bool :=
  Gemini.indexInRange (parsed_line change - 1) lines &&
  (negb (Js.isInteger (parsed_line change)) ||
   match parsed_oldCode change with Some _ => false | None => true end).

(** The record stops [applyFix] on a file with these lines: it has no
    changes, or one of them breaks. *)
Definition recordTrouble (codeFix : ParsedFix) (lines : list string) : Prop :=
  match parsed_changes codeFix with
  | Some changes => Exists (fun change => breaks lines change = true) changes
  | None => True
  end.

(** All that makes [applyFix] return [false] for a record: no file name,
    file trouble, or a file that is fine and record trouble. *)
Definition troubled (codeFix : ParsedFix) (w : World) : Prop :=
  match parsed_file codeFix with
  | Some name =>
      fileTrouble (resolve w name) w \/
      exists content,
        fs w !! resolve w name = Some (RegularFile content true true) /\
        recordTrouble codeFix (Js.split_lines content)
  | None => True
  end.

(** The number of verification passes between two worlds: each pass makes
    exactly one collection object and nothing else makes any. *)
Definition attempts (w w' : World) : Z :=
  Z.of_nat (length (heap w')) - Z.of_nat (length (heap w)).

(** The bound of the loop: [args.maxIterations || config.test.maxRetryAttempts]. *)
Definition configuredMaximum (args : Server.FixAndRetestArgs) (w : World) : Z :=
  Js.num_or (Server.maxIterations args) (test_maxRetryAttempts (config w)).

(** The sentence on the iteration bound, for one call of the tool. *)
Definition boundedIterations (args : Server.FixAndRetestArgs) (w : World) : Prop :=
  forall report w',
    Server.handleFixAndRetest args w = (Ok report, w') ->
    attempts w w' <= configuredMaximum args w /\
    1 <= Server.iterations report <= configuredMaximum args w.

(** [m] neither makes nor changes a collection object, whatever it returns. *)
Definition keeps_heap {A} (m : M A) : Prop := forall w, heap (m w).2 = heap w.

(** The world after some lines were written to the console. *)
Definition logged (ws : list string) (w : World) : World :=
  set_console (console_out w ++ ws) w.

(** The number of errors of a type, as the summary should report it. *)
Definition count (t : ErrorType) (errors : list BrowserError) : Z :=
  Z.of_nat (length (List.filter (Detector.has_type t) errors)).

(** The count an accumulator holds for a type, [0] when it has no entry. *)
Fixpoint get (t : ErrorType) (acc : list (ErrorType * Z)) : Z :=
  match acc with
  | [] => 0
  | (t', n) :: rest => if decide (t = t') then n else get t rest
  end.

(** Keys are distinct and every count is positive. *)
Definition tidy (acc : list (ErrorType * Z)) : Prop :=
  NoDup acc.*1 /\ Forall (fun entry => 0 < entry.2) acc.



End Notions.

(** ** Further notions: sessions and frames *)

From Stdlib Require Import Sorted.

Module Session.

Import Controller.

(** The active client has a session: the protocol client is connected, or
    the automation client has its page. *)
Definition live (b : BrowserControllerImpl) : bool :=
  match useCDP b, cdpClient b with
  | true, Some c => CDP.client c
  | _, _ =>
      match playwrightClient b with
      | Some p => Playwright.page p
      | None => false
      end
  end.

(** The controller has no client at all (new, or initialisation failed). *)
Definition clientless (b : BrowserControllerImpl) : bool :=
  match cdpClient b, playwrightClient b with
  | None, None => true
  | _, _ => false
  end.

(** Exactly one client, the one [useCDP] points at. *)
Definition oneClient (b : BrowserControllerImpl) : Prop :=
  (useCDP b = true /\ is_Some (cdpClient b) /\ playwrightClient b = None) \/
  (useCDP b = false /\ cdpClient b = None /\ is_Some (playwrightClient b)).

(** The three messages of a controller that cannot navigate or evaluate. *)
Definition notReady (e : Exn) : Prop :=
  e = JsError "CDP client not connected" \/
  e = JsError "Playwright page not initialized" \/
  e = JsError "Browser not initialized".

(** [m] leaves the part [f] of the world as it was, whatever it returns. *)
Definition keeps {A B} (f : World -> B) (m : M A) : Prop :=
  forall w, f (m w).2 = f w.

(** A part of the world that no suspension and no update of the controller,
    the console, the collections or the fix records touches. *)
Class Quiet {B} (f : World -> B) : Prop := {
  quiet_suspend : forall r w, f (suspend r w).2 = f w;
  quiet_browser : forall b w, f (set_browser b w) = f w;
  quiet_console : forall c w, f (set_console c w) = f w;
  quiet_heap : forall h w, f (set_heap h w) = f w;
  quiet_fixes : forall h w, f (set_fixes h w) = f w;
}.


(** What the probe contributes to [detectAllErrors]: the array it returned
    (empty for a falsy result or a failed evaluation), or nothing that can
    be spread. *)
Definition probeResult (rep : Reply) : option (list BrowserError) :=
  match outcome rep with
  | Ok v => match Detector.or_empty v with VErrors l => Some l | _ => None end
  | Throw _ => Some []
  end.

(** The types of a sequence in order of first occurrence. *)
Fixpoint firsts (l : list ErrorType) : list ErrorType :=
  match l with
  | [] => []
  | t :: l' => t :: List.filter (fun u => negb (bool_decide (u = t))) (firsts l')
  end.

(** The sum of the counts of an accumulator. *)
Definition total (acc : list (ErrorType * Z)) : Z :=
  foldr (fun entry s => entry.2 + s) 0 acc.

(** A type that is not among the given keys. *)
Definition fresh_in (keys : list ErrorType) (u : ErrorType) : bool :=
  negb (bool_decide (u ∈ keys)).

(** The automation client has an open page: what [getPage] looks at. *)
Definition pageOpen (w : World) : bool :=
  match browser w with
  | Some b =>
      match playwrightClient b with
      | Some p => Playwright.page p
      | None => false
      end
  | None => false
  end.

(** A session whose scripts can be evaluated and whose page is open. *)
Definition interactive (w : World) : bool :=
  match browser w with
  | Some b =>
      live b && match playwrightClient b with
                | Some p => Playwright.page p
                | None => false
                end
  | None => false
  end.

(** The message of a rule that finds no page. *)
Definition pageMissing (w : World) : string :=
  match browser w with
  | Some _ => "Page not available for interaction"
  | None => "Cannot read properties of null"
  end.

End Session.

(** ** Further notions: fixes, files and paths *)

Module Remedy.

Import Gemini Cursor.

(** A change proposed for line [n]. *)
Definition hasLine (n : Z) (c : Change) : bool := change_line c =? n.

(** The order [applyFix] visits the changes in: larger line numbers first. *)
Definition descending (a b : Change) : Prop := change_line b <= change_line a.

(** The part of [applyFix] that runs once the file was found. *)
Definition applyFound (fixRef : nat) (codeFix : ParsedFix) (filePath : string)
  : M bool :=
  content ← readFile filePath;
  let lines := Js.split_lines content in
  changes ← defined (parsed_changes codeFix);
  _ ← update_fix fixRef sortedFix;
  lines' ← applyChanges (sort_parsed changes) lines;
  _ ← writeFile filePath (Js.join_lines lines');
  mret true.

(** The record [generateFix] returns for an answer of the model:
    [if (filePath) { fix.file = filePath; }]. *)
Definition retargeted (filePath : option string) (answer : ParsedFix) : ParsedFix :=
  {| parsed_file := match filePath with
                    | Some (String c s) => Some (String c s)
                    | _ => parsed_file answer
                    end;
     parsed_changes := parsed_changes answer;
     parsed_explanation := parsed_explanation answer |}.

(** A text [.+] can match to its end: no line terminator in it. *)
Fixpoint singleLine (s : string) : bool :=
  match s with
  | EmptyString => true
  | String c s' => negb (is_terminator c) && singleLine s'
  end.

Definition colon : ascii := ":"%char.

(** A text that [split('\n')] leaves in one piece: no line feed in it. *)
Fixpoint noLineFeed (s : string) : bool :=
  match s with
  | EmptyString => true
  | String c s' => negb (Ascii.eqb c Js.LF) && noLineFeed s'
  end.

End Remedy.

(** ** TestRunner.testFeatureWithRetry (test/runner.ts) *)

Module Retry.

Import Runner.

(** The [for] loop from turn [i] on, with [lastResult] as it stands. *)
Equations? retryLoop (feature : FeatureTest) (attempts i : Z)
    (lastResult : option TestResult) (w : World) : Res (option TestResult) * World
    by wf (Z.to_nat (attempts - i)) lt :=
  retryLoop feature attempts i lastResult w with Z_lt_dec i attempts := {
    | right _ => (Ok lastResult, w)
    | left _ with testFeature feature w := {
      | (Throw e, w1) => (Throw e, w1)
      | (Ok result, w1) with success result := {
        | true => (Ok (Some result), w1)
        | false =>
            retryLoop feature attempts (i + 1) (Some result)
              (if Z_lt_dec i (attempts - 1) then snd (sleep 1000 w1) else w1) } } }.
Proof. all: lia. Qed.

(** [maxAttempts || this.config.test.maxRetryAttempts] *)
Definition attemptsOf (maxAttempts : option Z) (w : World) : Z :=
  Js.num_or maxAttempts (test_maxRetryAttempts (config w)).

(** [testFeatureWithRetry]; [lastResult!] is still [null] when the loop
    body never ran. *)
Definition testFeatureWithRetry (feature : FeatureTest) (maxAttempts : option Z)
  : M (option TestResult) :=
  attempts ← gets (attemptsOf maxAttempts);
  retryLoop feature attempts 0 None.

End Retry.

(** ** The suite tool of the server *)

Module Suite.

Import Runner Server.

(** The three kinds of object pushed on [results]; [lastErrors] is a
    reference to the collection of the failed pass. *)
Inductive SuiteEntry :=
| SuitePassed (feature : string) (iterations : Z)
| SuiteFixFailed (feature : string) (iterations : Z) (error : option string)
    (lastErrors : nat)
| SuiteExhausted (feature : string) (iterations : Z).

(** The [success] field of an entry. *)
Definition entry_success (entry : SuiteEntry) : bool :=
  match entry with
  | SuitePassed _ _ => true
  | _ => false
  end.

Record SuiteArgs := {
  features : list FeatureTest;
  suite_maxIterations : option Z;
}.

Record SuiteReport := {
  totalFeatures : nat;
  results : list SuiteEntry;
  allPassed : bool;
}.

(** The [while (iteration < maxIterations)] loop for one feature; it ends
    with the values of [iteration], [success] and [results]. *)
Equations? suiteLoop (feature : FeatureTest) (maxIterations iteration : Z)
    (results : list SuiteEntry) (w : World)
    : Res (Z * bool * list SuiteEntry) * World
    by wf (Z.to_nat (maxIterations - iteration)) lt :=
  suiteLoop feature maxIterations iteration results w
    with Z_lt_dec iteration maxIterations := {
    | right _ => (Ok (iteration, false, results), w)
    | left _ with testFeature (withDefaultUrl feature w) w := {
      | (Throw e, w1) => (Throw e, w1)
      | (Ok result, w1) with Runner.success result := {
        | true =>
            (Ok (iteration + 1, true,
                 results ++ [SuitePassed (name feature) (iteration + 1)]), w1)
        | false with Cursor.fixError (Runner.errors result) w1 := {
          | (Throw e, w2) => (Throw e, w2)
          | (Ok fixResult, w2) with Cursor.success fixResult := {
            | false =>
                (Ok (iteration + 1, false,
                     results ++ [SuiteFixFailed (name feature) (iteration + 1)
                                   (Cursor.error fixResult) (Runner.errors result)]),
                 w2)
            | true =>
                suiteLoop feature maxIterations (iteration + 1) results
                  (snd (sleep 2000 w2)) } } } } }.
Proof. all: lia. Qed.

(** The body of [for (const feature of args.features)]: the loop, then the
    entry pushed when [!success && iteration >= maxIterations]. *)
Definition suiteFeature (args : SuiteArgs) (results : list SuiteEntry)
    (feature : FeatureTest) : M (list SuiteEntry) :=
  config ← gets config;
  let maxIterations :=
    Js.num_or (suite_maxIterations args) (test_maxRetryAttempts config) in
  '(iteration, success, results) ← suiteLoop feature maxIterations 0 results;
  if negb success && (maxIterations <=? iteration)
  then mret (results ++ [SuiteExhausted (name feature) maxIterations])
  else mret results.

Fixpoint suiteFeatures (args : SuiteArgs) (todo : list FeatureTest)
    (results : list SuiteEntry) : M (list SuiteEntry) :=
  match todo with
  | [] => mret results
  | feature :: rest =>
      results ← suiteFeature args results feature;
      suiteFeatures args rest results
  end.

Definition handleRunFeatureSuite (args : SuiteArgs) : M SuiteReport :=
  _ ← ensureBrowser;
  _ ← request EnsureServerRunning;
  results ← suiteFeatures args (features args) [];
  mret {| totalFeatures := length (features args);
          results := results;
          allPassed := forallb entry_success results |}.

(** The bound in force for a call of the suite tool. *)
Definition suiteMaximum (args : SuiteArgs) (w : World) : Z :=
  Js.num_or (suite_maxIterations args) (test_maxRetryAttempts (config w)).

(** The entries one feature can leave on [results]. *)
Inductive featureEntries (maxIterations : Z) (feature : FeatureTest)
  : list SuiteEntry -> Prop :=
| entries_passed k :
    1 <= k <= maxIterations ->
    featureEntries maxIterations feature [SuitePassed (name feature) k]
| entries_fix_failed k error lastErrors :
    1 <= k < maxIterations ->
    featureEntries maxIterations feature
      [SuiteFixFailed (name feature) k error lastErrors]
| entries_fix_failed_last error lastErrors :
    1 <= maxIterations ->
    featureEntries maxIterations feature
      [SuiteFixFailed (name feature) maxIterations error lastErrors;
       SuiteExhausted (name feature) maxIterations]
| entries_exhausted :
    featureEntries maxIterations feature
      [SuiteExhausted (name feature) maxIterations].

End Suite.

(** ** The capture tool of the server *)

Module Capture.

Import Runner Server.

(** The feature [handleCaptureErrors] tests. *)
Definition captureFeature (url : option string) (w : World) : FeatureTest :=
  {| name := "error-capture";
     url := Some (Js.or_else url (devServer_url (config w)));
     uiRules := None; waitTime := None |}.

(** [handleCaptureErrors]: the answer is the text of [errors.errors], the
    collection of the pass. *)
Definition handleCaptureErrors (url : option string) : M nat :=
  _ ← ensureBrowser;
  _ ← request EnsureServerRunning;
  _ ← match url with
      | Some (String c s) => Browser.navigate (String c s)
      | _ => mret tt
      end;
  feature ← gets (captureFeature url);
  result ← testFeature feature;
  mret (Runner.errors result).

(** The requests of a capture at [url], newest first, after those made
    before: the server check and the two loads. *)
Definition loadedOnce (url : string) (w : World) : list Request :=
  Navigate url :: EnsureServerRunning :: trace w.

Definition loadedTwice (url : string) (w : World) : list Request :=
  Navigate url :: loadedOnce url w.

End Capture.

(** ** ErrorDetector.waitForErrors (error/detector.ts) *)

Module Waiting.

Import Detector.

(** The collection [waitForErrors] starts from. *)
Definition noErrors : ErrorCollection :=
  {| errors := []; hasErrors := false; summary := "No errors" |}.

(** The [while] loop of [waitForErrors], for at most [fuel] turns; [None]
    when the turns are used up. *)
Fixpoint waitLoop (fuel : nat) (startTime timeout : Z) (lastCollection : nat)
  : M (option nat) :=
  match fuel with
  | O => mret None
  | S fuel' =>
      t ← now;
      if t - startTime <? timeout then
        collection ← detectAllErrors;
        c ← read collection;
        if hasErrors c then
          _ ← sleep 500;
          waitLoop fuel' startTime timeout collection
        else mret (Some lastCollection)
      else mret (Some lastCollection)
  end.

(** [waitForErrors(timeout = 5000)] *)
Definition waitForErrors (fuel : nat) (timeout : option Z) : M (option nat) :=
  startTime ← now;
  lastCollection ← alloc noErrors;
  waitLoop fuel startTime (default 5000 timeout) lastCollection.

(** Every pause of the loop takes some time. *)
Definition pausesTakeTime (w : World) : Prop :=
  forall t, 1 <= elapsed (env w (Sleep 500 :: t)).

(** [m] does not turn the clock back. *)
Definition onward {A} (m : M A) : Prop := forall w, clock w <= clock (m w).2.

End Waiting.

(** ** Further situations *)

Module Cases.

Import Controller.

(** No browser can be reached or started. *)
Definition noBrowser : list Request -> Reply := fun t =>
  {| outcome := match t with
                | ConnectCDP :: _ => Throw (JsError "connect ECONNREFUSED 127.0.0.1:9222")
                | LaunchPlaywright _ :: _ => Throw (JsError "Executable doesn't exist")
                | _ => Ok VUndefined
                end;
     arrivals := []; elapsed := 0 |}.

(** A server that has not made its controller yet. *)
Definition unstarted (e : list Request -> Reply) : World := Scenario.world e None ∅.

(** The project of the specification's example with its fix record. *)
Definition exampleProject : World := Scenario.project Scenario.tenLines Scenario.nullToObject.

(** An outside where pauses last as long as asked and the probe finds
    nothing. *)
Definition ticking : list Request -> Reply := fun t =>
  {| outcome := match t with
                | Evaluate _ :: _ => Ok (VErrors [])
                | _ => Ok VUndefined
                end;
     arrivals := [];
     elapsed := match t with Sleep ms :: _ => ms | _ => 0 end |}.

(** A protocol session with one uncaught exception in the buffer. *)
Definition patient : World :=
  Scenario.world ticking (Some (Scenario.cdpWith [Scenario.uncaught])) ∅.

(** The suite of one feature, with one turn allowed. *)
Definition loginOnce : Suite.SuiteArgs :=
  {| Suite.features := [Scenario.login]; Suite.suite_maxIterations := Some 1 |}.

End Cases.

(** * Properties *)

(** ** Strings *)

Module JsFacts.

Import Js.

Lemma split_lines_nonempty s : split_lines s <> [].
Proof.
  destruct s as [|c s]; simpl; [discriminate|].
  destruct (Ascii.eqb c LF); [discriminate|].
  destruct (split_lines s); discriminate.
Qed.

Lemma join_lines_cons l ls :
  ls <> [] -> join_lines (l :: ls) = l +:+ nl +:+ join_lines ls.
Proof. destruct ls; [congruence | reflexivity]. Qed.

(** Splitting on line feeds and joining again gives the text back. *)
Lemma join_split s : join_lines (split_lines s) = s.
Proof.
  induction s as [|c s IH]; [reflexivity|].
  simpl. destruct (Ascii.eqb_spec c LF) as [->|Hc].
  - rewrite join_lines_cons by apply split_lines_nonempty.
    rewrite IH. reflexivity.
  - pose proof (split_lines_nonempty s) as Hne.
    destruct (split_lines s) as [|l ls]; [congruence|].
    rewrite <- IH. destruct ls as [|l' ls]; reflexivity.
Qed.

Lemma trimEnd_idem s : trimEnd (trimEnd s) = trimEnd s.
Proof.
  induction s as [|c s IH]; [reflexivity|].
  simpl. destruct (trimEnd s) as [|d t] eqn:E.
  - destruct (is_space c) eqn:Hc; simpl; [reflexivity|]. rewrite Hc. reflexivity.
  - change (trimEnd (String c (String d t))) with
      (match trimEnd (String d t) with
       | EmptyString => if is_space c then EmptyString else String c EmptyString
       | u => String c u
       end).
    rewrite IH. reflexivity.
Qed.

Lemma trimStart_trimEnd_head c s :
  is_space c = false -> trimStart (trimEnd (String c s)) = trimEnd (String c s).
Proof.
  intros Hc. simpl. destruct (trimEnd s); [rewrite Hc|]; simpl; rewrite Hc; reflexivity.
Qed.

(** Trimming twice is trimming once. *)
Lemma trim_idem s : trim (trim s) = trim s.
Proof.
  unfold trim. induction s as [|c s IH]; [reflexivity|].
  simpl. destruct (is_space c) eqn:Hc; [exact IH|].
  rewrite trimStart_trimEnd_head by assumption. apply trimEnd_idem.
Qed.

Example show_examples :
  show 0 = "0" /\ show 120 = "120" /\ show (-5) = "-5".
Proof. repeat split; reflexivity. Qed.

Example trim_example : trim "  const x = null;  " = "const x = null;".
Proof. reflexivity. Qed.

Example split_lines_example :
  split_lines ("a" +:+ nl +:+ nl +:+ "b") = ["a"; ""; "b"] /\ split_lines "" = [""].
Proof. split; reflexivity. Qed.

Example pathPart_examples :
  Cursor.pathPart "src/App.tsx:10" = Some "src/App.tsx" /\
  Cursor.pathPart "a.js:10:5" = Some "a.js:10" /\
  Cursor.pathPart "src/App.tsx" = Some "src/App.tsx".
Proof. repeat split; reflexivity. Qed.

(** The sort keeps the order of changes to the same line. *)
Example sort_desc_stable :
  Gemini.sort_desc
    [ {| change_line := 2; oldCode := "a"; newCode := "1" |};
      {| change_line := 7; oldCode := "b"; newCode := "2" |};
      {| change_line := 2; oldCode := "c"; newCode := "3" |} ]
  = [ {| change_line := 7; oldCode := "b"; newCode := "2" |};
      {| change_line := 2; oldCode := "a"; newCode := "1" |};
      {| change_line := 2; oldCode := "c"; newCode := "3" |} ].
Proof. reflexivity. Qed.

End JsFacts.

(** ** Reasoning in the monad *)

Module MFacts.

Lemma bind_ok {A B} (m : M A) (f : A -> M B) w a w' :
  m w = (Ok a, w') -> (m ≫= f) w = f a w'.
Proof. intros H. unfold mbind, M_bind. rewrite H. reflexivity. Qed.

Lemma bind_throw {A B} (m : M A) (f : A -> M B) w e w' :
  m w = (Throw e, w') -> (m ≫= f) w = (Throw e, w').
Proof. intros H. unfold mbind, M_bind. rewrite H. reflexivity. Qed.

Lemma bind_inv {A B} (m : M A) (f : A -> M B) w b w2 :
  (m ≫= f) w = (Ok b, w2) ->
  exists a w1, m w = (Ok a, w1) /\ f a w1 = (Ok b, w2).
Proof.
  unfold mbind, M_bind. destruct (m w) as [[a|e] w1]; intros H.
  - eauto.
  - discriminate.
Qed.

Lemma try_ok {A} (m : M A) h w a w' :
  m w = (Ok a, w') -> try_catch m h w = (Ok a, w').
Proof. intros H. unfold try_catch. rewrite H. reflexivity. Qed.

Lemma try_throw {A} (m : M A) h w e w' :
  m w = (Throw e, w') -> try_catch m h w = h e w'.
Proof. intros H. unfold try_catch. rewrite H. reflexivity. Qed.

(** A [try] whose body, when it returns, and whose handler, always, give a
    value satisfying [P] returns such a value. *)
Lemma try_returns {A} (m : M A) h (P : A -> Prop) :
  (forall w a w', m w = (Ok a, w') -> P a) ->
  (forall e w, exists a w', h e w = (Ok a, w') /\ P a) ->
  forall w, exists a w', try_catch m h w = (Ok a, w') /\ P a.
Proof.
  intros Hm Hh w. unfold try_catch.
  destruct (m w) as [[a|e] w1] eqn:E; [eauto | apply Hh].
Qed.

Lemma bind_throw_inv {A B} (m : M A) (f : A -> M B) w e w2 :
  (m ≫= f) w = (Throw e, w2) ->
  m w = (Throw e, w2) \/ exists a w1, m w = (Ok a, w1) /\ f a w1 = (Throw e, w2).
Proof.
  unfold mbind, M_bind. destruct (m w) as [[a|e'] w1]; intros H.
  - right. eauto.
  - left. injection H as -> ->. reflexivity.
Qed.

End MFacts.

(** ** Draining the error buffer *)

Module BufferFacts.




End BufferFacts.

(** ** The summary of a collection *)

Module SummaryFacts.

Import Detector Notions.

Lemma get_bump_eq t acc : get t (bump t acc) = get t acc + 1.
Proof.
  induction acc as [|[t' n] acc IH]; cbn [get bump].
  - case_decide; [reflexivity | congruence].
  - case_decide; cbn [get]; case_decide; try congruence; auto.
Qed.

Lemma get_bump_ne t u acc : t <> u -> get u (bump t acc) = get u acc.
Proof.
  intros Hne. induction acc as [|[t' n] acc IH]; cbn [get bump].
  - case_decide; [congruence | reflexivity].
  - repeat (case_decide; cbn [get]); try congruence; auto.
Qed.

Lemma bump_keys t acc :
  (bump t acc).*1 = if decide (t ∈ acc.*1) then acc.*1 else acc.*1 ++ [t].
Proof.
  induction acc as [|[t' n] acc IH]; cbn [bump fmap list_fmap fst].
  - case_decide as Hin; [inversion Hin | reflexivity].
  - destruct (decide (t = t')) as [->|Hne]; cbn [fmap list_fmap fst].
    + rewrite decide_True by left. reflexivity.
    + rewrite IH. destruct (decide (t ∈ acc.*1)) as [Hin|Hout].
      * rewrite decide_True by (right; exact Hin). reflexivity.
      * rewrite decide_False; [reflexivity|].
        intros [Heq|Hin]%elem_of_cons; [congruence | contradiction].
Qed.

Lemma bump_positive t acc :
  Forall (fun entry => 0 < entry.2) acc ->
  Forall (fun entry => 0 < entry.2) (bump t acc).
Proof.
  induction 1 as [|[t' n] acc Hn Hacc IH]; cbn [bump].
  - constructor; [simpl; lia | constructor].
  - case_decide; constructor; simpl in *; auto; lia.
Qed.

Lemma bump_tidy t acc : tidy acc -> tidy (bump t acc).
Proof.
  intros [Hnd Hpos]. split; [|apply bump_positive; exact Hpos].
  rewrite bump_keys. destruct (decide (t ∈ acc.*1)) as [Hin|Hout]; [exact Hnd|].
  apply NoDup_app. split; [exact Hnd|]. split.
  - intros x Hx ->%list_elem_of_singleton. contradiction.
  - apply NoDup_singleton.
Qed.

Lemma tidy_elem t n acc :
  tidy acc -> ((t, n) ∈ acc <-> get t acc = n /\ 0 < n).
Proof.
  intros [Hnd Hpos]. induction acc as [|[t' m] acc IH]; simpl.
  - split; [intros H; inversion H | lia].
  - simpl in Hnd. apply NoDup_cons in Hnd as [Hout Hnd].
    apply Forall_cons in Hpos as [Hm Hpos]. simpl in Hm.
    specialize (IH Hnd Hpos). rewrite elem_of_cons.
    destruct (decide (t = t')) as [->|Hne].
    + split.
      * intros [Heq|Hin]; [injection Heq as ->; auto|].
        exfalso. apply Hout. apply list_elem_of_fmap. exists (t', n). auto.
      * intros [-> _]. left. reflexivity.
    + rewrite <- IH. split; [intros [Heq|Hin]; [congruence | exact Hin] | auto].
Qed.

Lemma fold_bump_tidy errors acc :
  tidy acc -> tidy (fold_left (fun acc error => bump (type error) acc) errors acc).
Proof.
  revert acc. induction errors as [|e errors IH]; intros acc Hacc; simpl; [exact Hacc|].
  apply IH, bump_tidy, Hacc.
Qed.

Lemma fold_bump_get t errors acc :
  get t (fold_left (fun acc error => bump (type error) acc) errors acc)
  = get t acc + count t errors.
Proof.
  revert acc. induction errors as [|e errors IH]; intros acc; simpl.
  - unfold count. simpl. lia.
  - rewrite IH. unfold count. simpl. unfold has_type at 2.
    destruct (decide (type e = t)) as [<-|Hne].
    + rewrite bool_decide_eq_true_2 by reflexivity. rewrite get_bump_eq.
      simpl length. lia.
    + rewrite bool_decide_eq_false_2 by assumption.
      rewrite get_bump_ne by assumption. reflexivity.
Qed.

(** [byType] has one entry for each type that occurs, with its count. *)
Lemma byType_spec errors :
  NoDup (byType errors).*1 /\
  forall t n, (t, n) ∈ byType errors <-> n = count t errors /\ 0 < n.
Proof.
  assert (Ht : tidy (byType errors)).
  { apply fold_bump_tidy. split; constructor. }
  split; [apply Ht|]. intros t n. rewrite (tidy_elem t n _ Ht).
  unfold byType. rewrite fold_bump_get. simpl. split; intros [H1 H2]; split; lia.
Qed.

(** The collection [detectAllErrors] returns is the last object it made. *)
Lemma detectAllErrors_alloc w r w' :
  detectAllErrors w = (Ok r, w') ->
  exists all w1,
    r = length (heap w1) /\
    w' = set_heap (heap w1 ++ [ {| errors := all;
                                   hasErrors := 0 <? Z.of_nat (length all);
                                   summary := generateSummary all |} ]) w1.
Proof.
  unfold detectAllErrors. intros H.
  apply MFacts.bind_inv in H as (cs & w1 & _ & H).
  apply MFacts.bind_inv in H as (ns & w2 & _ & H).
  apply MFacts.bind_inv in H as (rs & w3 & _ & H).
  apply MFacts.bind_inv in H as (us & w4 & _ & H).
  apply MFacts.bind_inv in H as (rl & w5 & _ & H).
  unfold alloc in H. injection H as <- <-. eauto.
Qed.

(** C8: in the collection [detectAllErrors] builds, [hasErrors] holds exactly
    when there is an error. The summary is "No errors detected" when there
    is none; otherwise it is "Found N error(s): " followed by the parts,
    joined by ", ", of the types that occur: the part of a type is its
    number of errors, a space, the name of the type and " error", with an
    "s" when the number is above one. There is one part per error type that
    occurs, with the number of errors of that type, and no part for a type
    that does not occur. *)
Theorem detectAllErrors_summary w r w' :
  detectAllErrors w = (Ok r, w') ->
  exists c,
    deref r w' = Some c /\
    (hasErrors c = true <-> errors c <> []) /\
    summary c =
      (if bool_decide (errors c = []) then "No errors detected"
       else "Found " +:+ Js.show (Z.of_nat (length (errors c))) +:+ " error(s): " +:+
            Js.join ", "
              ((fun '(t, n) =>
                  Js.show n +:+ " " +:+
                  match t with
                  | console => "console"
                  | network => "network"
                  | react => "react"
                  | ui => "ui"
                  end +:+ " error" +:+ (if 1 <? n then "s" else ""))
               <$> byType (errors c))) /\
    NoDup (byType (errors c)).*1 /\
    (forall t n, (t, n) ∈ byType (errors c) <-> n = count t (errors c) /\ 0 < n).
Proof.
  intros H. apply detectAllErrors_alloc in H as (all & w1 & -> & ->).
  eexists. split.
  { unfold deref. simpl. apply list_lookup_middle. reflexivity. }
  simpl. split; [|split; [|apply byType_spec]].
  - destruct all; simpl; split; try discriminate; try congruence; reflexivity.
  - unfold generateSummary. destruct all as [|e all]; [reflexivity|].
    case_bool_decide; [discriminate|].
    destruct (Z.eqb_spec (Z.of_nat (length (e :: all))) 0) as [Hlen|_];
      [cbn [length] in Hlen; lia|].
    reflexivity.
Qed.

End SummaryFacts.

Module SummaryExamples.

Import Detector.

Lemma detectAllErrors_summary_witness :
  detectAllErrors Scenario.twoBuffered
    = (Ok 0%nat, (detectAllErrors Scenario.twoBuffered).2) /\
  exists c,
    deref 0 (detectAllErrors Scenario.twoBuffered).2 = Some c /\
    (hasErrors c = true <-> errors c <> []) /\
    summary c =
      (if bool_decide (errors c = []) then "No errors detected"
       else "Found " +:+ Js.show (Z.of_nat (length (errors c))) +:+ " error(s): " +:+
            Js.join ", "
              ((fun '(t, n) =>
                  Js.show n +:+ " " +:+
                  match t with
                  | console => "console"
                  | network => "network"
                  | react => "react"
                  | ui => "ui"
                  end +:+ " error" +:+ (if 1 <? n then "s" else ""))
               <$> byType (errors c))) /\
    NoDup (byType (errors c)).*1 /\
    (forall t n, (t, n) ∈ byType (errors c)
                 <-> n = Notions.count t (errors c) /\ 0 < n).
Proof.
  split; [reflexivity|].
  apply (SummaryFacts.detectAllErrors_summary Scenario.twoBuffered 0).
  reflexivity.
Defined.

Example generateSummary_mixed :
  generateSummary [Scenario.uncaught; Scenario.notFound; Scenario.uncaught]
  = "Found 3 error(s): 2 console errors, 1 network error".
Proof. reflexivity. Qed.

End SummaryExamples.

(** ** What [detectAllErrors] keeps of the buffer *)

Module DetectFacts.

Import Detector.

(** A drain that follows a drain finds nothing. *)
Lemma capture_again_empty b : (Browser.capture (Browser.capture b).2).1 = [].
Proof.
  destruct b as [[[cl ces]|] [[pg pes]|] []]; try reflexivity;
    destruct pg; reflexivity.
Qed.

(** The network step of [detectAllErrors] runs right after the console step
    has emptied the buffer, so it never reports anything. *)
Lemma detectNetworkErrors_after_console w cs w1 :
  detectConsoleErrors w = (Ok cs, w1) ->
  exists w2, detectNetworkErrors w1 = (Ok [], w2).
Proof.
  unfold detectConsoleErrors, detectNetworkErrors, Browser.captureErrors,
    Browser.the_browser, Browser.put_browser, modify, mbind, M_bind, mret, M_ret.
  destruct (browser w) as [b|] eqn:Hb; [|discriminate].
  pose proof (capture_again_empty b) as Hagain.
  destruct (Browser.capture b) as [es b1]. simpl in *.
  intros H. injection H as <- <-. simpl.
  destruct (Browser.capture b1) as [es2 b2]. simpl in *. subst es2.
  eexists. reflexivity.
Qed.

(** C2 fails on the code: a failed request waiting in the buffer when
    [detectAllErrors] is called is drained by the console step, filtered out
    there, and is in no category of the collection returned. *)
Theorem detectAllErrors_loses_network_error :
  (browser Scenario.oneFailedRequest ≫= fun b => Some (Browser.buffered b))
    = Some [Scenario.notFound] /\
  (detectAllErrors Scenario.oneFailedRequest).1 = Ok 0%nat /\
  heap (detectAllErrors Scenario.oneFailedRequest).2
    = [ {| errors := []; hasErrors := false; summary := "No errors detected" |} ] /\
  (browser (detectAllErrors Scenario.oneFailedRequest).2
     ≫= fun b => Some (Browser.buffered b)) = Some [].
Proof. repeat split; reflexivity. Qed.

End DetectFacts.

(** ** Code that leaves the collection objects alone *)

Module HeapFacts.

Import Notions.

Lemma keeps_ret {A} (a : A) : keeps_heap (mret a).
Proof. intros w. reflexivity. Qed.

Lemma keeps_throw {A} e : keeps_heap (@throw A e).
Proof. intros w. reflexivity. Qed.

Lemma keeps_bind {A B} (m : M A) (f : A -> M B) :
  keeps_heap m -> (forall a, keeps_heap (f a)) -> keeps_heap (m ≫= f).
Proof.
  intros Hm Hf w. unfold mbind, M_bind. specialize (Hm w).
  destruct (m w) as [[a|e] w1]; simpl in *; [|exact Hm].
  rewrite Hf. exact Hm.
Qed.

Lemma keeps_try {A} (m : M A) h :
  keeps_heap m -> (forall e, keeps_heap (h e)) -> keeps_heap (try_catch m h).
Proof.
  intros Hm Hh w. unfold try_catch. specialize (Hm w).
  destruct (m w) as [[a|e] w1]; simpl in *; [exact Hm|].
  rewrite Hh. exact Hm.
Qed.

Lemma keeps_gets {A} (f : World -> A) : keeps_heap (gets f).
Proof. intros w. reflexivity. Qed.

Lemma keeps_now : keeps_heap now.
Proof. intros w. reflexivity. Qed.

Lemma keeps_request r : keeps_heap (request r).
Proof. intros w. reflexivity. Qed.

Lemma keeps_sleep ms : keeps_heap (sleep ms).
Proof. intros w. reflexivity. Qed.

Lemma keeps_console s : keeps_heap (console_write s).
Proof. intros w. reflexivity. Qed.

Lemma keeps_the_browser : keeps_heap Browser.the_browser.
Proof. intros w. unfold Browser.the_browser. destruct (browser w); reflexivity. Qed.

Lemma keeps_put_browser b : keeps_heap (Browser.put_browser b).
Proof. intros w. reflexivity. Qed.

Create HintDb heap.
#[export] Hint Resolve keeps_ret keeps_throw keeps_gets keeps_now keeps_request
  keeps_sleep keeps_console keeps_the_browser keeps_put_browser : heap.

(** Break a composite computation into its steps. *)
Ltac keeps :=
  repeat first
    [ progress intros
    | apply keeps_bind
    | apply keeps_try
    | solve [auto with heap]
    | match goal with
      | |- keeps_heap (match ?x with _ => _ end) => destruct x
      | |- keeps_heap (if ?x then _ else _) => destruct x
      | |- keeps_heap (let '(_, _) := ?x in _) => destruct x
      end ].

Lemma keeps_navigate url : keeps_heap (Browser.navigate url).
Proof. unfold Browser.navigate. keeps. Qed.

Lemma keeps_captureErrors : keeps_heap Browser.captureErrors.
Proof. unfold Browser.captureErrors. keeps. Qed.

Lemma keeps_evaluate script : keeps_heap (Browser.evaluate script).
Proof. unfold Browser.evaluate. keeps. Qed.

Lemma keeps_getPage : keeps_heap Browser.getPage.
Proof. unfold Browser.getPage. keeps. Qed.

#[export] Hint Resolve keeps_navigate keeps_captureErrors keeps_evaluate
  keeps_getPage : heap.

Lemma keeps_validateInteraction rule : keeps_heap (Validator.validateInteraction rule).
Proof. unfold Validator.validateInteraction. keeps. Qed.

#[export] Hint Resolve keeps_validateInteraction : heap.

Lemma keeps_validateEach rules acc : keeps_heap (Validator.validateEach rules acc).
Proof.
  revert acc. induction rules as [|rule rest IH]; intros acc; simpl; keeps.
Qed.

#[export] Hint Resolve keeps_validateEach : heap.

Lemma keeps_validateMultiple rules : keeps_heap (Validator.validateMultiple rules).
Proof. unfold Validator.validateMultiple. keeps. Qed.

Lemma keeps_detectConsoleErrors : keeps_heap Detector.detectConsoleErrors.
Proof. unfold Detector.detectConsoleErrors. keeps. Qed.

Lemma keeps_detectNetworkErrors : keeps_heap Detector.detectNetworkErrors.
Proof. unfold Detector.detectNetworkErrors. keeps. Qed.

Lemma keeps_detectReactErrors : keeps_heap Detector.detectReactErrors.
Proof. unfold Detector.detectReactErrors. keeps. Qed.

Lemma keeps_detectUIErrors : keeps_heap Detector.detectUIErrors.
Proof. unfold Detector.detectUIErrors. keeps. Qed.

Lemma keeps_spread v : keeps_heap (Detector.spread v).
Proof. unfold Detector.spread. keeps. Qed.

#[export] Hint Resolve keeps_validateMultiple keeps_detectConsoleErrors
  keeps_detectNetworkErrors keeps_detectReactErrors keeps_detectUIErrors
  keeps_spread : heap.

End HeapFacts.

(** ** The UI validator *)

Module ValidatorFacts.

Import Validator Notions.

(** [validateInteraction] reports, it does not throw; a failure always
    carries its error. *)
Lemma validateInteraction_returns rule w :
  exists result w',
    validateInteraction rule w = (Ok result, w') /\
    (success result = false -> is_Some (error result)) /\
    (success result = true -> error result = None).
Proof.
  unfold validateInteraction.
  apply (MFacts.try_returns _ _
           (fun result => (success result = false -> is_Some (error result)) /\
                          (success result = true -> error result = None))).
  - clear w. intros w result w' H.
    apply MFacts.bind_inv in H as (page & w1 & _ & H).
    destruct page; simpl in H.
    + apply MFacts.bind_inv in H as (v & w2 & _ & H).
      destruct v as [| |l|[] err|[f|]]; try discriminate;
        injection H as <- _; simpl; split; eauto; discriminate.
    + injection H as <- _. simpl. split; eauto; discriminate.
  - intros e w0. eexists _, _. split; [reflexivity|]. simpl. split; eauto; discriminate.
Qed.

(** [validateMultiple] collects the errors of the failed rules, in order. *)
Lemma validateEach_outcomes rules acc w :
  exists results w',
    outcomes rules w = (Ok results, w') /\
    validateEach rules acc w = (Ok (acc ++ omap failure results), w') /\
    (omap failure results = [] <->
     Forall (fun result => success result = true) results).
Proof.
  revert acc w. induction rules as [|rule rest IH]; intros acc w; simpl.
  - eexists [], w. rewrite app_nil_r. repeat split; auto.
  - destruct (validateInteraction_returns rule w) as (result & w1 & Hrun & Hfail & Hpass).
    unfold mbind, M_bind at 1 3. rewrite Hrun.
    destruct result as [[] err]; simpl in *.
    + rewrite (Hpass eq_refl).
      destruct (IH acc w1) as (results & w2 & Hout & Heach & Hiff).
      exists ({| success := true; error := None |} :: results), w2.
      unfold mbind, M_bind. rewrite Hout, Heach. simpl.
      split; [reflexivity|]. split; [reflexivity|].
      unfold failure at 1. simpl. rewrite Hiff. split.
      * intros H. constructor; [reflexivity | exact H].
      * intros H. inversion H. assumption.
    + destruct (Hfail eq_refl) as [e ->].
      destruct (IH (acc ++ [e]) w1) as (results & w2 & Hout & Heach & Hiff).
      exists ({| success := false; error := Some e |} :: results), w2.
      unfold mbind, M_bind. rewrite Hout, Heach. simpl.
      split; [reflexivity|]. split; [rewrite <- app_assoc; reflexivity|].
      unfold failure at 1. simpl. split; [discriminate|].
      intros H. inversion H. discriminate.
Qed.

End ValidatorFacts.

(** ** One verification pass *)

Module RunnerFacts.

Import Validator Runner Notions HeapFacts.

Lemma step_heap {A} (m : M A) w r w' :
  keeps_heap m -> m w = (r, w') -> heap w' = heap w.
Proof. intros Hm H. specialize (Hm w). rewrite H in Hm. exact Hm. Qed.

(** [detectAllErrors] adds one collection, consistent with its errors, and
    touches no other. *)
Lemma detectAllErrors_heap w r w' :
  Detector.detectAllErrors w = (Ok r, w') ->
  r = length (heap w) /\
  exists c, heap w' = heap w ++ [c] /\
            hasErrors c = negb (bool_decide (Types.errors c = [])) /\
            summary c = Detector.generateSummary (Types.errors c).
Proof.
  unfold Detector.detectAllErrors. intros H.
  apply MFacts.bind_inv in H as (cs & w1 & H1 & H).
  apply MFacts.bind_inv in H as (ns & w2 & H2 & H).
  apply MFacts.bind_inv in H as (rs & w3 & H3 & H).
  apply MFacts.bind_inv in H as (us & w4 & H4 & H).
  apply MFacts.bind_inv in H as (rl & w5 & H5 & H).
  apply step_heap in H1, H2, H3, H4, H5; auto with heap.
  unfold alloc in H. injection H as <- <-. simpl.
  assert (Heq : heap w5 = heap w) by congruence. rewrite Heq.
  split; [reflexivity|]. eexists. split; [reflexivity|]. simpl.
  split; [|reflexivity]. destruct (cs ++ ns ++ rl ++ us); reflexivity.
Qed.

Lemma observe_heap feature w r w' :
  observe feature w = (Ok r, w') ->
  r = length (heap w) /\
  exists c, heap w' = heap w ++ [c] /\
            hasErrors c = negb (bool_decide (Types.errors c = [])) /\
            summary c = Detector.generateSummary (Types.errors c).
Proof.
  unfold observe. intros H.
  apply MFacts.bind_inv in H as (? & w1 & H1 & H).
  apply MFacts.bind_inv in H as (? & w2 & H2 & H).
  apply step_heap in H1; [|keeps].
  apply step_heap in H2; [|keeps].
  apply detectAllErrors_heap in H. rewrite H2, H1 in H. exact H.
Qed.

Lemma update_run r f w c :
  deref r w = Some c ->
  update r f w = (Ok tt, set_heap (<[r := f c]> (heap w)) w).
Proof. intros H. unfold update, read, mbind, M_bind. rewrite H. reflexivity. Qed.

Lemma deref_set_heap_insert r c w :
  (r < length (heap w))%nat ->
  deref r (set_heap (<[r := c]> (heap w)) w) = Some c.
Proof. intros H. unfold deref. simpl. apply list_lookup_insert_eq. exact H. Qed.

(** The three assignments amount to replacing the object by [withUIErrors]. *)
Lemma recordFailure_run r uiErrors w c :
  deref r w = Some c ->
  recordFailure r uiErrors w
  = (Ok tt, set_heap (<[r := withUIErrors c uiErrors]> (heap w)) w).
Proof.
  intros H. assert (Hlt : (r < length (heap w))%nat) by (eapply lookup_lt_Some; exact H).
  unfold recordFailure.
  erewrite MFacts.bind_ok; [|apply update_run; exact H].
  erewrite MFacts.bind_ok;
    [|apply update_run; apply deref_set_heap_insert; exact Hlt].
  erewrite update_run; [|apply deref_set_heap_insert; simpl; rewrite length_insert; exact Hlt].
  simpl. unfold set_heap. simpl. rewrite !list_insert_insert_eq. reflexivity.
Qed.

(** What the validation step does to the collection just built. *)
Lemma validate_run feature r w c :
  deref r w = Some c ->
  exists ok w',
    validate feature r w = (Ok ok, w') /\
    (ok = true <-> match uiRules feature with
                   | Some rules =>
                       exists results w2, outcomes rules w = (Ok results, w2) /\
                         Forall (fun result => Validator.success result = true) results
                   | None => True
                   end) /\
    (if ok then heap w' = heap w
     else exists uiErrors, uiErrors <> [] /\
            heap w' = <[r := withUIErrors c uiErrors]> (heap w)).
Proof.
  intros Hc. unfold validate.
  destruct (uiRules feature) as [[|rule rest]|].
  - exists true, w. split; [reflexivity|]. split; [|reflexivity].
    split; [|reflexivity]. intros _. exists [], w. split; [reflexivity | constructor].
  - destruct (ValidatorFacts.validateEach_outcomes (rule :: rest) [] w)
      as (results & w1 & Hout & Heach & Hiff).
    pose proof (step_heap _ _ _ _ (keeps_validateEach _ _) Heach) as Hheap.
    unfold validateMultiple.
    destruct (omap failure results) as [|e uiErrors] eqn:Hui.
    + exists true, w1. split.
      { unfold mbind, M_bind. rewrite Heach. reflexivity. }
      split; [|exact Hheap]. split; [|reflexivity].
      intros _. exists results, w1. split; [exact Hout | apply Hiff; reflexivity].
    + exists false. eexists. split.
      { unfold mbind, M_bind at 1 2 3. rewrite Heach. simpl.
        unfold mbind, M_bind, mret, M_ret. simpl.
        rewrite (recordFailure_run r (e :: uiErrors) w1 c).
        - reflexivity.
        - unfold deref in *. rewrite Hheap. exact Hc. }
      split.
      * split; [discriminate|]. intros (results' & w2 & Hout' & Hall).
        rewrite Hout in Hout'. injection Hout' as <- <-.
        apply Hiff in Hall. discriminate.
      * exists (e :: uiErrors). split; [discriminate|]. simpl. rewrite Hheap. reflexivity.
  - exists true, w. repeat split; auto.
Qed.

(** The [catch] block always returns, with its one-error collection. *)
Lemma failed_run feature startTime e w :
  failed feature startTime e w
  = (Ok {| feature := name feature; success := false;
           Runner.errors := length (heap w); duration := clock w - startTime |},
     set_heap (heap w ++ [synthetic e (clock w)]) w).
Proof. reflexivity. Qed.

End RunnerFacts.

(** ** The verdict of a pass *)

Module VerdictFacts.

Import Validator Runner Notions HeapFacts RunnerFacts.

(** Detection throws, if at all, before it makes its collection. *)
Lemma detectAllErrors_throw_heap w e w' :
  Detector.detectAllErrors w = (Throw e, w') -> heap w' = heap w.
Proof.
  unfold Detector.detectAllErrors. intros H.
  apply MFacts.bind_throw_inv in H as [H|(? & w1 & H1 & H)];
    [apply step_heap in H; [exact H | auto with heap]|].
  apply step_heap in H1; [|auto with heap].
  apply MFacts.bind_throw_inv in H as [H|(? & w2 & H2 & H)];
    [apply step_heap in H; [congruence | auto with heap]|].
  apply step_heap in H2; [|auto with heap].
  apply MFacts.bind_throw_inv in H as [H|(? & w3 & H3 & H)];
    [apply step_heap in H; [congruence | auto with heap]|].
  apply step_heap in H3; [|auto with heap].
  apply MFacts.bind_throw_inv in H as [H|(? & w4 & H4 & H)];
    [apply step_heap in H; [congruence | auto with heap]|].
  apply step_heap in H4; [|auto with heap].
  apply MFacts.bind_throw_inv in H as [H|(? & w5 & H5 & H)];
    [apply step_heap in H; [congruence | auto with heap]|].
  unfold alloc in H. discriminate.
Qed.

Lemma observe_throw_heap feature w e w' :
  observe feature w = (Throw e, w') -> heap w' = heap w.
Proof.
  unfold observe. intros H.
  apply MFacts.bind_throw_inv in H as [H|(? & w1 & H1 & H)].
  { apply step_heap in H; [exact H | keeps]. }
  apply step_heap in H1; [|keeps].
  apply MFacts.bind_throw_inv in H as [H|(? & w2 & H2 & H)].
  { apply step_heap in H; [congruence | keeps]. }
  apply step_heap in H2; [|keeps].
  apply detectAllErrors_throw_heap in H. congruence.
Qed.

(** The two ways a pass ends: the [try] block threw while observing and the
    [catch] block answers, or it ran to its end. *)
Lemma testFeature_cases feature w :
  (exists e w1,
     observe feature w = (Throw e, w1) /\ heap w1 = heap w /\
     attempt feature (clock w) w = (Throw e, w1) /\
     testFeature feature w = failed feature (clock w) e w1) \/
  (exists r w1 c0 ok w2 c,
     observe feature w = (Ok r, w1) /\
     r = length (heap w) /\ heap w1 = heap w ++ [c0] /\
     hasErrors c0 = negb (bool_decide (Types.errors c0 = [])) /\
     summary c0 = Detector.generateSummary (Types.errors c0) /\
     validate feature r w1 = (Ok ok, w2) /\
     (ok = true <-> match uiRules feature with
                    | Some rules =>
                        exists results w3, outcomes rules w1 = (Ok results, w3) /\
                          Forall (fun result => Validator.success result = true) results
                    | None => True
                    end) /\
     (if ok then heap w2 = heap w1
      else exists uiErrors, uiErrors <> [] /\
             heap w2 = <[r := withUIErrors c0 uiErrors]> (heap w1)) /\
     deref r w2 = Some c /\
     testFeature feature w
     = (Ok {| feature := name feature; success := negb (hasErrors c) && ok;
              Runner.errors := r; duration := clock w2 - clock w |}, w2)).
Proof.
  destruct (observe feature w) as [[r|e] w1] eqn:Hobs.
  - right. destruct (observe_heap _ _ _ _ Hobs) as (Hr & c0 & Hheap & Hhas & Hsum).
    assert (Hc0 : deref r w1 = Some c0).
    { unfold deref. rewrite Hheap, Hr. apply list_lookup_middle. reflexivity. }
    destruct (validate_run feature r w1 c0 Hc0) as (ok & w2 & Hval & Hiff & Hmut).
    assert (Hc : exists c, deref r w2 = Some c).
    { unfold deref in *. apply lookup_lt_is_Some.
      apply lookup_lt_Some in Hc0.
      destruct ok; [rewrite Hmut; exact Hc0|].
      destruct Hmut as (ui & _ & ->). rewrite length_insert. exact Hc0. }
    destruct Hc as [c Hc].
    exists r, w1, c0, ok, w2, c.
    split; [reflexivity|]. split; [exact Hr|]. split; [exact Hheap|].
    split; [exact Hhas|]. split; [exact Hsum|]. split; [exact Hval|].
    split; [exact Hiff|]. split; [exact Hmut|]. split; [exact Hc|].
    unfold testFeature, attempt, now, gets, try_catch, mbind, M_bind.
    rewrite Hobs, Hval. unfold read. rewrite Hc. reflexivity.
  - left. exists e, w1. split; [reflexivity|].
    split; [eapply observe_throw_heap; exact Hobs|].
    assert (Hatt : attempt feature (clock w) w = (Throw e, w1)).
    { unfold attempt. eapply MFacts.bind_throw. exact Hobs. }
    split; [exact Hatt|].
    unfold testFeature, now, gets, try_catch, mbind, M_bind. rewrite Hatt. reflexivity.
Qed.

(** A pass always returns, with one collection more than before. *)
Lemma testFeature_grows feature w :
  exists result w',
    testFeature feature w = (Ok result, w') /\
    length (heap w') = S (length (heap w)).
Proof.
  destruct (testFeature_cases feature w)
    as [(e & w1 & Hobs & Hheap & Hatt & Hrun)
       |(r & w1 & c0 & ok & w2 & c & Hobs & Hr & Hheap & Hhas & Hsum & Hval & Hiff
         & Hmut & Hc & Hrun)].
  - rewrite Hrun, failed_run. eexists _, _. split; [reflexivity|].
    simpl. rewrite Hheap, length_app. simpl. lia.
  - rewrite Hrun. eexists _, _. split; [reflexivity|].
    destruct ok; [rewrite Hmut|destruct Hmut as (ui & _ & ->); rewrite length_insert];
      rewrite Hheap, length_app; simpl; lia.
Qed.

(** C1: a pass reports success exactly when the collection it returns holds
    no error and every UI rule of the feature was run and passed. *)
Theorem testFeature_success_iff feature w :
  exists result w' c,
    testFeature feature w = (Ok result, w') /\
    deref (Runner.errors result) w' = Some c /\
    (Runner.success result = true <->
     Types.errors c = [] /\ rulesPassed feature w).
Proof.
  destruct (testFeature_cases feature w)
    as [(e & w1 & Hobs & Hheap & Hatt & Hrun)
       |(r & w1 & c0 & ok & w2 & c & Hobs & Hr & Hheap & Hhas & Hsum & Hval & Hiff
         & Hmut & Hc & Hrun)].
  - rewrite Hrun, failed_run. eexists _, _, _. split; [reflexivity|]. split.
    + unfold deref. simpl. apply list_lookup_middle. reflexivity.
    + simpl. split; [discriminate | intros [? _]; discriminate].
  - rewrite Hrun. eexists _, _, _. split; [reflexivity|]. split; [exact Hc|]. simpl.
    assert (Hc0 : heap w1 !! r = Some c0).
    { rewrite Hheap, Hr. apply list_lookup_middle. reflexivity. }
    destruct ok.
    + unfold deref in Hc. rewrite Hmut, Hc0 in Hc. injection Hc as <-.
      rewrite Hhas, andb_true_r, negb_involutive, bool_decide_eq_true.
      split.
      * intros Hnil. split; [exact Hnil|].
        destruct Hiff as [Hiff _]. specialize (Hiff eq_refl).
        unfold rulesPassed. exists r, w1.
        destruct (uiRules feature) as [rules|]; simpl.
        -- destruct Hiff as (results & w3 & Hout & Hall). eauto.
        -- exists [], w1. split; [exact Hobs|]. split; [reflexivity | constructor].
      * intros [Hnil _]. exact Hnil.
    + destruct Hmut as (uiErrors & Hne & Hmut).
      unfold deref in Hc. rewrite Hmut in Hc.
      rewrite list_lookup_insert_eq in Hc by (eapply lookup_lt_Some; exact Hc0).
      injection Hc as <-. simpl.
      split; [discriminate|]. intros [Hnil _].
      apply app_eq_nil in Hnil as [_ Hnil]. contradiction.
Qed.

(** C6: [testFeature] always returns a result; whenever its [try] block
    throws, the result has [success = false] and a collection made of the one
    console error that wraps the thrown value. *)
Theorem testFeature_never_throws feature w :
  exists result w',
    testFeature feature w = (Ok result, w') /\
    forall e w1,
      attempt feature (clock w) w = (Throw e, w1) ->
      Runner.success result = false /\
      deref (Runner.errors result) w' = Some (synthetic e (clock w1)) /\
      type (syntheticError e (clock w1)) = console.
Proof.
  destruct (testFeature_cases feature w)
    as [(e & w1 & Hobs & Hheap & Hatt & Hrun)
       |(r & w1 & c0 & ok & w2 & c & Hobs & Hr & Hheap & Hhas & Hsum & Hval & Hiff
         & Hmut & Hc & Hrun)].
  - rewrite Hrun, failed_run. eexists _, _. split; [reflexivity|].
    intros e' w1' Hatt'. rewrite Hatt in Hatt'. injection Hatt' as <- <-.
    simpl. split; [reflexivity|]. split; [|reflexivity].
    unfold deref. simpl. apply list_lookup_middle. reflexivity.
  - rewrite Hrun. eexists _, _. split; [reflexivity|].
    intros e w1' Hatt. exfalso.
    unfold attempt, now, gets, mbind, M_bind in Hatt.
    rewrite Hobs, Hval in Hatt. unfold read in Hatt. rewrite Hc in Hatt.
    discriminate.
Qed.

End VerdictFacts.

Module VerdictExamples.

Import Runner Notions.

Lemma testFeature_never_throws_witness :
  attempt Scenario.login (clock Scenario.unreachable) Scenario.unreachable
    = (Throw (JsError "net::ERR_CONNECTION_REFUSED"),
       (attempt Scenario.login 0 Scenario.unreachable).2) /\
  exists result w',
    testFeature Scenario.login Scenario.unreachable = (Ok result, w') /\
    Runner.success result = false /\
    deref (Runner.errors result) w'
      = Some (synthetic (JsError "net::ERR_CONNECTION_REFUSED") 0) /\
    type (syntheticError (JsError "net::ERR_CONNECTION_REFUSED") 0) = console.
Proof.
  split; [reflexivity|].
  destruct (VerdictFacts.testFeature_never_throws Scenario.login Scenario.unreachable)
    as (result & w' & Hrun & Hcatch).
  exists result, w'. split; [exact Hrun|].
  exact (Hcatch (JsError "net::ERR_CONNECTION_REFUSED")
           (attempt Scenario.login 0 Scenario.unreachable).2 eq_refl).
Defined.

(** The login feature on a healthy page passes. *)
Example login_passes :
  (testFeature Scenario.login Scenario.allFine).1
  = Ok {| feature := "login"; success := true; Runner.errors := 0%nat; duration := 0 |}.
Proof. reflexivity. Qed.

(** With no element found, the same feature fails with one UI error. *)
Example login_fails :
  (testFeature Scenario.login Scenario.nothingFound).1
  = Ok {| feature := "login"; success := false; Runner.errors := 0%nat; duration := 0 |} /\
  (Types.errors <$> deref 0 (testFeature Scenario.login Scenario.nothingFound).2)
  = Some [Validator.uiError "Element not found" Scenario.clickLogin 0].
Proof. split; reflexivity. Qed.

End VerdictExamples.

(** ** Collections as objects *)

Module MutationFacts.

Import Validator Runner Notions HeapFacts RunnerFacts.




End MutationFacts.

(** ** Applying a fix *)

Module FixFacts.

Import Gemini Notions.

Lemma logged_nil w : logged [] w = w.
Proof. destruct w. unfold logged, set_console. simpl. rewrite app_nil_r. reflexivity. Qed.

Lemma logged_cons s ws w : logged ws (logged [s] w) = logged (s :: ws) w.
Proof. unfold logged, set_console. simpl. rewrite <- app_assoc. reflexivity. Qed.

(** Integers among the numbers. *)
Lemma floor_inject n : Js.floor (inject_Z n) = n.
Proof. unfold Js.floor. cbn. apply Z.div_1_r. Qed.

Lemma floor_index n : Js.floor (inject_Z n - 1) = n - 1.
Proof. unfold Js.floor. cbn. rewrite Z.div_1_r. lia. Qed.

Lemma item_index {A} (a : list A) n :
  0 <= n - 1 -> Js.item a (inject_Z n - 1) = a !! Z.to_nat (n - 1).
Proof.
  intros Hn. unfold Js.item. rewrite floor_index.
  rewrite (proj2 (Z.leb_le _ _) Hn), andb_true_r.
  unfold Js.isInteger. cbn. rewrite Z.mod_1_r. reflexivity.
Qed.

Lemma indexInRange_typed change lines :
  indexInRange (parsed_line (parsedChange change) - 1) lines = inRange change lines.
Proof.
  unfold indexInRange, inRange, Qle_bool. cbn. rewrite Z.ltb_antisym.
  f_equal; [|f_equal]; f_equal; lia.
Qed.

Lemma goesAfter_typed x y :
  goesAfter (parsedChange x) (parsedChange y) = (change_line x <? change_line y).
Proof.
  unfold goesAfter, Qle_bool. cbn. rewrite Z.ltb_antisym. do 2 f_equal; lia.
Qed.

(** On a record that is as declared the sort is the sort of its changes. *)
Lemma insert_parsed_typed x l :
  insert_parsed (parsedChange x) (parsedChange <$> l) = parsedChange <$> insert_desc x l.
Proof.
  induction l as [|y l IH]; [reflexivity|].
  cbn [fmap list_fmap insert_parsed insert_desc]. rewrite goesAfter_typed.
  destruct (change_line x <? change_line y); [|reflexivity].
  cbn [fmap list_fmap]. f_equal. exact IH.
Qed.

Lemma sort_parsed_typed l :
  sort_parsed (parsedChange <$> l) = parsedChange <$> sort_desc l.
Proof.
  induction l as [|x l IH]; [reflexivity|].
  cbn [fmap list_fmap sort_parsed sort_desc]. fold (parsedChange <$> l).
  rewrite IH. apply insert_parsed_typed.
Qed.

Lemma sortedFix_typed codeFix : sortedFix (parsed codeFix) = parsed (sorted codeFix).
Proof. unfold sortedFix, parsed. cbn. rewrite sort_parsed_typed. reflexivity. Qed.

(** On a record that is as declared the loop is a fold of [applyChange] that
    logs the mismatches. *)
Lemma applyChanges_run changes lines w :
  applyChanges (parsedChange <$> changes) lines w
  = (Ok (fold_left applyChange changes lines), logged (warnings changes lines) w).
Proof.
  revert lines w. induction changes as [|change rest IH]; intros lines w.
  - cbn. rewrite logged_nil. reflexivity.
  - cbn [fmap list_fmap applyChanges fold_left warnings]. fold (parsedChange <$> rest).
    cbv zeta. rewrite indexInRange_typed. unfold applyChange at 2.
    destruct (inRange change lines) eqn:Hin; cbn [andb]; [|apply IH].
    assert (Hlow : 0 <= change_line change - 1).
    { unfold inRange in Hin. apply andb_true_iff in Hin as [H _]. lia. }
    assert (Hlt : (Z.to_nat (change_line change - 1) < length lines)%nat).
    { unfold inRange in Hin. apply andb_true_iff in Hin as [_ H]. lia. }
    apply lookup_lt_is_Some in Hlt as [l Hl].
    change (parsed_line (parsedChange change)) with (inject_Z (change_line change)).
    rewrite item_index by exact Hlow. rewrite Hl. cbn [defined parsedChange parsed_oldCode].
    erewrite MFacts.bind_ok by reflexivity.
    erewrite MFacts.bind_ok by reflexivity.
    unfold matches. rewrite Hl.
    destruct (String.eqb (Js.trim l) (Js.trim (oldCode change))).
    + rewrite floor_index. apply IH.
    + unfold mbind, M_bind, console_write, modify. rewrite IH.
      rewrite <- logged_cons. unfold mismatchWarning, Js.showInteger.
      rewrite floor_inject. reflexivity.
Qed.

(** One change: out of range nothing happens; in range the line is replaced
    when both trimmed texts agree and kept otherwise; no other line moves. *)
Lemma applyChange_spec lines change :
  (inRange change lines = false -> applyChange lines change = lines) /\
  (inRange change lines = true ->
   exists l,
     lines !! Z.to_nat (change_line change - 1) = Some l /\
     (Js.trim l = Js.trim (oldCode change) ->
      applyChange lines change
      = <[Z.to_nat (change_line change - 1) := newCode change]> lines) /\
     (Js.trim l <> Js.trim (oldCode change) ->
      applyChange lines change = lines /\
      warnings [change] lines = [mismatchWarning change])) /\
  (forall j, j <> Z.to_nat (change_line change - 1) ->
             applyChange lines change !! j = lines !! j) /\
  length (applyChange lines change) = length lines.
Proof.
  unfold applyChange. split; [intros ->; reflexivity|]. split.
  - intros Hin. rewrite Hin. simpl.
    assert (Hlt : (Z.to_nat (change_line change - 1) < length lines)%nat).
    { unfold inRange in Hin. apply andb_true_iff in Hin as [H1 H2]. lia. }
    apply lookup_lt_is_Some in Hlt as [l Hl]. exists l. split; [exact Hl|].
    split.
    + intros Heq. unfold matches. rewrite Hl.
      rewrite (proj2 (String.eqb_eq _ _) Heq). reflexivity.
    + intros Hne. unfold matches at 1. rewrite Hl.
      rewrite (proj2 (String.eqb_neq _ _) Hne).
      split; [reflexivity|]. cbn [warnings]. rewrite Hin. unfold matches.
      rewrite Hl. apply String.eqb_neq in Hne. rewrite Hne. reflexivity.
  - split.
    + intros j Hj. destruct (inRange change lines && matches change lines);
        [apply list_lookup_insert_ne; congruence | reflexivity].
    + destruct (inRange change lines && matches change lines);
        [apply length_insert | reflexivity].
Qed.

Lemma fold_noneApplies changes lines :
  noneApplies changes lines ->
  fold_left applyChange changes lines = lines /\
  length (warnings changes lines) = length (List.filter (fun c => inRange c lines) changes).
Proof.
  induction 1 as [|change rest Hc Hrest [IH1 IH2]]; simpl; [auto|].
  unfold applyChange at 2. rewrite Hc. split; [exact IH1|].
  destruct (inRange change lines); simpl in *; [|exact IH2].
  rewrite Hc. simpl. rewrite IH2. reflexivity.
Qed.

Lemma Forall_insert_desc (P : Change -> Prop) x l :
  P x -> Forall P l -> Forall P (insert_desc x l).
Proof.
  intros Hx. induction 1 as [|y l Hy Hl IH]; simpl.
  - constructor; [exact Hx | constructor].
  - destruct (change_line x <? change_line y); repeat constructor; auto.
Qed.

Lemma Forall_sort_desc (P : Change -> Prop) l :
  Forall P l -> Forall P (sort_desc l).
Proof.
  induction 1; simpl; [constructor | apply Forall_insert_desc; assumption].
Qed.

Lemma existsSync_found path node w :
  fs w !! path = Some node -> existsSync path w = (Ok true, w).
Proof.
  intros H. unfold existsSync, gets. rewrite bool_decide_eq_true_2 by eauto.
  reflexivity.
Qed.

Lemma existsSync_missing path w :
  fs w !! path = None -> existsSync path w = (Ok false, w).
Proof.
  intros H. unfold existsSync, gets. rewrite bool_decide_eq_false_2; [reflexivity|].
  rewrite H. intros [? ?]. discriminate.
Qed.

(** Subtracting one keeps a number an integer, or not one. *)
Lemma isInteger_index q : Js.isInteger (q - 1) = Js.isInteger q.
Proof.
  unfold Js.isInteger. destruct q as [n d]. cbn.
  rewrite Pos.mul_1_r, Z.mul_1_r.
  replace (n + Z.neg d) with (n + (-1) * Z.pos d) by lia.
  rewrite Z_mod_plus_full. reflexivity.
Qed.

Lemma floor_in_range lines i :
  indexInRange i lines = true ->
  0 <= Js.floor i /\ (Z.to_nat (Js.floor i) < length lines)%nat.
Proof.
  unfold indexInRange, Qle_bool, Js.floor. destruct i as [n d]. cbn.
  intros H. apply andb_true_iff in H as [H1 H2].
  apply negb_true_iff, Z.leb_gt in H2. apply Z.leb_le in H1.
  rewrite Z.mul_1_r in *.
  assert (0 <= n / Z.pos d) by (apply Z.div_pos; lia).
  split; [assumption|].
  assert (n / Z.pos d < Z.of_nat (length lines))
    by (apply Z.div_lt_upper_bound; lia).
  lia.
Qed.

(** In range, the array has an element exactly at the integers. *)
Lemma item_in_range lines i :
  indexInRange i lines = true ->
  if Js.isInteger i then is_Some (Js.item lines i) else Js.item lines i = None.
Proof.
  intros H. destruct (floor_in_range lines i H) as [Hlow Hlt].
  unfold Js.item. destruct (Js.isInteger i); [|reflexivity].
  rewrite (proj2 (Z.leb_le _ _) Hlow). cbn. apply lookup_lt_is_Some. exact Hlt.
Qed.

Lemma breaks_length lines lines' change :
  length lines' = length lines -> breaks lines' change = breaks lines change.
Proof. intros H. unfold breaks, indexInRange. rewrite H. reflexivity. Qed.

(** The loop on any record: it gets through, keeping the number of lines,
    exactly when no change breaks; otherwise it throws. Either way it has
    only written warnings. *)
Lemma applyChanges_cases changes : forall lines w,
  exists ws,
    (Forall (fun c => breaks lines c = false) changes /\
     exists lines',
       applyChanges changes lines w = (Ok lines', logged ws w) /\
       length lines' = length lines) \/
    (Exists (fun c => breaks lines c = true) changes /\
     exists e, applyChanges changes lines w = (Throw e, logged ws w)).
Proof.
  induction changes as [|change rest IH]; intros lines w.
  - exists []. left. split; [constructor|]. exists lines. rewrite logged_nil. auto.
  - cbn [applyChanges]. cbv zeta.
    assert (Hstep : forall lines' ws0,
      length lines' = length lines ->
      breaks lines change = false ->
      exists ws,
        (Forall (fun c => breaks lines c = false) (change :: rest) /\
         exists lines'',
           applyChanges rest lines' (logged ws0 w) = (Ok lines'', logged ws w) /\
           length lines'' = length lines) \/
        (Exists (fun c => breaks lines c = true) (change :: rest) /\
         exists e, applyChanges rest lines' (logged ws0 w) = (Throw e, logged ws w))).
    { intros lines' ws0 Hlen Hhead.
      destruct (IH lines' (logged ws0 w)) as [ws [(Hall & l'' & Hrun & Hl)|(Hex & e & Hrun)]].
      - exists (ws0 ++ ws). left. split.
        + constructor; [exact Hhead|].
          eapply Forall_impl; [exact Hall|]. cbn. intros c Hc.
          rewrite <- Hc. symmetry. apply breaks_length. exact Hlen.
        + exists l''. split; [|congruence]. rewrite Hrun. f_equal.
          unfold logged, set_console. cbn. rewrite app_assoc. reflexivity.
      - exists (ws0 ++ ws). right. split.
        + apply Exists_cons_tl. eapply Exists_impl; [exact Hex|]. cbn. intros c Hc.
          rewrite <- Hc. symmetry. apply breaks_length. exact Hlen.
        + exists e. rewrite Hrun. f_equal.
          unfold logged, set_console. cbn. rewrite app_assoc. reflexivity. }
    destruct (indexInRange (parsed_line change - 1) lines) eqn:Hin.
    2:{ specialize (Hstep lines [] eq_refl). rewrite logged_nil in Hstep.
        apply Hstep. unfold breaks. rewrite Hin. reflexivity. }
    pose proof (item_in_range lines _ Hin) as Hitem.
    rewrite isInteger_index in Hitem.
    destruct (Js.isInteger (parsed_line change)) eqn:Hint.
    2:{ exists []. right. split.
        - constructor. unfold breaks. rewrite Hin, Hint. reflexivity.
        - rewrite Hitem. eexists. rewrite logged_nil. reflexivity. }
    destruct Hitem as [current Hcurrent]. rewrite Hcurrent.
    cbn [defined]. erewrite MFacts.bind_ok by reflexivity.
    destruct (parsed_oldCode change) as [old|] eqn:Hold.
    2:{ exists []. right. split.
        - constructor. unfold breaks. rewrite Hin, Hint, Hold. reflexivity.
        - eexists. rewrite logged_nil. reflexivity. }
    cbn [defined]. erewrite MFacts.bind_ok by reflexivity.
    assert (Hhead : breaks lines change = false)
      by (unfold breaks; rewrite Hin, Hint, Hold; reflexivity).
    destruct (String.eqb (Js.trim current) (Js.trim old)).
    + specialize (Hstep (<[Z.to_nat (Js.floor (parsed_line change - 1))
                           := parsed_newCode change]> lines) []
                    (length_insert _ _ _) Hhead).
      rewrite logged_nil in Hstep. exact Hstep.
    + unfold mbind at 1, M_bind at 1, console_write at 1, modify at 1.
      apply (Hstep lines [_] eq_refl Hhead).
Qed.

Lemma insert_parsed_perm x l : insert_parsed x l ≡ₚ x :: l.
Proof.
  induction l as [|y l IH]; cbn [insert_parsed]; [reflexivity|].
  destruct (goesAfter x y); [|reflexivity].
  rewrite IH. apply Permutation_swap.
Qed.

(** The sort keeps the changes. *)
Lemma sort_parsed_perm l : sort_parsed l ≡ₚ l.
Proof.
  induction l as [|x l IH]; cbn [sort_parsed]; [reflexivity|].
  rewrite insert_parsed_perm, IH. reflexivity.
Qed.

Lemma writeThrows_readonly path w content rd :
  fs w !! path = Some (RegularFile content rd false) -> writeThrows path w.
Proof. intros H c. unfold writeFile. rewrite H. eexists. reflexivity. Qed.

Lemma writeThrows_writable path w content rd :
  fs w !! path = Some (RegularFile content rd true) -> ~ writeThrows path w.
Proof.
  intros H Hw. destruct (Hw "") as [e He]. unfold writeFile in He.
  rewrite H in He. discriminate He.
Qed.

Lemma readThrows_readable path w content wr :
  fs w !! path = Some (RegularFile content true wr) -> ~ readThrows path w.
Proof. intros H [e He]. unfold readFile in He. rewrite H in He. discriminate He. Qed.

(** [applyFix] always returns, and returns [false] exactly for a troubled
    record. *)
Lemma applyFix_false_iff w fixRef codeFix :
  fixes w !! fixRef = Some codeFix ->
  exists applied w',
    applyFix fixRef w = (Ok applied, w') /\
    (applied = false <-> troubled codeFix w).
Proof.
  intros Hfix. unfold applyFix, try_catch, troubled.
  erewrite MFacts.bind_ok by (unfold read_fix; rewrite Hfix; reflexivity).
  destruct (parsed_file codeFix) as [name|].
  2:{ cbn. eexists _, _. split; [reflexivity|]. split; auto. }
  cbn [defined]. erewrite MFacts.bind_ok by reflexivity.
  erewrite MFacts.bind_ok by reflexivity.
  set (path := resolve w name).
  destruct (fs w !! path) as [node|] eqn:Hfile.
  2:{ erewrite MFacts.bind_ok by (apply existsSync_missing; exact Hfile).
      cbn. eexists _, _. split; [reflexivity|]. split; [|reflexivity].
      intros _. left. left. exact Hfile. }
  erewrite MFacts.bind_ok by (eapply existsSync_found; exact Hfile). cbn [negb].
  destruct node as [content [] wr|].
  2,3: erewrite MFacts.bind_throw by (unfold readFile; rewrite Hfile; reflexivity).
  2,3: cbn; eexists _, _; (split; [reflexivity|]); (split; [|reflexivity]).
  2,3: intros _; left; right; left; unfold readThrows, readFile; rewrite Hfile;
       eexists; reflexivity.
  erewrite MFacts.bind_ok by (unfold readFile; rewrite Hfile; reflexivity).
  cbv zeta.
  assert (Hfine : forall P : string -> Prop,
            (wr = true -> P content) ->
            fileTrouble path w \/
            (exists content0,
               Some (RegularFile content true wr) = Some (RegularFile content0 true true) /\
               P content0)).
  { intros P HP. destruct wr.
    - right. exists content. auto.
    - left. right. right. eapply writeThrows_readonly. exact Hfile. }
  unfold recordTrouble.
  destruct (parsed_changes codeFix) as [changes|].
  2:{ erewrite MFacts.bind_throw by reflexivity. cbn.
      eexists _, _. split; [reflexivity|]. split; [|reflexivity].
      intros _. apply (Hfine (fun _ => True)). auto. }
  cbn [defined]. erewrite MFacts.bind_ok by reflexivity.
  erewrite MFacts.bind_ok
    by (unfold update_fix, read_fix, mbind, M_bind; rewrite Hfix; reflexivity).
  set (w1 := set_fixes _ w).
  destruct (applyChanges_cases (sort_parsed changes) (Js.split_lines content) w1)
    as [ws [(Hall & lines' & Hrun & _)|(Hex & e & Hrun)]].
  - erewrite MFacts.bind_ok by exact Hrun.
    assert (Hfile1 : fs (logged ws w1) !! path = Some (RegularFile content true wr))
      by exact Hfile.
    destruct wr.
    + erewrite MFacts.bind_ok by (unfold writeFile; rewrite Hfile1; reflexivity).
      cbn. eexists _, _. split; [reflexivity|]. split; [discriminate|].
      intros [[H|[H|H]]|(content0 & Heq & Hbad)].
      * rewrite Hfile in H. discriminate H.
      * destruct (readThrows_readable _ _ _ _ Hfile H).
      * destruct (writeThrows_writable _ _ _ _ Hfile H).
      * injection Heq as <-. exfalso.
        rewrite <- (sort_parsed_perm changes) in Hbad.
        apply Exists_exists in Hbad as (c & Hc & Hb).
        rewrite Forall_forall in Hall. rewrite (Hall c Hc) in Hb. discriminate Hb.
    + erewrite MFacts.bind_throw by (unfold writeFile; rewrite Hfile1; reflexivity).
      cbn. eexists _, _. split; [reflexivity|]. split; [|reflexivity].
      intros _. left. right. right. eapply writeThrows_readonly. exact Hfile.
  - erewrite MFacts.bind_throw by exact Hrun. cbn.
    eexists _, _. split; [reflexivity|]. split; [|reflexivity].
    intros _.
    apply (Hfine (fun c => Exists (fun change => breaks (Js.split_lines c) change = true)
                              changes)).
    intros _. rewrite <- (sort_parsed_perm changes). exact Hex.
Qed.

(** The whole of [applyFix] on a regular file that can be read and written. *)
Lemma applyFix_run w fixRef codeFix content :
  fixes w !! fixRef = Some (parsed codeFix) ->
  fs w !! resolve w (file codeFix) = Some (RegularFile content true true) ->
  exists w',
    applyFix fixRef w = (Ok true, w') /\
    fs w' = <[resolve w (file codeFix) :=
                RegularFile
                  (Js.join_lines
                     (fold_left applyChange (sort_desc (changes codeFix))
                        (Js.split_lines content))) true true]> (fs w) /\
    console_out w'
    = console_out w ++ warnings (sort_desc (changes codeFix)) (Js.split_lines content) /\
    fixes w' = <[fixRef := parsed (sorted codeFix)]> (fixes w) /\
    heap w' = heap w.
Proof.
  intros Hfix Hfile. eexists. split.
  - unfold applyFix. apply MFacts.try_ok.
    erewrite MFacts.bind_ok by (unfold read_fix; rewrite Hfix; reflexivity).
    erewrite MFacts.bind_ok by reflexivity.
    erewrite MFacts.bind_ok by reflexivity.
    erewrite MFacts.bind_ok by (eapply existsSync_found; exact Hfile).
    cbn [negb].
    erewrite MFacts.bind_ok by (unfold readFile; rewrite Hfile; reflexivity).
    erewrite MFacts.bind_ok by reflexivity.
    erewrite MFacts.bind_ok
      by (unfold update_fix, read_fix, mbind, M_bind; rewrite Hfix;
          rewrite sortedFix_typed; reflexivity).
    cbn [parsed parsed_changes]. rewrite sort_parsed_typed.
    erewrite MFacts.bind_ok by apply applyChanges_run.
    erewrite MFacts.bind_ok
      by (unfold writeFile; cbn [fs logged set_console set_fixes];
          rewrite Hfile; reflexivity).
    reflexivity.
  - simpl. repeat split; reflexivity.
Qed.

End FixFacts.

Module FixTheorems.

Import Gemini Notions FixFacts.

(** C5, as stated, fails on the code: the proposed old text is trimmed too
    before the comparison, so a replacement whose old text differs from the
    trimmed line only by surrounding white space is applied, not skipped. *)
Lemma applyFix_replaces_despite_mismatch :
  Js.trim "a" <> oldCode Scenario.paddedOldText /\
  ~ skipsOnMismatch ["a"] Scenario.paddedOldText /\
  fs (applyFix 0 (Scenario.project "a" Scenario.paddedFix)).2 !! "/app/src/App.tsx"
  = Some (RegularFile "b" true true).
Proof.
  split; [discriminate|]. split; [|reflexivity].
  intros H. specialize (H "a" eq_refl eq_refl). discriminate H. discriminate.
Qed.

(** C5 (amended): on an existing file that can be read and written, and
    for a fix record that is as declared (integer line numbers, every field
    there), [applyFix] takes the changes by
    decreasing line number; a change whose line number is in range replaces
    that line by the new text when the trimmed line equals the trimmed old
    text, and otherwise is skipped with a warning; no other line changes.
    A fix whose only change matches puts the new text on that line and keeps
    the rest; a fix whose only change does not match leaves the file as it
    was. *)
Theorem applyFix_line_replacements w fixRef codeFix content :
  fixes w !! fixRef = Some (parsed codeFix) ->
  fs w !! resolve w (file codeFix) = Some (RegularFile content true true) ->
  exists w',
    applyFix fixRef w = (Ok true, w') /\
    fs w' = <[resolve w (file codeFix) :=
                RegularFile
                  (Js.join_lines
                     (fold_left applyChange (sort_desc (changes codeFix))
                        (Js.split_lines content))) true true]> (fs w) /\
    console_out w'
    = console_out w ++ warnings (sort_desc (changes codeFix)) (Js.split_lines content) /\
    (forall lines change,
       inRange change lines = true ->
       exists l,
         lines !! Z.to_nat (change_line change - 1) = Some l /\
         (Js.trim l = Js.trim (oldCode change) ->
          applyChange lines change
          = <[Z.to_nat (change_line change - 1) := newCode change]> lines) /\
         (Js.trim l <> Js.trim (oldCode change) ->
          applyChange lines change = lines /\
          warnings [change] lines = [mismatchWarning change]) /\
         (forall j, j <> Z.to_nat (change_line change - 1) ->
                    applyChange lines change !! j = lines !! j)) /\
    (forall change l,
       changes codeFix = [change] ->
       inRange change (Js.split_lines content) = true ->
       Js.split_lines content !! Z.to_nat (change_line change - 1) = Some l ->
       (Js.trim l = Js.trim (oldCode change) ->
        fs w' !! resolve w (file codeFix)
        = Some (RegularFile
                  (Js.join_lines
                     (<[Z.to_nat (change_line change - 1) := newCode change]>
                        (Js.split_lines content))) true true)) /\
       (Js.trim l <> Js.trim (oldCode change) ->
        fs w' = fs w /\
        console_out w' = console_out w ++ [mismatchWarning change])).
Proof.
  intros Hfix Hfile.
  destruct (applyFix_run w fixRef codeFix content Hfix Hfile)
    as (w' & Hrun & Hfs & Hlog & _).
  exists w'. split; [exact Hrun|]. split; [exact Hfs|]. split; [exact Hlog|]. split.
  - intros lines change Hin.
    destruct (applyChange_spec lines change) as (_ & Hspec & Hother & _).
    destruct (Hspec Hin) as (l & Hl & Heq & Hne).
    exists l. auto.
  - intros change l Hone Hin Hl.
    destruct (applyChange_spec (Js.split_lines content) change) as (_ & Hspec & _).
    destruct (Hspec Hin) as (l' & Hl' & Heq & Hne).
    rewrite Hl in Hl'. injection Hl' as <-.
    rewrite Hone in Hfs, Hlog. cbn [sort_desc insert_desc fold_left] in Hfs, Hlog. split.
    + intros Hm. rewrite Hfs, (Heq Hm). apply lookup_insert_eq.
    + intros Hm. destruct (Hne Hm) as [Hkeep Hwarn].
      rewrite Hfs, Hlog, Hkeep, Hwarn, JsFacts.join_split.
      split; [apply insert_id; exact Hfile | reflexivity].
Qed.

Lemma applyFix_line_replacements_witness :
  exists w',
    applyFix 0 (Scenario.project Scenario.tenLines Scenario.nullToObject) = (Ok true, w') /\
    fs w' !! "/app/src/App.tsx"
    = Some (RegularFile
              ("l1" +:+ Js.nl +:+ "l2" +:+ Js.nl +:+ "l3" +:+ Js.nl +:+ "l4" +:+ Js.nl +:+
               "l5" +:+ Js.nl +:+ "l6" +:+ Js.nl +:+ "l7" +:+ Js.nl +:+ "l8" +:+ Js.nl +:+
               "l9" +:+ Js.nl +:+ "const x = {};") true true).
Proof.
  destruct (applyFix_line_replacements
              (Scenario.project Scenario.tenLines Scenario.nullToObject) 0
              Scenario.nullToObject Scenario.tenLines eq_refl eq_refl)
    as (w' & Hrun & Hfs & _).
  exists w'. split; [exact Hrun|]. rewrite Hfs. reflexivity.
Defined.

(** The example of the specification with an old text that does not match:
    the file stays as it was and one warning is written. *)
Example wrongOldText_unchanged :
  (applyFix 0 (Scenario.project Scenario.tenLines Scenario.wrongOldText)).1 = Ok true /\
  fs (applyFix 0 (Scenario.project Scenario.tenLines Scenario.wrongOldText)).2
  = fs (Scenario.project Scenario.tenLines Scenario.wrongOldText) /\
  console_out (applyFix 0 (Scenario.project Scenario.tenLines Scenario.wrongOldText)).2
  = ["Line 10 does not match expected content. Skipping."].
Proof.
  destruct (applyFix_run (Scenario.project Scenario.tenLines Scenario.wrongOldText) 0
              Scenario.wrongOldText Scenario.tenLines eq_refl eq_refl)
    as (w' & Hrun & Hfs & Hlog & _).
  rewrite Hrun. simpl. split; [reflexivity|]. rewrite Hfs, Hlog. split; [|reflexivity].
  apply insert_id. reflexivity.
Qed.

End FixTheorems.

(** ** The fix-and-retest loop *)

Module LoopFacts.

Import Server Notions HeapFacts.

Lemma keeps_read r : keeps_heap (read r).
Proof. intros w. unfold read. destruct (deref r w); reflexivity. Qed.

Lemma keeps_read_fix r : keeps_heap (read_fix r).
Proof. intros w. unfold read_fix. destruct (fixes w !! r); reflexivity. Qed.

Lemma keeps_alloc_fix f : keeps_heap (alloc_fix f).
Proof. intros w. reflexivity. Qed.

Lemma keeps_set_fixes f : keeps_heap (modify (fun w => set_fixes (f w) w)).
Proof. intros w. reflexivity. Qed.

Lemma keeps_readFile path : keeps_heap (Gemini.readFile path).
Proof.
  intros w. unfold Gemini.readFile.
  destruct (fs w !! path) as [[c [] wr|]|]; reflexivity.
Qed.

Lemma keeps_writeFile path content : keeps_heap (Gemini.writeFile path content).
Proof.
  intros w. unfold Gemini.writeFile.
  destruct (fs w !! path) as [[c rd []|]|]; reflexivity.
Qed.

Lemma keeps_defined {A} (o : option A) : keeps_heap (Gemini.defined o).
Proof. intros w. destruct o; reflexivity. Qed.

#[export] Hint Resolve keeps_read keeps_read_fix keeps_alloc_fix keeps_set_fixes
  keeps_readFile keeps_writeFile keeps_defined : heap.

Lemma keeps_applyChanges changes lines : keeps_heap (Gemini.applyChanges changes lines).
Proof.
  revert lines. induction changes as [|change rest IH]; intros lines;
    cbn [Gemini.applyChanges]; keeps.
Qed.

#[export] Hint Resolve keeps_applyChanges : heap.

Lemma keeps_applyFix fixRef : keeps_heap (Gemini.applyFix fixRef).
Proof. unfold Gemini.applyFix, Gemini.existsSync, update_fix. keeps. Qed.

Lemma keeps_generateFix errors fileContent filePath :
  keeps_heap (Gemini.generateFix errors fileContent filePath).
Proof. unfold Gemini.generateFix. keeps. Qed.

#[export] Hint Resolve keeps_applyFix keeps_generateFix : heap.

Lemma keeps_fileContext errors : keeps_heap (Cursor.fileContext errors).
Proof. unfold Cursor.fileContext, Gemini.existsSync. keeps. Qed.

#[export] Hint Resolve keeps_fileContext : heap.

(** Asking for a fix and applying it makes no collection. *)
Lemma keeps_fixError error : keeps_heap (Cursor.fixError error).
Proof. unfold Cursor.fixError. keeps. Qed.

(** Setting the browser up changes neither the configuration nor the
    collections. *)
Lemma ensureBrowser_frame w :
  config (ensureBrowser w).2 = config w /\ heap (ensureBrowser w).2 = heap w.
Proof.
  unfold ensureBrowser. destruct (browser w); [split; reflexivity|].
  unfold Browser.initialize, try_catch, request, Browser.the_browser,
    Browser.put_browser, console_write, modify, gets, mbind, M_bind, mret, M_ret.
  simpl.
  destruct (outcome (env w (ConnectCDP :: trace w))); simpl; [split; reflexivity|].
  match goal with |- context [outcome ?r] => destruct (outcome r) end;
    simpl; split; reflexivity.
Qed.

(** The loop, one turn unfolded. *)
Lemma retest_unfold feature maxIterations iteration lastResult w :
  retest feature maxIterations iteration lastResult w =
  if Z_lt_dec iteration maxIterations then
    match Runner.testFeature (withDefaultUrl feature w) w with
    | (Throw e, w1) => (Throw e, w1)
    | (Ok result, w1) =>
        if Runner.success result
        then (Ok (Passed (Runner.feature result) (iteration + 1)), w1)
        else match Cursor.fixError (Runner.errors result) w1 with
             | (Throw e, w2) => (Throw e, w2)
             | (Ok fixResult, w2) =>
                 if Cursor.success fixResult
                 then retest feature maxIterations (iteration + 1) (Some result)
                        (sleep 2000 w2).2
                 else (Ok (FixFailed (Runner.feature result) (iteration + 1)
                             (Cursor.error fixResult)
                             (deref (Runner.errors result) w2)), w2)
             end
    end
  else (Ok (Exhausted (Runner.feature <$> lastResult) maxIterations
              (lastResult ≫= fun r => deref (Runner.errors r) w)), w).
Proof.
  rewrite retest_equation_1.
  destruct (Z_lt_dec iteration maxIterations); [|reflexivity].
  simpl. destruct (Runner.testFeature (withDefaultUrl feature w) w) as [[result|e] w1];
    [|reflexivity].
  simpl. destruct (Runner.success result); [reflexivity|].
  simpl. destruct (Cursor.fixError (Runner.errors result) w1) as [[fixResult|e] w2];
    [|reflexivity].
  simpl. destruct (Cursor.success fixResult); reflexivity.
Qed.

(** A pass always returns and makes exactly one collection. *)
Lemma testFeature_one_attempt feature w :
  exists result w',
    Runner.testFeature feature w = (Ok result, w') /\ attempts w w' = 1.
Proof.
  destruct (VerdictFacts.testFeature_grows feature w) as (result & w' & Hrun & Hlen).
  exists result, w'. split; [exact Hrun|]. unfold attempts. lia.
Qed.

(** Counting the passes of the loop from [iteration] on. *)
Lemma retest_count feature maxIterations n :
  forall iteration lastResult w res w',
    Z.to_nat (maxIterations - iteration) = n ->
    retest feature maxIterations iteration lastResult w = (res, w') ->
    0 <= attempts w w' <= Z.max 0 (maxIterations - iteration) /\
    forall report, res = Ok report ->
      (iteration < maxIterations ->
       iterations report = iteration + attempts w w' /\ 1 <= attempts w w') /\
      (maxIterations <= iteration ->
       iterations report = maxIterations /\ attempts w w' = 0).
Proof.
  induction n as [|n IH]; intros iteration lastResult w res w' Hn;
    rewrite retest_unfold; destruct (Z_lt_dec iteration maxIterations) as [Hlt|Hge];
    try lia.
  - intros H. injection H as <- <-. unfold attempts. split; [lia|].
    intros report H. injection H as <-. simpl. split; lia.
  - destruct (testFeature_one_attempt (withDefaultUrl feature w) w)
      as (result & w1 & -> & Hone).
    destruct (Runner.success result).
    { intros H. injection H as <- <-. split; [lia|].
      intros report H. injection H as <-. simpl. split; lia. }
    pose proof (keeps_fixError (Runner.errors result) w1) as Hfix.
    destruct (Cursor.fixError (Runner.errors result) w1) as [[fixResult|e] w2];
      simpl in Hfix.
    2:{ intros H. injection H as <- <-. unfold attempts in *. rewrite Hfix.
        split; [lia|]. intros report H. discriminate. }
    destruct (Cursor.success fixResult).
    2:{ intros H. injection H as <- <-. unfold attempts in *. rewrite Hfix.
        split; [lia|]. intros report H. injection H as <-. simpl. split; lia. }
    intros H. apply IH in H; [|lia].
    assert (Hsleep : heap (sleep 2000 w2).2 = heap w2) by reflexivity.
    unfold attempts in *. rewrite Hsleep, Hfix in H.
    destruct H as [Hbound Hreport]. split; [lia|].
    intros report ->. destruct (Hreport report eq_refl) as [Hin Hout].
    split; [|lia]. intros _.
    destruct (Z_lt_dec (iteration + 1) maxIterations) as [Hmore|Hlast].
    + destruct (Hin Hmore). lia.
    + destruct (Hout ltac:(lia)). lia.
Qed.

End LoopFacts.

Module LoopTheorems.

Import Server Notions HeapFacts LoopFacts.

(** C3, as stated, fails on the code: a negative [maxIterations] is taken as
    it is; no pass is run and the report carries that bound as its iteration
    count. *)
Lemma handleFixAndRetest_negative_bound :
  ~ boundedIterations (Scenario.retestLogin (Some (-1))) Scenario.nothingFound.
Proof.
  intros H.
  assert (Hrun : handleFixAndRetest (Scenario.retestLogin (Some (-1))) Scenario.nothingFound
                 = (Ok (Exhausted None (-1) None),
                    (handleFixAndRetest (Scenario.retestLogin (Some (-1)))
                       Scenario.nothingFound).2))
    by (vm_compute; reflexivity).
  destruct (H _ _ Hrun) as [_ [Hlow _]]. simpl in Hlow. lia.
Qed.

(** C3 (amended): when the bound in force is at least one, every report of
    the tool carries an iteration count between one and the bound, and that
    count is the number of passes run. *)
Theorem handleFixAndRetest_bounded args w report w' :
  1 <= configuredMaximum args w ->
  handleFixAndRetest args w = (Ok report, w') ->
  attempts w w' = iterations report /\
  1 <= iterations report <= configuredMaximum args w.
Proof.
  unfold configuredMaximum, handleFixAndRetest. intros Hmax H.
  apply MFacts.bind_inv in H as ([] & w1 & Hsetup & H).
  apply MFacts.bind_inv in H as (v & w2 & Hserver & H).
  apply MFacts.bind_inv in H as (cfg & w3 & Hcfg & H).
  unfold gets in Hcfg. injection Hcfg as <- <-.
  destruct (ensureBrowser_frame w) as [Hc1 Hh1]. rewrite Hsetup in Hc1, Hh1.
  simpl in Hc1, Hh1.
  assert (Hc2 : config w2 = config w1).
  { unfold request in Hserver. simpl in Hserver. injection Hserver as _ <-. reflexivity. }
  assert (Hh2 : heap w2 = heap w1).
  { unfold request in Hserver. simpl in Hserver. injection Hserver as _ <-. reflexivity. }
  rewrite Hc2, Hc1 in H.
  eapply retest_count in H; [|reflexivity].
  destruct H as [Hbound Hreport].
  destruct (Hreport report eq_refl) as [Hin _].
  unfold attempts in *. rewrite Hh2, Hh1 in *.
  destruct Hin as [Hit Hone]; lia.
Qed.

Lemma handleFixAndRetest_bounded_witness :
  1 <= configuredMaximum (Scenario.retestLogin (Some 3)) Scenario.stuck /\
  attempts Scenario.stuck
    (handleFixAndRetest (Scenario.retestLogin (Some 3)) Scenario.stuck).2 = 3 /\
  1 <= 3 <= configuredMaximum (Scenario.retestLogin (Some 3)) Scenario.stuck.
Proof.
  assert (Hmax : 1 <= configuredMaximum (Scenario.retestLogin (Some 3)) Scenario.stuck)
    by (vm_compute; discriminate).
  split; [exact Hmax|].
  refine (handleFixAndRetest_bounded (Scenario.retestLogin (Some 3)) Scenario.stuck
            (Exhausted (Some "login") 3
               (deref 2 (handleFixAndRetest (Scenario.retestLogin (Some 3))
                           Scenario.stuck).2))
            _ Hmax _).
  vm_compute. reflexivity.
Defined.

(** The three scenarios of the specification. *)
Example passes_at_once :
  (handleFixAndRetest (Scenario.retestLogin None) Scenario.allFine).1
  = Ok (Passed "login" 1).
Proof. vm_compute. reflexivity. Qed.

Example no_fix_generated :
  exists errors,
    (handleFixAndRetest (Scenario.retestLogin None) Scenario.nothingFound).1
    = Ok (FixFailed "login" 1 (Some "Could not generate fix for the error") errors).
Proof. eexists. vm_compute. reflexivity. Qed.

Example exhausted_after_three :
  exists errors,
    (handleFixAndRetest (Scenario.retestLogin (Some 3)) Scenario.stuck).1
    = Ok (Exhausted (Some "login") 3 errors).
Proof. eexists. vm_compute. reflexivity. Qed.

(** [applyFix] reports, it does not throw. *)
Lemma applyFix_returns fixRef w :
  exists applied w', Gemini.applyFix fixRef w = (Ok applied, w').
Proof.
  unfold Gemini.applyFix.
  edestruct (MFacts.try_returns (A := bool)) with (P := fun _ : bool => True)
    as (applied & w' & Hrun & _); [| |eauto].
  - auto.
  - intros e w0. eexists _, _. split; [reflexivity | exact I].
Qed.

(** [fixError] reports success as soon as [applyFix] returned [true]. *)
Lemma fixError_success error w0 errors filePath fileContent w1 fixRef w2 w3 :
  deref error w0 = Some errors ->
  Cursor.fileContext errors w0 = (Ok (filePath, fileContent), w1) ->
  Gemini.generateFix errors fileContent filePath w1 = (Ok (Some fixRef), w2) ->
  Gemini.applyFix fixRef w2 = (Ok true, w3) ->
  Cursor.fixError error w0
  = (Ok {| Cursor.success := true; Cursor.codeFix := Some fixRef;
           Cursor.error := None |}, w3).
Proof.
  intros Herr Hctx Hgen Happ. unfold Cursor.fixError. apply MFacts.try_ok.
  erewrite MFacts.bind_ok by (unfold read; rewrite Herr; reflexivity).
  cbv beta. erewrite MFacts.bind_ok by exact Hctx.
  cbv beta iota. erewrite MFacts.bind_ok by exact Hgen.
  cbv beta iota. erewrite MFacts.bind_ok by exact Happ.
  reflexivity.
Qed.

(** C10, as stated, fails on the code: the line number of a fix record is
    whatever number the answer held. A change for line 1.5 of a file that is
    there and can be read and written passes the range test, finds nothing
    at index 0.5, and [applyFix] returns [false] with the file as it was. *)
Lemma applyFix_false_on_sound_file :
  fs Scenario.halfLine !! "/app/src/App.tsx"
  = Some (RegularFile Scenario.tenLines true true) /\
  Gemini.applyFix 0 Scenario.halfLine
  = (Ok false, (Gemini.applyFix 0 Scenario.halfLine).2) /\
  fs (Gemini.applyFix 0 Scenario.halfLine).2 = fs Scenario.halfLine /\
  ~ falseOnlyFromFile 0 Scenario.halfLine.
Proof.
  assert (Hfile : fs Scenario.halfLine !! "/app/src/App.tsx"
                  = Some (RegularFile Scenario.tenLines true true)) by reflexivity.
  assert (Hrun : Gemini.applyFix 0 Scenario.halfLine
                 = (Ok false, (Gemini.applyFix 0 Scenario.halfLine).2))
    by (vm_compute; reflexivity).
  split; [exact Hfile|]. split; [exact Hrun|]. split; [vm_compute; reflexivity|].
  intros H.
  destruct (H Scenario.betweenLines "src/App.tsx" _ eq_refl eq_refl Hrun)
    as [Hnone|[Hread|Hwrite]].
  - change (resolve Scenario.halfLine "src/App.tsx") with "/app/src/App.tsx" in Hnone.
    rewrite Hfile in Hnone. discriminate Hnone.
  - eapply FixFacts.readThrows_readable; [exact Hfile | exact Hread].
  - eapply FixFacts.writeThrows_writable; [exact Hfile | exact Hwrite].
Qed.

(** C10 (amended): a fix record that is as declared and none of whose
    changes applies still makes [applyFix] return [true] with the file as it
    was, [fixError] then reports success and the loop goes on to its next
    turn. [applyFix] always returns; for a parsed record whose line numbers
    are numbers and whose new texts are strings it returns [false] exactly
    when the record names no file, the file is missing, reading or writing
    it throws, or the file is fine and the record has no changes or a change
    that breaks: one whose line number is in range and is not an integer or
    comes without old text. *)
Theorem unchanged_file_counts_as_fixed w fixRef codeFix content :
  fixes w !! fixRef = Some (parsed codeFix) ->
  fs w !! resolve w (file codeFix) = Some (RegularFile content true true) ->
  noneApplies (changes codeFix) (Js.split_lines content) ->
  exists w',
    Gemini.applyFix fixRef w = (Ok true, w') /\
    fs w' = fs w /\
    (forall error w0 errors filePath fileContent w1,
       deref error w0 = Some errors ->
       Cursor.fileContext errors w0 = (Ok (filePath, fileContent), w1) ->
       Gemini.generateFix errors fileContent filePath w1 = (Ok (Some fixRef), w) ->
       Cursor.fixError error w0
       = (Ok {| Cursor.success := true; Cursor.codeFix := Some fixRef;
                Cursor.error := None |}, w') /\
       forall feature maxIterations iteration lastResult wt result,
         iteration < maxIterations ->
         Runner.testFeature (withDefaultUrl feature wt) wt = (Ok result, w0) ->
         Runner.success result = false ->
         Runner.errors result = error ->
         retest feature maxIterations iteration lastResult wt
         = retest feature maxIterations (iteration + 1) (Some result)
             (sleep 2000 w').2) /\
    (forall w0 ref,
       exists applied w0',
         Gemini.applyFix ref w0 = (Ok applied, w0') /\
         forall cf,
           fixes w0 !! ref = Some cf ->
           (applied = false <-> troubled cf w0)).
Proof.
  intros Hfix Hfile Hnone.
  destruct (FixFacts.applyFix_run w fixRef codeFix content Hfix Hfile)
    as (w' & Hrun & Hfs & _).
  exists w'. split; [exact Hrun|]. split; [|split].
  - rewrite Hfs.
    destruct (FixFacts.fold_noneApplies (Gemini.sort_desc (changes codeFix))
                (Js.split_lines content)) as [-> _].
    { apply FixFacts.Forall_sort_desc. exact Hnone. }
    rewrite JsFacts.join_split. apply insert_id. exact Hfile.
  - intros error w0 errors filePath fileContent w1 Herr Hctx Hgen.
    pose proof (fixError_success _ _ _ _ _ _ _ _ _ Herr Hctx Hgen Hrun) as Hfixed.
    split; [exact Hfixed|].
    intros feature maxIterations iteration lastResult wt result Hlt Htest Hfail <-.
    rewrite retest_unfold. destruct (Z_lt_dec iteration maxIterations); [|lia].
    rewrite Htest, Hfail, Hfixed. reflexivity.
  - intros w0 ref. destruct (applyFix_returns ref w0) as (applied & w0' & Hrun0).
    exists applied, w0'. split; [exact Hrun0|].
    intros cf Hcf.
    destruct (FixFacts.applyFix_false_iff w0 ref cf Hcf) as (applied' & w1 & Hrun1 & Hiff).
    rewrite Hrun0 in Hrun1. injection Hrun1 as <- _. exact Hiff.
Qed.

Lemma unchanged_file_counts_as_fixed_witness :
  noneApplies (changes Scenario.wrongOldText) (Js.split_lines Scenario.tenLines) /\
  exists w',
    Gemini.applyFix 0 Scenario.afterGenerate = (Ok true, w') /\
    fs w' = fs Scenario.afterGenerate /\
    Cursor.fixError 0 Scenario.afterFirstPass
    = (Ok {| Cursor.success := true; Cursor.codeFix := Some 0%nat;
             Cursor.error := None |}, w').
Proof.
  assert (Hnone : noneApplies (changes Scenario.wrongOldText)
                    (Js.split_lines Scenario.tenLines))
    by (repeat constructor).
  assert (Hfix : fixes Scenario.afterGenerate !! 0%nat
                 = Some (parsed Scenario.wrongOldText))
    by (vm_compute; reflexivity).
  assert (Hfile : fs Scenario.afterGenerate
                    !! resolve Scenario.afterGenerate (file Scenario.wrongOldText)
                  = Some (RegularFile Scenario.tenLines true true))
    by (vm_compute; reflexivity).
  assert (Herr : deref 0 Scenario.afterFirstPass = Some Scenario.firstErrors)
    by (vm_compute; reflexivity).
  assert (Hctx : Cursor.fileContext Scenario.firstErrors Scenario.afterFirstPass
                 = (Ok (None, None), Scenario.afterFirstPass))
    by (vm_compute; reflexivity).
  assert (Hgen : Gemini.generateFix Scenario.firstErrors None None Scenario.afterFirstPass
                 = (Ok (Some 0%nat), Scenario.afterGenerate))
    by (vm_compute; reflexivity).
  split; [exact Hnone|].
  destruct (unchanged_file_counts_as_fixed Scenario.afterGenerate 0
              Scenario.wrongOldText Scenario.tenLines Hfix Hfile Hnone)
    as (w' & Hrun & Hfs & Hreport & _).
  exists w'. split; [exact Hrun|]. split; [exact Hfs|].
  exact (proj1 (Hreport _ _ _ _ _ _ Herr Hctx Hgen)).
Defined.

(** The record of the counterexample is trouble of the last kind: the file
    is fine, and the change for line 1.5 is in range and breaks. *)
Example half_line_is_trouble :
  troubled Scenario.betweenLines Scenario.halfLine /\
  ~ fileTrouble "/app/src/App.tsx" Scenario.halfLine.
Proof.
  split.
  - right. exists Scenario.tenLines. split; [reflexivity|]. repeat constructor.
  - intros [Hnone|[Hread|Hwrite]].
    + discriminate Hnone.
    + eapply FixFacts.readThrows_readable; [|exact Hread]. reflexivity.
    + eapply FixFacts.writeThrows_writable; [|exact Hwrite]. reflexivity.
Qed.

End LoopTheorems.

(** ** Selectors and values inside the script *)

Module LexicalFacts.

Import Validator Lexical.

Lemma append_assoc (a b c : string) : (a +:+ b) +:+ c = a +:+ (b +:+ c).
Proof.
  induction a as [|x a IH]; [reflexivity|].
  change (String x ((a +:+ b) +:+ c) = String x (a +:+ (b +:+ c))).
  rewrite IH. reflexivity.
Qed.

(** A plain string is read back whole, up to the quote that follows it. *)
Lemma literal_plain s rest :
  plain s = true -> literal (s +:+ String quote rest) = Some (s, rest).
Proof.
  induction s as [|c s IH]; simpl; intros Hs.
  - reflexivity.
  - apply andb_true_iff in Hs as [Hs Hrest].
    apply andb_true_iff in Hs as [Hs Hterm].
    apply andb_true_iff in Hs as [Hq Hb].
    apply negb_true_iff in Hq, Hb, Hterm. rewrite Hq, Hb, Hterm, (IH Hrest).
    reflexivity.
Qed.

(** The action script for [type] is the value between the two pieces. *)
Lemma getActionScript_type rule :
  action rule = Some type_text ->
  getActionScript rule = typeHead +:+ afterValueQuote rule.
Proof. intros H. unfold getActionScript. rewrite H. reflexivity. Qed.

Lemma tokens_cons c s :
  tokens (String c s)
  = if Ascii.eqb c quote then inLiteral s else codeChar c (tokens s).
Proof. reflexivity. Qed.

Lemma inLiteral_cons c s :
  inLiteral (String c s)
  = if Ascii.eqb c quote then Literal EmptyString :: tokens s
    else if Ascii.eqb c backslash then
      match s with
      | String d s'' => literalChar c (literalChar d (inLiteral s''))
      | EmptyString => [Unterminated (String c EmptyString)]
      end
    else if Cursor.is_terminator c then [Unterminated EmptyString]
    else literalChar c (inLiteral s).
Proof. reflexivity. Qed.

Lemma literalChar_first c ts : literalFirst ts -> literalFirst (literalChar c ts).
Proof. destruct ts as [|[] ts]; auto. Qed.

Lemma inLiteral_first_two s :
  literalFirst (inLiteral s) /\ forall c, literalFirst (inLiteral (String c s)).
Proof.
  induction s as [|d s [IH1 IH2]].
  - split; [exact I|]. intros c. rewrite inLiteral_cons.
    destruct (Ascii.eqb c quote); [exact I|].
    destruct (Ascii.eqb c backslash); [exact I|].
    destruct (Cursor.is_terminator c); exact I.
  - split; [apply IH2|]. intros c. rewrite inLiteral_cons.
    destruct (Ascii.eqb c quote); [exact I|].
    destruct (Ascii.eqb c backslash);
      [apply literalChar_first, literalChar_first, IH1|].
    destruct (Cursor.is_terminator c); [exact I|].
    apply literalChar_first, IH2.
Qed.

Lemma codeChar_literal c ts :
  literalFirst ts -> codeChar c ts = Code (String c EmptyString) :: ts.
Proof. destruct ts as [|[] ts]; simpl; intros H; (contradiction || reflexivity). Qed.

(** Script text without a quote is one token, and the quote after it opens
    a literal. *)
Lemma tokens_code code rest :
  noQuote code = true -> code <> EmptyString ->
  tokens (code +:+ String quote rest) = Code code :: inLiteral rest.
Proof.
  induction code as [|c code IH]; [congruence|]. cbn [noQuote]. intros H _.
  apply andb_true_iff in H as [Hc Hq]. apply negb_true_iff in Hc.
  change (String c code +:+ String quote rest)
    with (String c (code +:+ String quote rest)).
  rewrite tokens_cons, Hc. destruct code as [|d code].
  - change (EmptyString +:+ String quote rest) with (String quote rest).
    rewrite tokens_cons. change (Ascii.eqb quote quote) with true. cbv iota.
    apply codeChar_literal, inLiteral_first_two.
  - rewrite IH by (assumption || discriminate). reflexivity.
Qed.

Lemma tokens_end code :
  noQuote code = true -> code <> EmptyString -> tokens code = [Code code].
Proof.
  induction code as [|c code IH]; [congruence|]. cbn [noQuote]. intros H _.
  apply andb_true_iff in H as [Hc Hq]. apply negb_true_iff in Hc.
  rewrite tokens_cons, Hc. destruct code as [|d code]; [reflexivity|].
  rewrite IH by (assumption || discriminate). reflexivity.
Qed.

(** Inside a literal, a plain string is its body up to the quote that
    follows it, and script text goes on after that quote. *)
Lemma inLiteral_plain s rest :
  plain s = true -> inLiteral (s +:+ String quote rest) = Literal s :: tokens rest.
Proof.
  induction s as [|c s IH]; [reflexivity|]. cbn [plain]. intros Hs.
  apply andb_true_iff in Hs as [Hs Hrest].
  apply andb_true_iff in Hs as [Hs Hterm].
  apply andb_true_iff in Hs as [Hq Hb].
  apply negb_true_iff in Hq, Hb, Hterm.
  change (String c s +:+ String quote rest) with (String c (s +:+ String quote rest)).
  rewrite inLiteral_cons, Hq, Hb, Hterm, (IH Hrest). reflexivity.
Qed.

(** The two readers agree: where [literal] finds the closing quote,
    [inLiteral] gives the same body and goes on from the same place. *)
Lemma inLiteral_literal_two s :
  (forall body rest, literal s = Some (body, rest) ->
     inLiteral s = Literal body :: tokens rest) /\
  (forall c body rest, literal (String c s) = Some (body, rest) ->
     inLiteral (String c s) = Literal body :: tokens rest).
Proof.
  induction s as [|d s [IH1 IH2]].
  - split; [discriminate|]. intros c body rest. rewrite inLiteral_cons. cbn [literal].
    destruct (Ascii.eqb c quote); [intros [= <- <-]; reflexivity|].
    destruct (Ascii.eqb c backslash); [discriminate|].
    destruct (Cursor.is_terminator c); discriminate.
  - split; [apply IH2|]. intros c body rest. rewrite inLiteral_cons.
    change (literal (String c (String d s)))
      with (if Ascii.eqb c quote then Some (EmptyString, String d s)
            else if Ascii.eqb c backslash then
              match literal s with
              | Some (body, rest) => Some (String c (String d body), rest)
              | None => None
              end
            else if Cursor.is_terminator c then None
            else match literal (String d s) with
                 | Some (body, rest) => Some (String c body, rest)
                 | None => None
                 end).
    destruct (Ascii.eqb c quote); [intros [= <- <-]; reflexivity|].
    destruct (Ascii.eqb c backslash).
    + destruct (literal s) as [[body' rest']|] eqn:Hs; [|discriminate].
      intros [= <- <-]. rewrite (IH1 _ _ eq_refl). reflexivity.
    + destruct (Cursor.is_terminator c); [discriminate|].
      destruct (literal (String d s)) as [[body' rest']|] eqn:Hs; [|discriminate].
      intros [= <- <-]. rewrite (IH2 d _ _ Hs). reflexivity.
Qed.

Lemma inLiteral_literal s body rest :
  literal s = Some (body, rest) -> inLiteral s = Literal body :: tokens rest.
Proof. apply inLiteral_literal_two. Qed.

(** The script starts with the template's text up to the selector's
    literal. *)
Lemma tokens_interactionScript rule :
  tokens (interactionScript rule) = Code toSelector :: inLiteral (afterHead rule).
Proof.
  unfold interactionScript, afterHead.
  change (script_head +:+ ?x) with (toSelector +:+ String quote x).
  apply tokens_code; [vm_compute; reflexivity | discriminate].
Qed.

(** What follows the selector's literal when the action is [type]. *)
Lemma afterSelector_type rule :
  action rule = Some type_text ->
  afterSelector rule
  = toMessage +:+ String quote
      ("Element not found" +:+ String quote
         (toValue +:+ String quote
            (Js.or_else (value rule) "" +:+ typeTail +:+ script_tail))).
Proof.
  intros Htype. unfold afterSelector. rewrite (getActionScript_type rule Htype).
  unfold afterValueQuote. rewrite !append_assoc. reflexivity.
Qed.

Lemma tokens_afterSelector_type rule :
  action rule = Some type_text ->
  tokens (afterSelector rule)
  = [Code toMessage; Literal "Element not found"; Code toValue]
    ++ inLiteral (Js.or_else (value rule) "" +:+ typeTail +:+ script_tail).
Proof.
  intros Htype. rewrite (afterSelector_type rule Htype).
  rewrite tokens_code by (vm_compute; reflexivity || discriminate).
  rewrite inLiteral_plain by reflexivity.
  rewrite tokens_code by (vm_compute; reflexivity || discriminate).
  reflexivity.
Qed.

Lemma tokens_typeTail :
  tokens ("; element.dispatchEvent(new Event('input', { bubbles: true }));"
          +:+ script_tail)
  = [Code toEventName; Literal "input"; Code toEnd].
Proof. vm_compute. reflexivity. Qed.

(** C4, as stated, fails on the code: nothing is neutralised, and a selector
    with a single quote closes the literal opened for it; what follows the
    quote is read as script. *)
Lemma selector_escapes_literal :
  interactionScript injected
    = script_head +:+ selector injected +:+ script_body +:+
      getActionScript injected +:+ script_tail /\
  ~ selectorContained injected /\
  exists rest,
    literal (afterHead injected) = Some ("x", rest) /\
    String.prefix "); fetch('/steal?c=' + document.cookie); ('" rest = true.
Proof.
  split; [reflexivity|]. split.
  - unfold selectorContained. vm_compute. discriminate.
  - eexists. split; vm_compute; reflexivity.
Qed.

(** C4 (amended): the selector and the value are spliced into the script as
    they are. A selector without single quote, backslash and line terminator
    stays inside its literal and is read back unchanged, and the script goes
    on with the template's own text; with such a selector and the action
    [type], a value without those characters is the body of its literal too,
    and the tokens of the whole script are the template's. At the first
    single quote after a prefix without those characters, in the selector or
    (under such a selector) in the value, the literal ends and the rest of
    the string is read as script. *)
Theorem plain_strings_stay_literal rule :
  interactionScript rule
    = script_head +:+ selector rule +:+ script_body +:+
      getActionScript rule +:+ script_tail /\
  (plain (selector rule) = true ->
   selectorContained rule /\
   tokens (interactionScript rule)
   = Code toSelector :: Literal (selector rule) :: tokens (afterSelector rule)) /\
  (action rule = Some type_text ->
   plain (Js.or_else (value rule) "") = true ->
   getActionScript rule = typeHead +:+ afterValueQuote rule /\ valueContained rule) /\
  (forall before after,
     plain before = true ->
     selector rule = before +:+ String quote after ->
     literal (afterHead rule)
     = Some (before, after +:+ script_body +:+ getActionScript rule +:+ script_tail) /\
     tokens (interactionScript rule)
     = Code toSelector :: Literal before ::
       tokens (after +:+ script_body +:+ getActionScript rule +:+ script_tail)) /\
  (action rule = Some type_text ->
   plain (selector rule) = true ->
   (plain (Js.or_else (value rule) "") = true ->
    tokens (interactionScript rule)
    = typeTokens (selector rule) (Js.or_else (value rule) "")) /\
   (forall before after,
      plain before = true ->
      Js.or_else (value rule) "" = before +:+ String quote after ->
      tokens (interactionScript rule)
      = toValueTokens (selector rule) before
        ++ tokens (after +:+ typeTail +:+ script_tail))).
Proof.
  assert (Hsel : plain (selector rule) = true ->
            literal (afterHead rule) = Some (selector rule, afterSelector rule)).
  { intros Hplain. unfold afterHead, afterSelector.
    apply (literal_plain (selector rule)). exact Hplain. }
  assert (Htok : plain (selector rule) = true ->
            tokens (interactionScript rule)
            = Code toSelector :: Literal (selector rule) :: tokens (afterSelector rule)).
  { intros Hplain. rewrite tokens_interactionScript.
    rewrite (inLiteral_literal _ _ _ (Hsel Hplain)). reflexivity. }
  split; [reflexivity|]. split; [|split; [|split]].
  - intros Hplain. split; [exact (Hsel Hplain) | exact (Htok Hplain)].
  - intros Htype Hplain. split; [apply getActionScript_type; exact Htype|].
    unfold valueContained, afterValueQuote.
    apply (literal_plain (Js.or_else (value rule) "")). exact Hplain.
  - intros before after Hplain Hcut.
    assert (Hlit : literal (afterHead rule)
              = Some (before,
                      after +:+ script_body +:+ getActionScript rule +:+ script_tail)).
    { unfold afterHead. rewrite Hcut, append_assoc.
      apply (literal_plain before). exact Hplain. }
    split; [exact Hlit|]. rewrite tokens_interactionScript.
    rewrite (inLiteral_literal _ _ _ Hlit). reflexivity.
  - intros Htype Hplain. rewrite (Htok Hplain), (tokens_afterSelector_type rule Htype).
    split.
    + intros Hvalue.
      change (typeTail +:+ script_tail)
        with (String quote
                ("; element.dispatchEvent(new Event('input', { bubbles: true }));"
                 +:+ script_tail)).
      rewrite (inLiteral_plain _ _ Hvalue), tokens_typeTail. reflexivity.
    + intros before after Hbefore Hcut. rewrite Hcut, append_assoc.
      change (String quote after +:+ typeTail +:+ script_tail)
        with (String quote (after +:+ typeTail +:+ script_tail)).
      rewrite (inLiteral_plain _ _ Hbefore). reflexivity.
Qed.

Lemma plain_strings_stay_literal_witness :
  plain (selector typeEmail) = true /\
  selectorContained typeEmail /\
  valueContained typeEmail /\
  tokens (interactionScript typeEmail) = typeTokens "#email" "user@example.com" /\
  literal (afterHead injected)
  = Some ("x", "); fetch('/steal?c=' + document.cookie); ('" +:+ script_body +:+
               getActionScript injected +:+ script_tail) /\
  tokens (interactionScript injectedValue)
  = toValueTokens "#email" "a"
    ++ tokens ("; document.title = 'x" +:+ typeTail +:+ script_tail).
Proof.
  destruct (plain_strings_stay_literal typeEmail) as (_ & Hsel & Hval & _ & Htype).
  destruct (plain_strings_stay_literal injected) as (_ & _ & _ & Hcut & _).
  destruct (plain_strings_stay_literal injectedValue) as (_ & _ & _ & _ & Hquote).
  split; [reflexivity|]. split; [apply Hsel; reflexivity|].
  split; [apply Hval; reflexivity|].
  split; [apply (proj1 (Htype eq_refl eq_refl)); reflexivity|].
  split; [apply (Hcut "x" "); fetch('/steal?c=' + document.cookie); ('"); reflexivity|].
  apply (proj2 (Hquote eq_refl eq_refl) "a" "; document.title = 'x"); reflexivity.
Defined.

(** The value of [injectedValue] leaves its literal after the [a]: the
    script then assigns to [document.title]. *)
Example value_escapes_literal :
  tokens (interactionScript injectedValue)
  = toValueTokens "#email" "a"
    ++ [ Code "; document.title = "; Literal "x";
         Code toEventName; Literal "input"; Code toEnd ].
Proof. vm_compute. reflexivity. Qed.

(** A single quote after a backslash does not end the literal: the literal
    still closes at the template's quote. *)
Example quote_after_backslash : selectorContained escapedQuote.
Proof. reflexivity. Qed.

(** The template's script text holds no quote of another kind and no slash,
    so every literal of the template is single-quoted and there is no
    comment in it. *)
Example template_single_quoted :
  Forall (fun code =>
            forallb (fun c => negb (Ascii.eqb c (ascii_of_nat 34))
                              && negb (Ascii.eqb c "`"%char)
                              && negb (Ascii.eqb c "/"%char))
                    (list_ascii_of_string code) = true)
         [toSelector; toMessage; toValue; toEventName; toEnd].
Proof. repeat constructor. Qed.

End LexicalFacts.

(** * Further properties of the code *)

(** ** The controller: navigation and initialisation *)

Module ControllerFacts.

Import Controller Session.

(** X1: on a controller with a session, [navigate] empties the buffer
    before loading: afterwards the buffer holds exactly the errors that
    arrived during the load, whether the load succeeded or threw, and the
    session is still there. *)
Theorem navigate_resets_buffer w b url :
  browser w = Some b ->
  live b = true ->
  exists b',
    browser (Browser.navigate url w).2 = Some b' /\
    Browser.buffered b' = arrivals (env w (Navigate url :: trace w)) /\
    live b' = true /\
    (Browser.navigate url w).1
    = match outcome (env w (Navigate url :: trace w)) with
      | Ok _ => Ok tt
      | Throw e => Throw e
      end.
Proof.
  intros Hb Hlive.
  destruct (outcome (env w (Navigate url :: trace w))) as [v|e] eqn:Hout.
  all: unfold Browser.navigate, Browser.the_browser, Browser.put_browser, request,
    modify, throw, mbind, M_bind, mret, M_ret, suspend.
  all: rewrite Hb; unfold live in Hlive.
  all: destruct b as [[[cl ces]|] [[pg pes]|] []]; cbn in *; subst; try discriminate.
  all: cbn; rewrite ?Hout; cbn; rewrite ?Hout; cbn.
  all: eexists; (split; [reflexivity|]); cbn; auto.
Qed.

Lemma navigate_resets_buffer_witness :
  exists b',
    browser (Browser.navigate "http://localhost:3000"
               Scenario.twoBuffered).2 = Some b' /\
    Browser.buffered b' = [] /\ live b' = true.
Proof.
  destruct (navigate_resets_buffer Scenario.twoBuffered
              (Scenario.cdpWith [Scenario.uncaught; Scenario.notFound])
              "http://localhost:3000" eq_refl eq_refl)
    as (b' & Hb & Hbuf & Hlive & _).
  exists b'. split; [exact Hb|]. split; [exact Hbuf | exact Hlive].
Defined.

(** X2: on a controller without a session, [navigate] and [evaluate] throw
    one of the three "not ready" errors and change nothing: no request is
    made and the buffer is not emptied. *)
Theorem navigate_without_session w b url :
  browser w = Some b ->
  live b = false ->
  exists e,
    notReady e /\
    Browser.navigate url w = (Throw e, w) /\
    Browser.evaluate url w = (Throw e, w).
Proof.
  intros Hb Hlive.
  unfold Browser.navigate, Browser.evaluate, Browser.the_browser, throw,
    mbind, M_bind, notReady.
  rewrite Hb. unfold live in Hlive.
  destruct b as [[[cl ces]|] [[pg pes]|] []]; simpl in *; subst;
    try discriminate; eexists; (split; [|split; reflexivity]); auto.
Qed.

Lemma navigate_without_session_witness :
  exists e,
    notReady e /\
    Browser.navigate "http://localhost:3000"
      (Scenario.world Scenario.quiet (Some Controller.fresh) ∅)
    = (Throw e, Scenario.world Scenario.quiet (Some Controller.fresh) ∅).
Proof.
  destruct (navigate_without_session
              (Scenario.world Scenario.quiet (Some Controller.fresh) ∅)
              Controller.fresh "http://localhost:3000" eq_refl eq_refl)
    as (e & He & Hnav & _).
  exists e. split; [exact He | exact Hnav].
Defined.

(** X3: the first [ensureBrowser] leaves a controller with an empty buffer.
    When it returns, the controller has exactly one client, with a session:
    the protocol client if connecting succeeded, the automation client
    otherwise. It throws only when both failed, with the launch error, and
    then leaves a controller without any client. *)
Theorem ensureBrowser_initialises w :
  browser w = None ->
  exists b',
    browser (Server.ensureBrowser w).2 = Some b' /\
    Browser.buffered b' = [] /\
    match (Server.ensureBrowser w).1 with
    | Ok _ =>
        oneClient b' /\ live b' = true /\
        (useCDP b' = true <-> exists v, outcome (env w (ConnectCDP :: trace w)) = Ok v)
    | Throw e =>
        clientless b' = true /\
        (exists e1, outcome (env w (ConnectCDP :: trace w)) = Throw e1) /\
        outcome (env w (LaunchPlaywright (browser_headless (config w))
                          :: ConnectCDP :: trace w)) = Throw e
    end.
Proof.
  intros Hb. unfold Server.ensureBrowser. rewrite Hb.
  destruct (outcome (env w (ConnectCDP :: trace w))) as [v1|e1] eqn:H1;
  [|destruct (outcome (env w (LaunchPlaywright (browser_headless (config w))
                          :: ConnectCDP :: trace w))) as [v2|e2] eqn:H2].
  all: unfold Browser.initialize, try_catch, request, Browser.the_browser,
    Browser.put_browser, console_write, modify, gets, mbind, M_bind, mret, M_ret,
    suspend.
  all: cbn; rewrite ?H1; cbn; rewrite ?H2; cbn.
  all: eexists; (split; [reflexivity|]); cbn; (split; [reflexivity|]).
  - split; [left; cbn; eauto|]. split; [reflexivity|]. split; eauto.
  - split; [right; cbn; eauto|]. split; [reflexivity|].
    split; [discriminate | intros [v Hv]; discriminate].
  - split; [reflexivity|]. split; eauto.
Qed.

Lemma ensureBrowser_initialises_witness :
  exists b',
    browser (Server.ensureBrowser (Cases.unstarted Scenario.quiet)).2 = Some b' /\
    Browser.buffered b' = [] /\ oneClient b' /\ live b' = true /\ useCDP b' = true.
Proof.
  destruct (ensureBrowser_initialises (Cases.unstarted Scenario.quiet) eq_refl)
    as (b' & Hb & Hbuf & Hres).
  exists b'. split; [exact Hb|]. split; [exact Hbuf|].
  change (Server.ensureBrowser (Cases.unstarted Scenario.quiet)).1
    with (@Ok unit tt) in Hres.
  destruct Hres as (Hone & Hlive & Hcdp).
  split; [exact Hone|]. split; [exact Hlive|]. apply Hcdp. eexists. reflexivity.
Defined.

(** A first [ensureBrowser] that throws leaves the controller in place,
    without a client. *)
Lemma ensureBrowser_failed w e w1 :
  browser w = None ->
  Server.ensureBrowser w = (Throw e, w1) ->
  exists b', browser w1 = Some b' /\ clientless b' = true.
Proof.
  intros Hb. unfold Server.ensureBrowser. rewrite Hb.
  destruct (outcome (env w (ConnectCDP :: trace w))) as [v1|e1] eqn:H1;
  [|destruct (outcome (env w (LaunchPlaywright (browser_headless (config w))
                          :: ConnectCDP :: trace w))) as [v2|e2] eqn:H2].
  all: unfold Browser.initialize, try_catch, request, Browser.the_browser,
    Browser.put_browser, console_write, modify, gets, mbind, M_bind, mret, M_ret,
    suspend.
  all: cbn; rewrite ?H1; cbn; rewrite ?H2; cbn.
  all: intros Hrun; try discriminate.
  injection Hrun as _ <-. eexists. split; reflexivity.
Qed.

(** X4: a failed initialisation is never retried. The controller object
    stays in place without a client, so the next [ensureBrowser] returns at
    once without any request, every [navigate] throws "Browser not
    initialized", and every test of a feature with a URL reports that error. *)
Theorem failed_initialisation_not_retried w e w1 :
  browser w = None ->
  Server.ensureBrowser w = (Throw e, w1) ->
  Server.ensureBrowser w1 = (Ok tt, w1) /\
  (forall url,
     Browser.navigate url w1 = (Throw (JsError "Browser not initialized"), w1)) /\
  (forall feature c s,
     Runner.url feature = Some (String c s) ->
     exists result w2,
       Runner.testFeature feature w1 = (Ok result, w2) /\
       Runner.success result = false /\
       deref (Runner.errors result) w2
       = Some (Notions.synthetic (JsError "Browser not initialized") (clock w1))).
Proof.
  intros Hb Hrun.
  destruct (ensureBrowser_failed w e w1 Hb Hrun) as (b' & Hb' & Hnone).
  assert (Hnav : forall url,
             Browser.navigate url w1 = (Throw (JsError "Browser not initialized"), w1)).
  { intros url. unfold Browser.navigate, Browser.the_browser, throw, mbind, M_bind.
    rewrite Hb'. unfold clientless in Hnone.
    destruct b' as [[c|] [p|] []]; try discriminate; reflexivity. }
  split; [unfold Server.ensureBrowser; rewrite Hb'; reflexivity|].
  split; [exact Hnav|].
  intros feature c s Hurl.
  assert (Hatt : Runner.attempt feature (clock w1) w1
                 = (Throw (JsError "Browser not initialized"), w1)).
  { unfold Runner.attempt. apply MFacts.bind_throw.
    unfold Runner.observe. rewrite Hurl. apply MFacts.bind_throw. apply Hnav. }
  unfold Runner.testFeature, now, gets, try_catch, mbind, M_bind.
  rewrite Hatt. rewrite RunnerFacts.failed_run.
  eexists _, _. split; [reflexivity|]. split; [reflexivity|].
  unfold deref. simpl. apply list_lookup_middle. reflexivity.
Qed.

Lemma failed_initialisation_not_retried_witness :
  Server.ensureBrowser (Cases.unstarted Cases.noBrowser)
    = (Throw (JsError "Executable doesn't exist"),
       (Server.ensureBrowser (Cases.unstarted Cases.noBrowser)).2) /\
  Server.ensureBrowser (Server.ensureBrowser (Cases.unstarted Cases.noBrowser)).2
    = (Ok tt, (Server.ensureBrowser (Cases.unstarted Cases.noBrowser)).2) /\
  exists result w2,
    Runner.testFeature Scenario.login
      (Server.ensureBrowser (Cases.unstarted Cases.noBrowser)).2 = (Ok result, w2) /\
    Runner.success result = false.
Proof.
  assert (Hrun : Server.ensureBrowser (Cases.unstarted Cases.noBrowser)
                 = (Throw (JsError "Executable doesn't exist"),
                    (Server.ensureBrowser (Cases.unstarted Cases.noBrowser)).2))
    by (vm_compute; reflexivity).
  destruct (failed_initialisation_not_retried
              (Cases.unstarted Cases.noBrowser) _ _ eq_refl Hrun)
    as (Hagain & _ & Htest).
  split; [exact Hrun|]. split; [exact Hagain|].
  destruct (Htest Scenario.login _ _ eq_refl) as (result & w2 & Ht & Hs & _).
  exists result, w2. split; [exact Ht | exact Hs].
Defined.

End ControllerFacts.

(** ** The detector, exactly *)

Module DetectorFacts.

Import Controller Session Detector.

(** X5: on a controller with a session, [detectAllErrors] returns the
    console-tagged errors of the buffer, then what the probe returned, then
    the ui-tagged errors that arrived while the probe ran; buffered errors
    with any other tag are dropped and the buffer is empty afterwards. It
    throws only when the probe returns something that is not an array. *)
Theorem detectAllErrors_exact w b :
  browser w = Some b ->
  live b = true ->
  match probeResult (env w (Evaluate reactProbe :: trace w)) with
  | Some probe =>
      exists w' c b',
        detectAllErrors w = (Ok (length (heap w)), w') /\
        deref (length (heap w)) w' = Some c /\
        errors c
        = List.filter (has_type console) (Browser.buffered b) ++ probe ++
          List.filter (has_type ui)
            (arrivals (env w (Evaluate reactProbe :: trace w))) /\
        browser w' = Some b' /\ Browser.buffered b' = []
  | None =>
      exists w',
        detectAllErrors w = (Throw (JsError "reactErrors is not iterable"), w')
  end.
Proof.
  intros Hb Hlive. unfold probeResult.
  destruct (outcome (env w (Evaluate reactProbe :: trace w)))
    as [v|e] eqn:Hout.
  all: unfold detectAllErrors, detectConsoleErrors,
    detectNetworkErrors, detectUIErrors, detectReactErrors,
    spread, Browser.captureErrors, Browser.evaluate, Browser.capture,
    Browser.the_browser, Browser.put_browser, CDP.captureErrors,
    Playwright.captureErrors, try_catch, request, alloc, modify, throw,
    mbind, M_bind, mret, M_ret, suspend.
  all: rewrite Hb; unfold live in Hlive.
  all: destruct b as [[[cl ces]|] [[pg pes]|] []]; cbn in *; subst; try discriminate.
  all: cbn; rewrite ?Hout; cbn.
  all: try (destruct v as [| [] |l|s err|[f|]]; cbn).
  all: try (eexists; reflexivity).
  all: eexists _, _, _; (split; [reflexivity|]); cbn.
  all: unfold deref; cbn; rewrite ?app_nil_r.
  all: (split; [apply list_lookup_middle; reflexivity|]); cbn; rewrite ?app_nil_r; auto.
Qed.

Lemma detectAllErrors_exact_witness :
  exists w' c,
    detectAllErrors Scenario.twoBuffered = (Ok 0%nat, w') /\
    deref 0 w' = Some c /\
    errors c = [Scenario.uncaught].
Proof.
  pose proof (detectAllErrors_exact Scenario.twoBuffered
                (Scenario.cdpWith [Scenario.uncaught; Scenario.notFound])
                eq_refl eq_refl) as H.
  assert (Hp : probeResult (env Scenario.twoBuffered
                              (Evaluate reactProbe :: trace Scenario.twoBuffered))
               = Some []) by (vm_compute; reflexivity).
  rewrite Hp in H. destruct H as (w' & c & b' & Hrun & Hc & Herr & _).
  exists w', c. split; [exact Hrun|]. split; [exact Hc|]. rewrite Herr. reflexivity.
Defined.

Lemma total_bump t acc : total (bump t acc) = total acc + 1.
Proof.
  unfold total. induction acc as [|[t' n] acc IH]; cbn [bump]; [cbn; lia|].
  case_decide; cbn [foldr]; simpl snd; lia.
Qed.

Lemma fresh_in_snoc keys t u :
  fresh_in (keys ++ [t]) u = negb (bool_decide (u = t)) && fresh_in keys u.
Proof.
  unfold fresh_in.
  destruct (decide (u = t)) as [->|Hne].
  - rewrite (bool_decide_eq_true_2 (t = t)) by reflexivity.
    rewrite bool_decide_eq_true_2; [reflexivity|].
    apply elem_of_app. right. apply list_elem_of_singleton. reflexivity.
  - rewrite (bool_decide_eq_false_2 (u = t)) by exact Hne. cbn [negb andb].
    f_equal. apply bool_decide_ext. rewrite elem_of_app, list_elem_of_singleton.
    tauto.
Qed.

Lemma fresh_in_known keys t : t ∈ keys -> fresh_in keys t = false.
Proof. intros H. unfold fresh_in. rewrite bool_decide_eq_true_2 by exact H. reflexivity. Qed.

Lemma filter_fresh_known t keys l :
  t ∈ keys ->
  List.filter (fresh_in keys) (List.filter (fun u => negb (bool_decide (u = t))) l)
  = List.filter (fresh_in keys) l.
Proof.
  intros Hin. induction l as [|u l IH]; [reflexivity|].
  cbn [List.filter]. case_bool_decide as Hu; cbn [negb List.filter].
  - subst u. rewrite (fresh_in_known _ _ Hin). exact IH.
  - rewrite IH. reflexivity.
Qed.

Lemma filter_fresh_new t keys l :
  List.filter (fresh_in (keys ++ [t])) l
  = List.filter (fresh_in keys) (List.filter (fun u => negb (bool_decide (u = t))) l).
Proof.
  induction l as [|u l IH]; [reflexivity|].
  cbn [List.filter]. rewrite fresh_in_snoc.
  destruct (negb (bool_decide (u = t))); cbn [andb List.filter].
  - destruct (fresh_in keys u); rewrite IH; reflexivity.
  - exact IH.
Qed.

Lemma fold_bump_keys errors acc :
  (fold_left (fun acc error => bump (type error) acc) errors acc).*1
  = acc.*1 ++ List.filter (fresh_in acc.*1) (firsts (type <$> errors)).
Proof.
  revert acc. induction errors as [|e errors IH]; intros acc.
  - cbn. rewrite app_nil_r. reflexivity.
  - cbn [fold_left fmap list_fmap firsts List.filter]. rewrite IH, SummaryFacts.bump_keys.
    destruct (decide (type e ∈ acc.*1)) as [Hin|Hout].
    + rewrite (fresh_in_known _ _ Hin).
      rewrite filter_fresh_known by exact Hin. reflexivity.
    + assert (Hf : fresh_in acc.*1 (type e) = true).
      { unfold fresh_in. rewrite bool_decide_eq_false_2 by exact Hout. reflexivity. }
      rewrite Hf, filter_fresh_new, <- app_assoc. reflexivity.
Qed.

Lemma fold_bump_total errors acc :
  total (fold_left (fun acc error => bump (type error) acc) errors acc)
  = total acc + Z.of_nat (length errors).
Proof.
  revert acc. induction errors as [|e errors IH]; intros acc; cbn [fold_left length].
  - lia.
  - rewrite IH, total_bump. lia.
Qed.

Lemma filter_all_fresh l : List.filter (fresh_in []) l = l.
Proof.
  induction l as [|u l IH]; [reflexivity|]. cbn [List.filter].
  assert (Hf : fresh_in [] u = true).
  { unfold fresh_in. rewrite bool_decide_eq_false_2 by apply not_elem_of_nil. reflexivity. }
  rewrite Hf, IH. reflexivity.
Qed.

(** X6: the summary lists the error types in the order in which they first
    occur in the sequence, and the counts it prints add up to the number of
    errors. *)
Theorem byType_order_and_total errors :
  (byType errors).*1 = firsts (type <$> errors) /\
  total (byType errors) = Z.of_nat (length errors).
Proof.
  unfold byType. rewrite fold_bump_keys, fold_bump_total. cbn.
  rewrite filter_all_fresh. split; [reflexivity | lia].
Qed.

End DetectorFacts.

(** ** Parts of the world a computation leaves alone *)

Module FrameFacts.

Import Session.

Section Frame.
Context {B : Type} (f : World -> B).

Lemma frame_ret {A} (a : A) : keeps f (mret a).
Proof. intros w. reflexivity. Qed.

Lemma frame_throw {A} e : keeps f (@throw A e).
Proof. intros w. reflexivity. Qed.

Lemma frame_gets {A} (g : World -> A) : keeps f (gets g).
Proof. intros w. reflexivity. Qed.

Lemma frame_bind {A C} (m : M A) (k : A -> M C) :
  keeps f m -> (forall a, keeps f (k a)) -> keeps f (m ≫= k).
Proof.
  intros Hm Hk w. unfold mbind, M_bind. specialize (Hm w).
  destruct (m w) as [[a|e] w1]; simpl in *; [|exact Hm].
  rewrite Hk. exact Hm.
Qed.

Lemma frame_try {A} (m : M A) h :
  keeps f m -> (forall e, keeps f (h e)) -> keeps f (try_catch m h).
Proof.
  intros Hm Hh w. unfold try_catch. specialize (Hm w).
  destruct (m w) as [[a|e] w1]; simpl in *; [exact Hm|].
  rewrite Hh. exact Hm.
Qed.

Lemma frame_step {A} (m : M A) w r w' : keeps f m -> m w = (r, w') -> f w' = f w.
Proof. intros Hm H. specialize (Hm w). rewrite H in Hm. exact Hm. Qed.

End Frame.

End FrameFacts.


(** ** UI rules and the page *)

Module PageFacts.

Import Controller Session FrameFacts Validator.

Lemma pageOpen_suspend r w : pageOpen (suspend r w).2 = pageOpen w.
Proof.
  unfold pageOpen. cbn. destruct (browser w) as [b|]; [|reflexivity]. cbn.
  destruct (playwrightClient b) as [[[] es]|]; reflexivity.
Qed.

Lemma keeps_pageOpen_request r : keeps pageOpen (request r).
Proof. intros w. unfold request. apply (pageOpen_suspend r w). Qed.

Lemma keeps_pageOpen_sleep ms : keeps pageOpen (sleep ms).
Proof. intros w. unfold sleep. apply (pageOpen_suspend (Sleep ms) w). Qed.

Lemma pageOpen_set_browser b w :
  pageOpen (set_browser (Some b) w)
  = match playwrightClient b with Some p => Playwright.page p | None => false end.
Proof. reflexivity. Qed.

Lemma keeps_pageOpen_navigate url : keeps pageOpen (Browser.navigate url).
Proof.
  intros w. unfold Browser.navigate. unfold mbind, M_bind at 1.
  unfold Browser.the_browser. destruct (browser w) as [b|] eqn:Hb; [|reflexivity].
  assert (Hw : pageOpen w
               = match playwrightClient b with
                 | Some p => Playwright.page p
                 | None => false
                 end) by (unfold pageOpen; rewrite Hb; reflexivity).
  destruct (useCDP b), (cdpClient b) as [c|], (playwrightClient b) as [p|] eqn:Hp;
    repeat match goal with |- context [if ?x then _ else _] => destruct x eqn:? end;
    try reflexivity.
  all: unfold Browser.put_browser, modify, mbind, M_bind, mret, M_ret, request.
  all: match goal with
       | |- context [suspend ?r ?w0] =>
           pose proof (pageOpen_suspend r w0) as Hs; destruct (suspend r w0) as [rep w1]
       end.
  all: cbn [snd] in Hs; cbn -[pageOpen]; destruct (outcome rep); cbn [snd].
  all: rewrite Hs, Hw.
  all: unfold pageOpen; cbn; rewrite ?Hp; try reflexivity.
  all: destruct p as [pg pes]; cbn in *; reflexivity.
Qed.

Lemma capture_page b :
  Playwright.page <$> playwrightClient (Browser.capture b).2
  = Playwright.page <$> playwrightClient b.
Proof. destruct b as [[[cl ces]|] [[[] pes]|] []]; reflexivity. Qed.

Lemma keeps_pageOpen_captureErrors : keeps pageOpen Browser.captureErrors.
Proof.
  intros w. unfold Browser.captureErrors. unfold mbind, M_bind at 1.
  unfold Browser.the_browser, pageOpen at 2.
  destruct (browser w) as [b|] eqn:Hb; [|cbn; unfold pageOpen; rewrite Hb; reflexivity].
  pose proof (capture_page b) as Hc. destruct (Browser.capture b) as [es b'].
  cbn in Hc |- *. unfold pageOpen. cbn.
  destruct (playwrightClient b') as [p'|], (playwrightClient b) as [p|];
    cbn in Hc; congruence.
Qed.

Lemma keeps_pageOpen_evaluate script : keeps pageOpen (Browser.evaluate script).
Proof.
  intros w. unfold Browser.evaluate, Browser.the_browser.
  unfold mbind, M_bind. destruct (browser w) as [b|] eqn:Hb; [|reflexivity].
  destruct (useCDP b), (cdpClient b) as [c|], (playwrightClient b) as [p|];
    repeat match goal with |- context [if ?x then _ else _] => destruct x end;
    try reflexivity; apply keeps_pageOpen_request.
Qed.

Lemma keeps_pageOpen_alloc c : keeps pageOpen (alloc c).
Proof. intros w. reflexivity. Qed.

Lemma keeps_pageOpen_detectAllErrors : keeps pageOpen Detector.detectAllErrors.
Proof.
  unfold Detector.detectAllErrors, Detector.detectConsoleErrors,
    Detector.detectNetworkErrors, Detector.detectUIErrors, Detector.detectReactErrors,
    Detector.spread.
  repeat first
    [ progress intros
    | apply keeps_pageOpen_captureErrors | apply keeps_pageOpen_evaluate
    | apply keeps_pageOpen_alloc
    | apply frame_ret | apply frame_throw
    | apply frame_bind | apply frame_try
    | match goal with |- keeps _ (match ?x with _ => _ end) => destruct x end ].
Qed.

Lemma keeps_pageOpen_observe feature : keeps pageOpen (Runner.observe feature).
Proof.
  unfold Runner.observe.
  repeat first
    [ progress intros
    | apply keeps_pageOpen_navigate | apply keeps_pageOpen_sleep
    | apply keeps_pageOpen_detectAllErrors
    | apply frame_ret
    | apply frame_bind
    | match goal with
      | |- keeps _ (match ?x with _ => _ end) => destruct x
      | |- keeps _ (if ?x then _ else _) => destruct x
      end ].
Qed.

(** Without an open page a rule fails on the spot. *)
Lemma validateInteraction_without_page rule w :
  pageOpen w = false ->
  Validator.validateInteraction rule w
  = (Ok {| Validator.success := false;
           Validator.error := Some (Validator.uiError (pageMissing w) rule (clock w)) |}, w).
Proof.
  unfold pageOpen, pageMissing, Validator.validateInteraction, try_catch, Browser.getPage,
    Browser.the_browser, now, gets, mbind, M_bind, mret, M_ret.
  destruct (browser w) as [b|]; [|reflexivity].
  destruct (playwrightClient b) as [[[] pes]|]; intros H; try discriminate; reflexivity.
Qed.

(** X8: unless the automation client has an open page, every UI rule fails
    on the spot, without any script being evaluated; a feature with UI rules
    tested on such a controller (the protocol client alone, for one) never
    passes. *)
Theorem rules_need_open_page feature rule rest w :
  pageOpen w = false ->
  Runner.uiRules feature = Some (rule :: rest) ->
  (forall rules acc,
     Validator.validateEach rules acc w
     = (Ok (acc ++ map (fun r => Validator.uiError (pageMissing w) r (clock w)) rules),
        w)) /\
  exists result w',
    Runner.testFeature feature w = (Ok result, w') /\
    Runner.success result = false.
Proof.
  intros Hpage Hrules. split.
  - intros rules. induction rules as [|r rules IH]; intros acc; cbn [Validator.validateEach].
    + cbn. rewrite app_nil_r. reflexivity.
    + erewrite MFacts.bind_ok by (apply validateInteraction_without_page; exact Hpage).
      cbn. rewrite IH, <- app_assoc. reflexivity.
  - destruct (VerdictFacts.testFeature_cases feature w)
      as [(e & w1 & Hobs & Hheap & Hatt & Hrun)
         |(r & w1 & c0 & ok & w2 & c & Hobs & Hr & Hheap & Hhas & Hsum & Hval & Hiff
           & Hmut & Hc & Hrun)].
    + rewrite Hrun, RunnerFacts.failed_run. eexists _, _. split; reflexivity.
    + rewrite Hrun. eexists _, _. split; [reflexivity|]. cbn.
      destruct ok; [|apply andb_false_r]. exfalso.
      destruct Hiff as [Hiff _]. specialize (Hiff eq_refl). rewrite Hrules in Hiff.
      destruct Hiff as (results & w3 & Hout & Hall).
      assert (Hpage1 : pageOpen w1 = false).
      { rewrite <- Hpage. eapply frame_step; [apply keeps_pageOpen_observe | exact Hobs]. }
      cbn [Notions.outcomes] in Hout.
      erewrite MFacts.bind_ok in Hout
        by (apply validateInteraction_without_page; exact Hpage1).
      apply MFacts.bind_inv in Hout as (rs & w4 & _ & Hout).
      injection Hout as <- _. inversion Hall as [|? ? Hhead _]. discriminate Hhead.
Qed.

Lemma rules_need_open_page_witness :
  pageOpen Scenario.oneFailedRequest = false /\
  exists result w',
    Runner.testFeature Scenario.login Scenario.oneFailedRequest = (Ok result, w') /\
    Runner.success result = false.
Proof.
  split; [reflexivity|].
  exact (proj2 (rules_need_open_page Scenario.login Scenario.clickLogin []
                  Scenario.oneFailedRequest eq_refl eq_refl)).
Defined.

Lemma live_deliver es b : live (deliver es b) = live b.
Proof. destruct b as [[[[] ces]|] [[[] pes]|] []]; reflexivity. Qed.

Lemma interactive_suspend r w : interactive (suspend r w).2 = interactive w.
Proof.
  unfold interactive. cbn.
  destruct (browser w) as [b|] eqn:Hb; [|reflexivity]. cbn.
  rewrite live_deliver. f_equal.
  destruct (playwrightClient b) as [[[] pes]|]; reflexivity.
Qed.

(** With a session and an open page a rule is evaluated, exactly once. *)
Lemma validateInteraction_evaluates rule w :
  interactive w = true ->
  exists result w',
    validateInteraction rule w = (Ok result, w') /\
    trace w' = Evaluate (interactionScript rule) :: trace w /\
    interactive w' = true /\
    (success result = true -> error result = None) /\
    (success result = false ->
     exists msg ts, error result = Some (uiError msg rule ts)).
Proof.
  intros Hi.
  pose proof (interactive_suspend (Evaluate (interactionScript rule)) w) as Hs.
  destruct (outcome (env w (Evaluate (interactionScript rule) :: trace w)))
    as [v|e] eqn:Hout.
  all: unfold validateInteraction, try_catch, Browser.getPage, Browser.evaluate,
    Browser.the_browser, request, now, gets, throw, mbind, M_bind, mret, M_ret.
  all: unfold interactive, live in Hi.
  all: destruct (browser w) as [b|] eqn:Hb; [|discriminate].
  all: destruct b as [[[cl ces]|] [[pg pes]|] []]; cbn in Hi; try discriminate.
  all: try (destruct cl; cbn in Hi; try discriminate).
  all: destruct pg; cbn in Hi; try discriminate.
  all: cbn; rewrite ?Hb; cbn; rewrite ?Hb; cbn; rewrite ?Hout; cbn.
  all: try (destruct v as [| |l|[] err|[f|]]; cbn).
  all: eexists _, _; (split; [reflexivity|]); cbn.
  all: (split; [reflexivity|]); (split; [unfold interactive, live; cbn; reflexivity|]).
  all: split; intros; try discriminate; eauto.
Qed.

(** X7: with a session and an open page, [validateMultiple] evaluates the
    script of every rule, once and in order, whatever the earlier rules gave;
    it reports success exactly when it collected no error, and its errors
    are those of the failed rules, in rule order, each naming the selector
    and the action of its rule. *)
Theorem validateMultiple_runs_every_rule rules w :
  interactive w = true ->
  exists res w',
    validateMultiple rules w = (Ok res, w') /\
    trace w' = rev (map (fun r => Evaluate (interactionScript r)) rules) ++ trace w /\
    (all_success res = true <-> ui_errors res = []) /\
    exists failed,
      sublist failed rules /\
      Forall2 (fun rule e => exists msg ts, e = uiError msg rule ts)
        failed (ui_errors res).
Proof.
  intros Hi.
  assert (Hloop : forall acc,
    exists errs w' failed,
      validateEach rules acc w = (Ok (acc ++ errs), w') /\
      trace w' = rev (map (fun r => Evaluate (interactionScript r)) rules) ++ trace w /\
      sublist failed rules /\
      Forall2 (fun rule e => exists msg ts, e = uiError msg rule ts) failed errs).
  { revert w Hi. induction rules as [|rule rules IH]; intros w Hi acc.
    - exists [], w, []. cbn. rewrite app_nil_r. repeat split; constructor.
    - destruct (validateInteraction_evaluates rule w Hi)
        as (result & w1 & Hrun & Htrace & Hi1 & Hpass & Hfail).
      cbn [validateEach]. erewrite MFacts.bind_ok by exact Hrun.
      destruct result as [[] err]; cbn in *.
      + destruct (IH w1 Hi1 acc) as (errs & w2 & failed & Heach & Ht & Hsub & Hall).
        exists errs, w2, failed. split; [exact Heach|]. split.
        { rewrite Ht, Htrace, <- app_assoc. reflexivity. }
        split; [apply sublist_cons; exact Hsub | exact Hall].
      + destruct (Hfail eq_refl) as (msg & ts & ->).
        destruct (IH w1 Hi1 (acc ++ [uiError msg rule ts]))
          as (errs & w2 & failed & Heach & Ht & Hsub & Hall).
        exists (uiError msg rule ts :: errs), w2, (rule :: failed). split.
        { rewrite Heach, <- app_assoc. reflexivity. }
        split; [rewrite Ht, Htrace, <- app_assoc; reflexivity|].
        split; [apply sublist_skip; exact Hsub|].
        constructor; [eauto | exact Hall]. }
  destruct (Hloop []) as (errs & w' & failed & Heach & Ht & Hsub & Hall).
  unfold validateMultiple. erewrite MFacts.bind_ok by exact Heach.
  eexists _, _. split; [reflexivity|]. cbn. split; [exact Ht|].
  split; [|exists failed; split; assumption].
  destruct errs; cbn; split; try discriminate; reflexivity.
Qed.

Lemma validateMultiple_runs_every_rule_witness :
  interactive Scenario.nothingFound = true /\
  exists res w',
    validateMultiple [Scenario.clickLogin; Scenario.clickLogin] Scenario.nothingFound
    = (Ok res, w') /\
    length (trace w') = 2%nat /\
    (all_success res = true <-> ui_errors res = []).
Proof.
  split; [reflexivity|].
  destruct (validateMultiple_runs_every_rule
              [Scenario.clickLogin; Scenario.clickLogin] Scenario.nothingFound eq_refl)
    as (res & w' & Hrun & Htrace & Hiff & _).
  exists res, w'. split; [exact Hrun|]. split; [rewrite Htrace; reflexivity | exact Hiff].
Defined.

End PageFacts.

(** ** Parts of the world the program never touches *)

Module QuietFacts.

Import Session FrameFacts.

#[export] Instance fs_quiet : Quiet fs.
Proof. split; reflexivity. Qed.

#[export] Instance config_quiet : Quiet config.
Proof. split; reflexivity. Qed.

#[export] Instance env_quiet : Quiet env.
Proof. split; reflexivity. Qed.

Section Quiet.

Context {B : Type} (f : World -> B) `{!Quiet f}.

Lemma quiet_request r : keeps f (request r).
Proof. intros w. apply quiet_suspend. Qed.

Lemma quiet_sleep ms : keeps f (sleep ms).
Proof. intros w. apply quiet_suspend. Qed.

Lemma quiet_console_write s : keeps f (console_write s).
Proof. intros w. apply quiet_console. Qed.

Lemma quiet_the_browser : keeps f Browser.the_browser.
Proof. intros w. unfold Browser.the_browser. destruct (browser w); reflexivity. Qed.

Lemma quiet_put_browser b : keeps f (Browser.put_browser b).
Proof. intros w. apply quiet_browser. Qed.

Lemma quiet_alloc c : keeps f (alloc c).
Proof. intros w. apply quiet_heap. Qed.

Lemma quiet_read r : keeps f (read r).
Proof. intros w. unfold read. destruct (deref r w); reflexivity. Qed.

Lemma quiet_update r g : keeps f (update r g).
Proof.
  intros w. unfold update, read, modify, mbind, M_bind.
  destruct (deref r w); [apply quiet_heap | reflexivity].
Qed.

Lemma quiet_alloc_fix c : keeps f (alloc_fix c).
Proof. intros w. apply quiet_fixes. Qed.

Lemma quiet_read_fix r : keeps f (read_fix r).
Proof. intros w. unfold read_fix. destruct (fixes w !! r); reflexivity. Qed.

Lemma quiet_update_fix r g : keeps f (update_fix r g).
Proof.
  intros w. unfold update_fix, read_fix, modify, mbind, M_bind.
  destruct (fixes w !! r); [apply quiet_fixes | reflexivity].
Qed.

Lemma quiet_existsSync path : keeps f (Gemini.existsSync path).
Proof. intros w. reflexivity. Qed.

Lemma quiet_readFile path : keeps f (Gemini.readFile path).
Proof.
  intros w. unfold Gemini.readFile. destruct (fs w !! path) as [[c [] wr|]|]; reflexivity.
Qed.

Lemma quiet_defined {A} (o : option A) : keeps f (Gemini.defined o).
Proof. intros w. destruct o; reflexivity. Qed.

Lemma quiet_applyChanges changes lines : keeps f (Gemini.applyChanges changes lines).
Proof.
  revert lines. induction changes as [|change rest IH]; intros lines;
    cbn [Gemini.applyChanges];
    repeat first
      [ progress intros
      | apply quiet_defined | apply quiet_console_write | apply frame_ret
      | apply IH | apply frame_bind
      | match goal with
        | |- keeps _ (if ?x then _ else _) => destruct x
        end ].
Qed.

(** Break a composite computation into its steps. *)
Ltac quiet :=
  repeat first
    [ progress intros
    | apply quiet_request | apply quiet_sleep | apply quiet_console_write
    | apply quiet_the_browser | apply quiet_put_browser
    | apply quiet_alloc | apply quiet_read | apply quiet_update
    | apply quiet_alloc_fix | apply quiet_read_fix | apply quiet_update_fix
    | apply quiet_existsSync | apply quiet_readFile | apply quiet_applyChanges
    | apply quiet_defined
    | apply frame_ret | apply frame_throw | apply frame_gets
    | solve [auto]
    | apply frame_bind | apply frame_try
    | match goal with
      | |- keeps _ (match ?x with _ => _ end) => destruct x
      | |- keeps _ (if ?x then _ else _) => destruct x
      | |- keeps _ (let '(_, _) := ?x in _) => destruct x
      end ].

Lemma quiet_navigate url : keeps f (Browser.navigate url).
Proof. unfold Browser.navigate. quiet. Qed.

Lemma quiet_captureErrors : keeps f Browser.captureErrors.
Proof. unfold Browser.captureErrors. quiet. Qed.

Lemma quiet_evaluate script : keeps f (Browser.evaluate script).
Proof. unfold Browser.evaluate. quiet. Qed.

Lemma quiet_getPage : keeps f Browser.getPage.
Proof. unfold Browser.getPage. quiet. Qed.

Lemma quiet_initialize : keeps f Browser.initialize.
Proof. unfold Browser.initialize. quiet. Qed.

Lemma quiet_ensureBrowser : keeps f Server.ensureBrowser.
Proof.
  intros w. unfold Server.ensureBrowser. destruct (browser w); [reflexivity|].
  rewrite quiet_initialize. apply quiet_browser.
Qed.

Lemma quiet_validateInteraction rule : keeps f (Validator.validateInteraction rule).
Proof.
  pose proof quiet_getPage. pose proof quiet_evaluate.
  unfold Validator.validateInteraction, now. quiet.
Qed.

Lemma quiet_validateEach rules acc : keeps f (Validator.validateEach rules acc).
Proof.
  revert acc. induction rules as [|rule rest IH]; intros acc; simpl;
    pose proof quiet_validateInteraction; quiet.
Qed.

Lemma quiet_detectAllErrors : keeps f Detector.detectAllErrors.
Proof.
  pose proof quiet_captureErrors. pose proof quiet_evaluate.
  unfold Detector.detectAllErrors, Detector.detectConsoleErrors,
    Detector.detectNetworkErrors, Detector.detectReactErrors,
    Detector.detectUIErrors, Detector.spread.
  quiet.
Qed.

(** A verification pass touches no quiet part of the world. *)
Lemma quiet_testFeature feature : keeps f (Runner.testFeature feature).
Proof.
  pose proof quiet_navigate. pose proof quiet_detectAllErrors.
  pose proof quiet_validateEach.
  unfold Runner.testFeature, Runner.attempt, Runner.failed, Runner.observe,
    Runner.validate, Runner.recordFailure, Validator.validateMultiple, now.
  quiet.
Qed.

Lemma quiet_generateFix errors fileContent filePath :
  keeps f (Gemini.generateFix errors fileContent filePath).
Proof. unfold Gemini.generateFix. quiet. Qed.

Lemma quiet_fileContext errors : keeps f (Cursor.fileContext errors).
Proof. unfold Cursor.fileContext. quiet. Qed.

End Quiet.

(** Writing a file leaves the configuration alone. *)
Lemma config_writeFile path content : keeps config (Gemini.writeFile path content).
Proof.
  intros w. unfold Gemini.writeFile. destruct (fs w !! path) as [[c rd []|]|]; reflexivity.
Qed.

Lemma config_applyFix fixRef : keeps config (Gemini.applyFix fixRef).
Proof.
  unfold Gemini.applyFix.
  repeat first
    [ progress intros
    | apply config_writeFile
    | apply quiet_defined; tc_solve
    | apply quiet_read_fix; tc_solve | apply quiet_update_fix; tc_solve
    | apply quiet_console_write; tc_solve
    | apply quiet_existsSync | apply quiet_readFile
    | apply quiet_applyChanges; tc_solve
    | apply frame_ret | apply frame_gets | apply frame_bind | apply frame_try
    | match goal with
      | |- keeps _ (if ?x then _ else _) => destruct x
      end ].
Qed.

Lemma config_fixError error : keeps config (Cursor.fixError error).
Proof.
  unfold Cursor.fixError.
  repeat first
    [ progress intros
    | apply config_applyFix
    | apply quiet_read; tc_solve | apply quiet_fileContext; tc_solve
    | apply quiet_generateFix; tc_solve
    | apply frame_ret | apply frame_bind | apply frame_try
    | match goal with
      | |- keeps _ (match ?x with _ => _ end) => destruct x
      | |- keeps _ (if ?x then _ else _) => destruct x
      | |- keeps _ (let '(_, _) := ?x in _) => destruct x
      end ].
Qed.

End QuietFacts.

(** ** What [applyFix] does to the fix record and to the file *)

Module EditFacts.

Import Session Gemini Remedy FrameFacts QuietFacts.

Lemma insert_desc_perm x l : insert_desc x l ≡ₚ x :: l.
Proof.
  induction l as [|y l IH]; cbn [insert_desc]; [reflexivity|].
  destruct (change_line x <? change_line y); [|reflexivity].
  rewrite IH. apply Permutation_swap.
Qed.

Lemma sort_desc_perm l : sort_desc l ≡ₚ l.
Proof.
  induction l as [|x l IH]; cbn [sort_desc]; [reflexivity|].
  rewrite insert_desc_perm, IH. reflexivity.
Qed.

Lemma insert_desc_sorted x l :
  StronglySorted descending l -> StronglySorted descending (insert_desc x l).
Proof.
  induction 1 as [|y l Hl IH Hy]; cbn [insert_desc].
  - repeat constructor.
  - destruct (change_line x <? change_line y) eqn:Hlt.
    + apply Z.ltb_lt in Hlt. constructor; [exact IH|].
      apply FixFacts.Forall_insert_desc; [unfold descending; lia | exact Hy].
    + apply Z.ltb_ge in Hlt. constructor; [constructor; assumption|].
      constructor; [exact Hlt|].
      eapply Forall_impl; [exact Hy|]. unfold descending. cbn. intros c Hc. lia.
Qed.

Lemma sort_desc_sorted l : StronglySorted descending (sort_desc l).
Proof.
  induction l as [|x l IH]; cbn [sort_desc]; [constructor|].
  apply insert_desc_sorted. exact IH.
Qed.

Lemma insert_desc_stable n x l :
  List.filter (hasLine n) (insert_desc x l) = List.filter (hasLine n) (x :: l).
Proof.
  induction l as [|y l IH]; cbn [insert_desc]; [reflexivity|].
  destruct (change_line x <? change_line y) eqn:Hlt; [|reflexivity].
  apply Z.ltb_lt in Hlt. cbn [List.filter] in *. rewrite IH.
  unfold hasLine.
  destruct (change_line x =? n) eqn:Hx, (change_line y =? n) eqn:Hy; try reflexivity.
  apply Z.eqb_eq in Hx, Hy. lia.
Qed.

Lemma sort_desc_keeps_order n l :
  List.filter (hasLine n) (sort_desc l) = List.filter (hasLine n) l.
Proof.
  induction l as [|x l IH]; cbn [sort_desc]; [reflexivity|].
  rewrite insert_desc_stable. cbn [List.filter]. rewrite IH. reflexivity.
Qed.

(** X9: on a file it can read and write, [applyFix] sorts the changes of the
    caller's fix record in place. For a record that is as declared (integer
    line numbers, every field present): afterwards the record holds the same
    changes by decreasing line number, changes proposed for the same line in
    the order they had, and no other fix record has changed. *)
Theorem applyFix_sorts_in_place w fixRef codeFix content :
  fixes w !! fixRef = Some (parsed codeFix) ->
  fs w !! resolve w (file codeFix) = Some (RegularFile content true true) ->
  exists w' codeFix',
    applyFix fixRef w = (Ok true, w') /\
    fixes w' !! fixRef = Some (parsed codeFix') /\
    file codeFix' = file codeFix /\
    explanation codeFix' = explanation codeFix /\
    changes codeFix' ≡ₚ changes codeFix /\
    StronglySorted descending (changes codeFix') /\
    (forall n, List.filter (hasLine n) (changes codeFix')
               = List.filter (hasLine n) (changes codeFix)) /\
    (forall other, other <> fixRef -> fixes w' !! other = fixes w !! other).
Proof.
  intros Hfix Hfile.
  destruct (FixFacts.applyFix_run w fixRef codeFix content Hfix Hfile)
    as (w' & Hrun & _ & _ & Hfixes & _).
  exists w', (sorted codeFix). split; [exact Hrun|]. rewrite Hfixes.
  split; [apply list_lookup_insert_eq; eapply lookup_lt_Some; exact Hfix|].
  split; [reflexivity|]. split; [reflexivity|].
  split; [apply sort_desc_perm|]. split; [apply sort_desc_sorted|].
  split; [intros n; apply sort_desc_keeps_order|].
  intros other Hother. apply list_lookup_insert_ne. congruence.
Qed.

Lemma applyFix_sorts_in_place_witness :
  exists w' codeFix',
    applyFix 0 Cases.exampleProject = (Ok true, w') /\
    fixes w' !! 0%nat = Some (parsed codeFix') /\
    changes codeFix' ≡ₚ changes Scenario.nullToObject.
Proof.
  destruct (applyFix_sorts_in_place Cases.exampleProject 0 Scenario.nullToObject
              Scenario.tenLines eq_refl eq_refl)
    as (w' & codeFix' & Hrun & Hfix & _ & _ & Hperm & _).
  exists w', codeFix'. split; [exact Hrun|]. split; [exact Hfix | exact Hperm].
Defined.

Lemma fold_applyChange_untouched changes : forall lines j,
  (forall c, c ∈ changes -> change_line c <> Z.of_nat j + 1) ->
  fold_left applyChange changes lines !! j = lines !! j.
Proof.
  induction changes as [|c changes IH]; intros lines j Hno; cbn [fold_left]; [auto|].
  rewrite IH by (intros c' Hc'; apply Hno; right; exact Hc').
  unfold applyChange.
  destruct (inRange c lines && matches c lines) eqn:Happ; [|reflexivity].
  apply list_lookup_insert_ne.
  apply andb_true_iff in Happ as [Hin _]. unfold inRange in Hin.
  apply andb_true_iff in Hin as [H1 H2].
  specialize (Hno c ltac:(left)). lia.
Qed.

Lemma fold_applyChange_length changes : forall lines,
  length (fold_left applyChange changes lines) = length lines.
Proof.
  induction changes as [|c changes IH]; intros lines; cbn [fold_left]; [reflexivity|].
  rewrite IH. apply (FixFacts.applyChange_spec lines c).
Qed.

(** No line that [split('\n')] gives holds a line feed. *)
Lemma split_lines_noLineFeed s :
  Forall (fun l => noLineFeed l = true) (Js.split_lines s).
Proof.
  induction s as [|c s IH]; cbn [Js.split_lines]; [repeat constructor|].
  destruct (Ascii.eqb c Js.LF) eqn:Hc; [constructor; [reflexivity | exact IH]|].
  destruct (Js.split_lines s) as [|l ls]; [repeat constructor; cbn; rewrite Hc; reflexivity|].
  inversion IH as [|? ? Hl Hls]; subst. constructor; [|exact Hls].
  cbn. rewrite Hc, Hl. reflexivity.
Qed.

Lemma split_lines_single l :
  noLineFeed l = true -> Js.split_lines l = [l].
Proof.
  induction l as [|c l IH]; [reflexivity|]. cbn [noLineFeed Js.split_lines].
  intros H. apply andb_true_iff in H as [Hc Hl]. apply negb_true_iff in Hc.
  rewrite Hc, (IH Hl). reflexivity.
Qed.

Lemma split_lines_append l rest :
  noLineFeed l = true ->
  Js.split_lines (l +:+ String Js.LF rest) = l :: Js.split_lines rest.
Proof.
  induction l as [|c l IH]; [reflexivity|]. cbn [noLineFeed].
  intros H. apply andb_true_iff in H as [Hc Hl]. apply negb_true_iff in Hc.
  change (String c l +:+ String Js.LF rest) with (String c (l +:+ String Js.LF rest)).
  cbn [Js.split_lines]. rewrite Hc, (IH Hl). reflexivity.
Qed.

(** Joining lines that hold no line feed and splitting again gives the
    lines back. *)
Lemma split_join ls :
  ls <> [] -> Forall (fun l => noLineFeed l = true) ls ->
  Js.split_lines (Js.join_lines ls) = ls.
Proof.
  induction ls as [|l ls IH]; [congruence|]. intros _ Hall.
  inversion Hall as [|? ? Hl Hls]; subst.
  destruct ls as [|l' ls']; [apply split_lines_single; exact Hl|].
  rewrite JsFacts.join_lines_cons by discriminate.
  change (l +:+ Js.nl +:+ Js.join_lines (l' :: ls'))
    with (l +:+ String Js.LF (Js.join_lines (l' :: ls'))).
  rewrite split_lines_append by exact Hl.
  rewrite IH by (discriminate || exact Hls). reflexivity.
Qed.

Lemma fold_applyChange_noLineFeed changes : forall lines,
  Forall (fun c => noLineFeed (newCode c) = true) changes ->
  Forall (fun l => noLineFeed l = true) lines ->
  Forall (fun l => noLineFeed l = true) (fold_left applyChange changes lines).
Proof.
  induction changes as [|c changes IH]; intros lines Hnew Hlines; cbn [fold_left];
    [exact Hlines|].
  inversion Hnew as [|? ? Hc Hrest]; subst. apply IH; [exact Hrest|].
  unfold applyChange. destruct (inRange c lines && matches c lines); [|exact Hlines].
  apply Forall_insert; assumption.
Qed.

(** X10: on a file it can read and write, and for a fix record that is as
    declared and none of whose [newCode] texts holds a line feed, [applyFix]
    writes a text with as many lines as it read, and every line for which
    the fix proposes no change is in the written text as it was read. *)
Theorem applyFix_untouched_lines w fixRef codeFix content :
  fixes w !! fixRef = Some (parsed codeFix) ->
  fs w !! resolve w (file codeFix) = Some (RegularFile content true true) ->
  Forall (fun c => noLineFeed (newCode c) = true) (changes codeFix) ->
  exists w' content',
    applyFix fixRef w = (Ok true, w') /\
    fs w' !! resolve w (file codeFix) = Some (RegularFile content' true true) /\
    length (Js.split_lines content') = length (Js.split_lines content) /\
    forall j,
      (forall c, c ∈ changes codeFix -> change_line c <> Z.of_nat j + 1) ->
      Js.split_lines content' !! j = Js.split_lines content !! j.
Proof.
  intros Hfix Hfile Hnew.
  destruct (FixFacts.applyFix_run w fixRef codeFix content Hfix Hfile)
    as (w' & Hrun & Hfs & _).
  set (lines' := fold_left applyChange (sort_desc (changes codeFix))
                   (Js.split_lines content)) in *.
  assert (Hlen : length lines' = length (Js.split_lines content))
    by apply fold_applyChange_length.
  assert (Hback : Js.split_lines (Js.join_lines lines') = lines').
  { apply split_join.
    - intros Hnil. rewrite Hnil in Hlen.
      pose proof (JsFacts.split_lines_nonempty content) as Hne.
      destruct (Js.split_lines content); [congruence | discriminate].
    - apply fold_applyChange_noLineFeed; [|apply split_lines_noLineFeed].
      rewrite sort_desc_perm. exact Hnew. }
  exists w', (Js.join_lines lines').
  split; [exact Hrun|]. split; [rewrite Hfs; apply lookup_insert_eq|].
  rewrite Hback. split; [exact Hlen|].
  intros j Hno. apply fold_applyChange_untouched.
  intros c Hc. apply Hno. rewrite <- (sort_desc_perm (changes codeFix)). exact Hc.
Qed.

Lemma applyFix_untouched_lines_witness :
  exists w' content',
    applyFix 0 Cases.exampleProject = (Ok true, w') /\
    fs w' !! "/app/src/App.tsx" = Some (RegularFile content' true true) /\
    length (Js.split_lines content') = 10%nat /\
    Js.split_lines content' !! 0%nat = Some "l1".
Proof.
  destruct (applyFix_untouched_lines Cases.exampleProject 0 Scenario.nullToObject
              Scenario.tenLines eq_refl eq_refl)
    as (w' & content' & Hrun & Hfs & Hlen & Hkeep).
  - repeat constructor.
  - exists w', content'. split; [exact Hrun|]. split; [exact Hfs|].
    split; [exact Hlen|].
    apply Hkeep. intros c Hc. apply list_elem_of_singleton in Hc. subst c. cbn. lia.
Defined.

(** A [newCode] that holds a line feed shifts the lines after it: three
    lines are read, four are written, and the third line, for which the fix
    proposes nothing, is no longer the third. *)
Example line_feed_in_newCode :
  let codeFix := {| file := "src/App.tsx";
                    changes := [ {| change_line := 2; oldCode := "b";
                                    newCode := "x" +:+ Js.nl +:+ "y" |} ];
                    explanation := "" |} in
  let content := "a" +:+ Js.nl +:+ "b" +:+ Js.nl +:+ "c" in
  let w := set_fixes [parsed codeFix]
             (Scenario.world Scenario.quiet None
                {[ "/app/src/App.tsx" := RegularFile content true true ]}) in
  exists w' content',
    applyFix 0 w = (Ok true, w') /\
    fs w' !! "/app/src/App.tsx" = Some (RegularFile content' true true) /\
    Js.split_lines content = ["a"; "b"; "c"] /\
    Js.split_lines content' = ["a"; "x"; "y"; "c"].
Proof.
  cbv zeta. eexists _, _. split; [vm_compute; reflexivity|].
  split; [vm_compute; reflexivity|]. split; vm_compute; reflexivity.
Qed.

(** Writing an existing file replaces its content and nothing else. *)
Lemma writeFile_existing path content w node :
  fs w !! path = Some node ->
  fs (writeFile path content w).2 = fs w \/
  (exists rd, (writeFile path content w).1 = Ok tt /\
     fs (writeFile path content w).2 = <[path := RegularFile content rd true]> (fs w)).
Proof.
  intros H. unfold writeFile. rewrite H. destruct node as [c rd []|]; cbn; eauto.
Qed.

Lemma applyFound_fs fixRef codeFix path w node :
  fs w !! path = Some node ->
  (forall b, (applyFound fixRef codeFix path w).1 = Ok b -> b = true) /\
  (fs (applyFound fixRef codeFix path w).2 = fs w \/
   (exists content rd, (applyFound fixRef codeFix path w).1 = Ok true /\
      fs (applyFound fixRef codeFix path w).2
      = <[path := RegularFile content rd true]> (fs w))).
Proof.
  intros Hnode. unfold applyFound.
  destruct (readFile path w) as [[content|e] w1] eqn:Hread.
  2:{ erewrite MFacts.bind_throw by exact Hread. cbn. split; [discriminate|].
      left. eapply (frame_step fs); [apply quiet_readFile | exact Hread]. }
  erewrite MFacts.bind_ok by exact Hread. cbv beta zeta.
  assert (H1 : fs w1 = fs w)
    by (eapply (frame_step fs); [apply quiet_readFile | exact Hread]).
  destruct (defined (parsed_changes codeFix) w1) as [[changes|e] w1'] eqn:Hdef.
  2:{ erewrite MFacts.bind_throw by exact Hdef. cbn. split; [discriminate|]. left.
      rewrite <- H1.
      eapply (frame_step fs); [apply quiet_defined; tc_solve | exact Hdef]. }
  erewrite MFacts.bind_ok by exact Hdef.
  assert (H1' : fs w1' = fs w1)
    by (eapply (frame_step fs); [apply quiet_defined; tc_solve | exact Hdef]).
  destruct (update_fix fixRef sortedFix w1') as [[[]|e] w2] eqn:Hupd.
  2:{ erewrite MFacts.bind_throw by exact Hupd. cbn. split; [discriminate|]. left.
      rewrite <- H1, <- H1'.
      eapply (frame_step fs); [apply quiet_update_fix; tc_solve | exact Hupd]. }
  erewrite MFacts.bind_ok by exact Hupd.
  assert (H2 : fs w2 = fs w1')
    by (eapply (frame_step fs); [apply quiet_update_fix; tc_solve | exact Hupd]).
  destruct (applyChanges (sort_parsed changes) (Js.split_lines content) w2)
    as [[lines'|e] w3] eqn:Hloop.
  2:{ erewrite MFacts.bind_throw by exact Hloop. cbn. split; [discriminate|]. left.
      rewrite <- H1, <- H1', <- H2.
      eapply (frame_step fs); [apply quiet_applyChanges; tc_solve | exact Hloop]. }
  erewrite MFacts.bind_ok by exact Hloop.
  assert (H3 : fs w3 = fs w).
  { rewrite <- H1, <- H1', <- H2.
    eapply (frame_step fs); [apply quiet_applyChanges; tc_solve | exact Hloop]. }
  set (text := Js.join_lines _).
  assert (Hnode3 : fs w3 !! path = Some node) by (rewrite H3; exact Hnode).
  unfold mbind, M_bind.
  destruct (writeFile_existing path text w3 node Hnode3) as [Hsame|(rd & Hok & Hnew)].
  - destruct (writeFile path text w3) as [[[]|e] w4]; cbn in *.
    + split; [intros b Hb; injection Hb as <-; reflexivity|]. left. congruence.
    + split; [discriminate|]. left. congruence.
  - destruct (writeFile path text w3) as [[[]|e] w4]; cbn in *; [|discriminate].
    split; [intros b Hb; injection Hb as <-; reflexivity|]. right.
    exists text, rd. split; [reflexivity|]. rewrite Hnew, H3. reflexivity.
Qed.

Lemma applyFix_unfold fixRef :
  applyFix fixRef
  = try_catch
      (codeFix ← read_fix fixRef;
       file ← defined (parsed_file codeFix);
       filePath ← gets (fun w => resolve w file);
       found ← existsSync filePath;
       if negb found then
         _ ← console_write ("File not found: " +:+ filePath);
         mret false
       else applyFound fixRef codeFix filePath)
      (fun _ => _ ← console_write "Error applying fix:"; mret false).
Proof. reflexivity. Qed.

(** [applyFix] returns, and either leaves every file as it was or has
    returned [true] and replaced the content of the one file it found. *)
Lemma applyFix_file_cases w fixRef :
  exists applied w',
    applyFix fixRef w = (Ok applied, w') /\
    (fs w' = fs w \/
     exists codeFix name node content rd,
       applied = true /\
       fixes w !! fixRef = Some codeFix /\
       parsed_file codeFix = Some name /\
       fs w !! resolve w name = Some node /\
       fs w' = <[resolve w name := RegularFile content rd true]> (fs w)).
Proof.
  rewrite applyFix_unfold. unfold try_catch.
  destruct (fixes w !! fixRef) as [codeFix|] eqn:Hfix.
  2:{ erewrite MFacts.bind_throw by (unfold read_fix; rewrite Hfix; reflexivity).
      eexists _, _. split; [reflexivity|]. left. reflexivity. }
  erewrite MFacts.bind_ok by (unfold read_fix; rewrite Hfix; reflexivity).
  destruct (parsed_file codeFix) as [name|] eqn:Hname.
  2:{ erewrite MFacts.bind_throw by reflexivity.
      eexists _, _. split; [reflexivity|]. left. reflexivity. }
  erewrite MFacts.bind_ok by reflexivity.
  erewrite MFacts.bind_ok by reflexivity.
  destruct (fs w !! resolve w name) as [node|] eqn:Hfile.
  2:{ erewrite MFacts.bind_ok by (apply FixFacts.existsSync_missing; exact Hfile).
      eexists _, _. split; [reflexivity|]. left. reflexivity. }
  erewrite MFacts.bind_ok by (eapply FixFacts.existsSync_found; exact Hfile).
  cbn [negb].
  destruct (applyFound_fs fixRef codeFix _ w node Hfile) as [Htrue Hfs].
  destruct (applyFound fixRef codeFix (resolve w name) w) as [[b|e] w1];
    cbn in *.
  - specialize (Htrue b eq_refl). subst b.
    eexists _, _. split; [reflexivity|].
    destruct Hfs as [Hsame|(content & rd & _ & Hnew)]; [left; exact Hsame|].
    right. exists codeFix, name, node, content, rd. auto.
  - destruct Hfs as [Hsame|(content & rd & Hok & _)]; [|discriminate].
    eexists _, _. split; [reflexivity|]. left. exact Hsame.
Qed.

(** X11: [applyFix] never throws, never creates or removes a file, changes
    no file when it returns [false], and can change only the file its fix
    record names (no file at all when the record names none). *)
Theorem applyFix_touches_one_file w fixRef :
  exists applied w',
    applyFix fixRef w = (Ok applied, w') /\
    dom (fs w') = dom (fs w) /\
    (applied = false -> fs w' = fs w) /\
    (forall codeFix p,
       fixes w !! fixRef = Some codeFix ->
       (forall name, parsed_file codeFix = Some name -> p <> resolve w name) ->
       fs w' !! p = fs w !! p).
Proof.
  destruct (applyFix_file_cases w fixRef) as (applied & w' & Hrun & Hcases).
  exists applied, w'. split; [exact Hrun|].
  destruct Hcases
    as [Hsame|(codeFix & name & node & content & rd & -> & Hfix & Hname & Hfile & Hnew)].
  - rewrite Hsame. repeat split; auto.
  - rewrite Hnew. split; [|split; [discriminate|]].
    + rewrite dom_insert_L. apply elem_of_dom_2 in Hfile.
      apply subseteq_union_1_L, singleton_subseteq_l. exact Hfile.
    + intros cf p Hcf Hp. rewrite Hfix in Hcf. injection Hcf as <-.
      apply lookup_insert_ne. specialize (Hp name Hname). congruence.
Qed.

End EditFacts.

(** ** The path named by the source of an error *)

Module PathFacts.

Import Cursor Remedy.

Lemma is_digit_colon : is_digit colon = false.
Proof. reflexivity. Qed.

(** A colon and digits up to the end is an accepted suffix. *)
Lemma line_suffix_digits d : d <> EmptyString -> all_digits d = true ->
  line_suffix (String colon d) = true.
Proof.
  intros Hd Hall. destruct d as [|c d]; [congruence|]. cbn in *.
  apply andb_true_iff in Hall as [Hc Hall]. rewrite Hc, Hall.
  rewrite bool_decide_eq_true_2 by reflexivity. reflexivity.
Qed.

Lemma all_digits_app a b : all_digits (a +:+ b) = all_digits a && all_digits b.
Proof.
  induction a as [|c a IH]; [reflexivity|].
  change (all_digits (String c (a +:+ b)) = all_digits (String c a) && all_digits b).
  cbn [all_digits]. rewrite IH, andb_assoc. reflexivity.
Qed.

(** Nothing that goes on with a colon after its first character is an
    accepted suffix. *)
Lemma line_suffix_rest r d :
  r <> EmptyString -> line_suffix (r +:+ String colon d) = false.
Proof.
  intros Hr. destruct r as [|c r]; [congruence|].
  change (line_suffix (String c (r +:+ String colon d)) = false).
  destruct r as [|c' r].
  - change (line_suffix (String c (String colon d)) = false).
    cbn [line_suffix]. rewrite is_digit_colon, andb_false_r. reflexivity.
  - change (line_suffix (String c (String c' (r +:+ String colon d))) = false).
    cbn [line_suffix]. rewrite all_digits_app. cbn [all_digits].
    rewrite is_digit_colon. cbn [andb]. rewrite !andb_false_r. reflexivity.
Qed.

Lemma pathPart_strips p d :
  p <> EmptyString -> singleLine p = true ->
  d <> EmptyString -> all_digits d = true ->
  pathPart (p +:+ String colon d) = Some p.
Proof.
  intros Hp Hline Hd Hall. induction p as [|c p IH]; [congruence|].
  change (pathPart (String c (p +:+ String colon d)) = Some (String c p)).
  cbn [pathPart]. cbn [singleLine] in Hline.
  apply andb_true_iff in Hline as [Hc Hline]. apply negb_true_iff in Hc. rewrite Hc.
  destruct p as [|c' p].
  - change (EmptyString +:+ String colon d) with (String colon d).
    rewrite line_suffix_digits by assumption. reflexivity.
  - rewrite line_suffix_rest by discriminate.
    rewrite IH by (try discriminate; assumption). reflexivity.
Qed.

Lemma pathPart_sound s q :
  pathPart s = Some q ->
  q <> EmptyString /\ singleLine q = true /\
  exists r, s = q +:+ r /\ line_suffix r = true.
Proof.
  revert q. induction s as [|c s IH]; intros q; cbn [pathPart]; [discriminate|].
  destruct (is_terminator c) eqn:Hc; [discriminate|].
  destruct (line_suffix s) eqn:Hs.
  - intros H. injection H as <-. split; [discriminate|].
    split; [cbn; rewrite Hc; reflexivity|].
    exists s. split; [reflexivity | exact Hs].
  - destruct (pathPart s) as [q'|]; [|discriminate].
    intros H. injection H as <-.
    destruct (IH q' eq_refl) as (Hq & Hline & r & -> & Hr).
    split; [discriminate|]. split; [cbn; rewrite Hc, Hline; reflexivity|].
    exists r. split; [reflexivity | exact Hr].
Qed.

Lemma line_suffix_singleLine r : line_suffix r = true -> singleLine r = true.
Proof.
  assert (Hd : forall d, all_digits d = true -> singleLine d = true).
  { induction d as [|c d IH]; [reflexivity|]. cbn. intros H.
    apply andb_true_iff in H as [Hc H]. rewrite (IH H), andb_true_r.
    unfold is_digit in Hc. unfold is_terminator.
    apply andb_true_iff in Hc as [H1 H2].
    apply negb_true_iff, orb_false_iff. split; lia. }
  destruct r as [|c [|c' r]]; cbn; try reflexivity; try discriminate.
  intros H. apply andb_true_iff in H as [H Hall].
  apply andb_true_iff in H as [Hc Hc'].
  apply bool_decide_eq_true in Hc. subst c. rewrite (Hd _ Hall), andb_true_r.
  assert (Hd1 : singleLine (String c' EmptyString) = true).
  { apply Hd. cbn. rewrite Hc'. reflexivity. }
  cbn in Hd1. rewrite andb_true_r in Hd1. rewrite Hd1. reflexivity.
Qed.

Lemma singleLine_app a b : singleLine (a +:+ b) = singleLine a && singleLine b.
Proof.
  induction a as [|c a IH]; [reflexivity|].
  change (singleLine (String c (a +:+ b)) = singleLine (String c a) && singleLine b).
  cbn [singleLine]. rewrite IH, andb_assoc. reflexivity.
Qed.

Lemma pathPart_complete s :
  s <> EmptyString -> singleLine s = true -> is_Some (pathPart s).
Proof.
  induction s as [|c s IH]; [congruence|]. intros _ Hline.
  cbn [singleLine] in Hline. apply andb_true_iff in Hline as [Hc Hline].
  apply negb_true_iff in Hc. cbn [pathPart]. rewrite Hc.
  destruct (line_suffix s) eqn:Hs; [eauto|].
  destruct s as [|c' s]; [discriminate|].
  destruct (IH ltac:(discriminate) Hline) as [q ->]. eauto.
Qed.

(** X12: the path part of a source, group 1 of [/^(.+?)(?::\d+)?$/]: a
    result is a non-empty prefix that leaves nothing or a colon and digits;
    there is a result exactly for a non-empty source without line
    terminator; and a source [p:digits] gives [p], so exactly one trailing
    line number is removed. *)
Theorem pathPart_regex s :
  (forall q, pathPart s = Some q ->
     q <> EmptyString /\ exists r, s = q +:+ r /\ line_suffix r = true) /\
  (is_Some (pathPart s) <-> s <> EmptyString /\ singleLine s = true) /\
  (forall p d,
     s = p +:+ String colon d ->
     p <> EmptyString -> singleLine p = true ->
     d <> EmptyString -> all_digits d = true ->
     pathPart s = Some p).
Proof.
  split; [|split].
  - intros q H. destruct (pathPart_sound s q H) as (Hq & _ & Hr). auto.
  - split.
    + intros [q H]. destruct (pathPart_sound s q H) as (Hq & Hline & r & -> & Hr).
      split; [destruct q; [congruence | discriminate]|].
      rewrite singleLine_app, Hline, (line_suffix_singleLine r Hr). reflexivity.
    + intros [Hs Hline]. apply pathPart_complete; assumption.
  - intros p d -> Hp Hline Hd Hall. apply pathPart_strips; assumption.
Qed.

(** X13: [extractFilePath] gives nothing for an empty source and for a web
    address; an absolute path followed by a line number is returned without
    the number; and whatever it returns is the path part of the source,
    resolved against the working directory unless it is absolute. *)
Theorem extractFilePath_cases resolve source :
  (source = EmptyString \/ Js.startsWith "http://" source = true \/
   Js.startsWith "https://" source = true ->
   extractFilePath resolve source = None) /\
  (forall p d,
     source = p +:+ String colon d ->
     Js.startsWith "/" p = true -> singleLine p = true ->
     d <> EmptyString -> all_digits d = true ->
     Js.startsWith "http://" source = false ->
     Js.startsWith "https://" source = false ->
     extractFilePath resolve source = Some p) /\
  (forall q, extractFilePath resolve source = Some q ->
     exists filePath, pathPart source = Some filePath /\
       q = if Js.startsWith "/" filePath then filePath else resolve filePath).
Proof.
  unfold extractFilePath. split; [|split].
  - intros [->|[H|H]]; [reflexivity| |]; rewrite H, ?orb_true_r; reflexivity.
  - intros p d -> Hp Hline Hd Hall H1 H2. rewrite H1, H2.
    assert (Hne : p <> EmptyString) by (destruct p; [discriminate | discriminate]).
    rewrite bool_decide_eq_false_2 by (destruct p; [congruence | discriminate]).
    cbn [orb]. rewrite pathPart_strips by assumption. rewrite Hp. reflexivity.
  - intros q. destruct (_ || _ || _); [discriminate|].
    destruct (pathPart source) as [filePath|]; [|discriminate].
    intros H. exists filePath. split; [reflexivity|].
    destruct (Js.startsWith "/" filePath); injection H as <-; reflexivity.
Qed.

End PathFacts.

(** ** Asking for a fix and applying it *)

Module RemedyFacts.

Import Session Gemini Cursor Remedy FrameFacts QuietFacts.

Lemma retargeted_eq filePath answer :
  match filePath with
  | Some (String c s) =>
      {| parsed_file := Some (String c s);
         parsed_changes := parsed_changes answer;
         parsed_explanation := parsed_explanation answer |}
  | _ => answer
  end = retargeted filePath answer.
Proof. destruct filePath as [[|c s]|], answer; reflexivity. Qed.

(** [generateFix] reports, it does not throw. *)
Lemma generateFix_total errors fileContent filePath w :
  exists r w', generateFix errors fileContent filePath w = (Ok r, w').
Proof.
  unfold generateFix.
  edestruct (MFacts.try_returns (A := option nat))
    with (P := fun _ : option nat => True) as (r & w' & Hrun & _); [| |eauto].
  - auto.
  - intros e w0. eexists _, _. split; [reflexivity | exact I].
Qed.

(** X14: [generateFix] never throws and touches neither files nor
    collections. It returns a fix exactly when the model answered with one,
    and that fix is a new record, the answer with its file replaced by the
    given path when there is one; otherwise no record is made. *)
Theorem generateFix_returns errors fileContent filePath w :
  exists r w',
    generateFix errors fileContent filePath w = (Ok r, w') /\
    fs w' = fs w /\ heap w' = heap w /\
    match r with
    | Some fixRef =>
        fixRef = length (fixes w) /\
        exists answer,
          outcome (env w (GenerateFix (Types.errors errors) fileContent :: trace w))
          = Ok (VFix (Some answer)) /\
          fixes w' = fixes w ++ [retargeted filePath answer]
    | None =>
        fixes w' = fixes w /\
        forall answer,
          outcome (env w (GenerateFix (Types.errors errors) fileContent :: trace w))
          <> Ok (VFix (Some answer))
    end.
Proof.
  destruct (outcome (env w (GenerateFix (Types.errors errors) fileContent :: trace w)))
    as [v|e] eqn:Hout.
  all: unfold generateFix, try_catch, request, alloc_fix, console_write, modify,
    mbind, M_bind, mret, M_ret, suspend.
  all: cbn; rewrite ?Hout; cbn.
  1: destruct v as [| |l|s err|[answer|]]; cbn.
  all: eexists _, _; (split; [reflexivity|]); cbn.
  all: (split; [reflexivity|]); (split; [reflexivity|]).
  all: try (split; [reflexivity|]; intros answer; congruence).
  split; [reflexivity|]. exists answer. split; [reflexivity|].
  rewrite retargeted_eq. reflexivity.
Qed.

(** [fixError] returns with the collections as they were; either every file
    is as it was, or it reports success and has replaced the content of one
    existing file. *)
Lemma fixError_file_cases error w :
  exists res w',
    fixError error w = (Ok res, w') /\
    heap w' = heap w /\
    (success res = false -> is_Some (Cursor.error res)) /\
    (success res = true -> is_Some (codeFix res) /\ Cursor.error res = None) /\
    (fs w' = fs w \/
     success res = true /\
     exists path node content rd,
       fs w !! path = Some node /\
       fs w' = <[path := RegularFile content rd true]> (fs w)).
Proof.
  unfold fixError, try_catch.
  destruct (read error w) as [[errors|e] w0] eqn:Hread.
  all: assert (H0 : fs w0 = fs w /\ heap w0 = heap w)
    by (unfold read in Hread; destruct (deref error w); injection Hread as _ <-; auto).
  all: destruct H0 as [Hf0 Hh0].
  2:{ erewrite MFacts.bind_throw by exact Hread. cbn.
      eexists _, _. split; [reflexivity|]. cbn. rewrite Hf0, Hh0.
      repeat split; eauto; discriminate. }
  erewrite MFacts.bind_ok by exact Hread.
  destruct (fileContext errors w0) as [[[filePath fileContent]|e] w1] eqn:Hctx.
  all: pose proof (frame_step fs _ _ _ _ (quiet_fileContext fs errors) Hctx) as Hf1.
  all: pose proof
    (RunnerFacts.step_heap _ _ _ _ (LoopFacts.keeps_fileContext errors) Hctx) as Hh1.
  2:{ erewrite MFacts.bind_throw by exact Hctx. cbn.
      eexists _, _. split; [reflexivity|]. cbn. rewrite Hf1, Hf0, Hh1, Hh0.
      repeat split; eauto; discriminate. }
  erewrite MFacts.bind_ok by exact Hctx. cbv beta iota.
  destruct (generateFix_total errors fileContent filePath w1) as (r & w2 & Hgen).
  pose proof (frame_step fs _ _ _ _ (quiet_generateFix fs _ _ _) Hgen) as Hf2.
  pose proof (RunnerFacts.step_heap _ _ _ _ (LoopFacts.keeps_generateFix _ _ _) Hgen)
    as Hh2.
  erewrite MFacts.bind_ok by exact Hgen.
  destruct r as [fixRef|].
  2:{ eexists _, _. split; [reflexivity|]. cbn. rewrite Hf2, Hf1, Hf0, Hh2, Hh1, Hh0.
      repeat split; eauto; discriminate. }
  destruct (EditFacts.applyFix_file_cases w2 fixRef) as (applied & w3 & Happ & Hcases).
  pose proof (RunnerFacts.step_heap _ _ _ _ (LoopFacts.keeps_applyFix fixRef) Happ) as Hh3.
  erewrite MFacts.bind_ok by exact Happ.
  destruct Hcases as [Hsame|(cf & name & node & content & rd & -> & _ & _ & Hfile & Hnew)].
  - destruct applied; cbn [negb].
    all: eexists _, _; (split; [reflexivity|]); cbn.
    all: rewrite Hsame, Hf2, Hf1, Hf0, Hh3, Hh2, Hh1, Hh0.
    all: repeat split; eauto; discriminate.
  - cbn [negb]. eexists _, _. split; [reflexivity|]. cbn.
    rewrite Hh3, Hh2, Hh1, Hh0. split; [reflexivity|]. split; [discriminate|].
    split; [eauto|]. right. split; [reflexivity|].
    rewrite Hf2, Hf1, Hf0 in Hfile, Hnew. eauto 6.
Qed.

(** X15: [fixError] never throws and makes or changes no collection. A
    failure comes with a message and leaves every file as it was; a success
    comes with the fix and without a message; in no case is a file created
    or removed. *)
Theorem fixError_returns error w :
  exists res w',
    fixError error w = (Ok res, w') /\
    dom (fs w') = dom (fs w) /\
    heap w' = heap w /\
    (success res = false -> fs w' = fs w /\ is_Some (Cursor.error res)) /\
    (success res = true -> is_Some (codeFix res) /\ Cursor.error res = None).
Proof.
  destruct (fixError_file_cases error w)
    as (res & w' & Hrun & Hheap & Hfalse & Htrue & Hfs).
  exists res, w'. split; [exact Hrun|].
  destruct Hfs as [Hsame|(Hs & path & node & content & rd & Hfile & Hnew)].
  - rewrite Hsame. split; [reflexivity|]. split; [exact Hheap|].
    split; [intros Hs; split; [reflexivity | exact (Hfalse Hs)] | exact Htrue].
  - split; [|split; [exact Hheap|split; [congruence | exact Htrue]]].
    rewrite Hnew, dom_insert_L. apply elem_of_dom_2 in Hfile.
    apply subseteq_union_1_L, singleton_subseteq_l. exact Hfile.
Qed.

End RemedyFacts.

(** ** Retrying a feature test *)

Module RetryFacts.

Import Runner Retry.

Lemma retryLoop_unfold feature attempts i lastResult w :
  retryLoop feature attempts i lastResult w =
  if Z_lt_dec i attempts then
    match testFeature feature w with
    | (Throw e, w1) => (Throw e, w1)
    | (Ok result, w1) =>
        if success result then (Ok (Some result), w1)
        else retryLoop feature attempts (i + 1) (Some result)
               (if Z_lt_dec i (attempts - 1) then (sleep 1000 w1).2 else w1)
    end
  else (Ok lastResult, w).
Proof.
  rewrite retryLoop_equation_1.
  destruct (Z_lt_dec i attempts); [|reflexivity].
  simpl. destruct (testFeature feature w) as [[result|e] w1]; [|reflexivity].
  simpl. destruct (success result); reflexivity.
Qed.

(** The loop from turn [i] on. *)
Lemma retryLoop_run feature attempts n :
  forall i lastResult w,
    Z.to_nat (attempts - i) = n ->
    exists r w',
      retryLoop feature attempts i lastResult w = (Ok r, w') /\
      (attempts <= i -> r = lastResult /\ w' = w) /\
      (i < attempts ->
       exists result w0,
         r = Some result /\
         testFeature feature w0 = (Ok result, w') /\
         1 <= Notions.attempts w w' <= attempts - i /\
         (success result = false -> Notions.attempts w w' = attempts - i)).
Proof.
  induction n as [|n IH]; intros i lastResult w Hn;
    rewrite retryLoop_unfold; destruct (Z_lt_dec i attempts) as [Hlt|Hge];
    try (exfalso; lia).
  - eexists _, _. split; [reflexivity|]. split; [auto | lia].
  - destruct (LoopFacts.testFeature_one_attempt feature w) as (result & w1 & Hrun & Hone).
    rewrite Hrun. destruct (success result) eqn:Hs.
    { eexists _, _. split; [reflexivity|]. split; [lia|]. intros _.
      exists result, w. split; [reflexivity|]. split; [exact Hrun|].
      split; [lia | congruence]. }
    set (w1' := if Z_lt_dec i (attempts - 1) then (sleep 1000 w1).2 else w1).
    assert (Hheap : heap w1' = heap w1)
      by (unfold w1'; destruct (Z_lt_dec i (attempts - 1)); reflexivity).
    destruct (IH (i + 1) (Some result) w1' ltac:(lia)) as (r & w' & Hloop & Hout & Hin).
    exists r, w'. split; [exact Hloop|]. split; [lia|]. intros _.
    destruct (Z_lt_dec (i + 1) attempts) as [Hmore|Hlast].
    + destruct (Hin Hmore) as (result' & w0 & -> & Hlastrun & Hcount & Hall).
      exists result', w0. split; [reflexivity|]. split; [exact Hlastrun|].
      unfold Notions.attempts in *. rewrite Hheap in *. split; [lia|].
      intros Hf. specialize (Hall Hf). lia.
    + destruct (Hout ltac:(lia)) as [-> ->].
      assert (Hw : w1' = w1)
        by (unfold w1'; destruct (Z_lt_dec i (attempts - 1)); [lia | reflexivity]).
      rewrite Hw. exists result, w. split; [reflexivity|]. split; [exact Hrun|].
      split; [lia|]. intros _. lia.
Qed.

(** X16: [testFeatureWithRetry] never throws. With a bound of zero or less
    it runs nothing and returns [null]. Otherwise it returns the result of
    its last pass, with nothing done after that pass; it runs at least one
    pass and at most as many as the bound, and when the result it returns is
    a failure it has run exactly as many as the bound. *)
Theorem testFeatureWithRetry_passes feature maxAttempts w :
  exists r w',
    testFeatureWithRetry feature maxAttempts w = (Ok r, w') /\
    (attemptsOf maxAttempts w <= 0 -> r = None /\ w' = w) /\
    (0 < attemptsOf maxAttempts w ->
     exists result w0,
       r = Some result /\
       testFeature feature w0 = (Ok result, w') /\
       1 <= Notions.attempts w w' <= attemptsOf maxAttempts w /\
       (success result = false -> Notions.attempts w w' = attemptsOf maxAttempts w)).
Proof.
  unfold testFeatureWithRetry. erewrite MFacts.bind_ok by reflexivity.
  destruct (retryLoop_run feature (attemptsOf maxAttempts w) _ 0 None w eq_refl)
    as (r & w' & Hrun & Hout & Hin).
  exists r, w'. split; [exact Hrun|]. split.
  - intros H. apply Hout. lia.
  - intros H. destruct (Hin H) as (result & w0 & Hr & Hlast & Hcount & Hall).
    exists result, w0. rewrite Z.sub_0_r in *. auto.
Qed.

End RetryFacts.

(** ** The suite tool *)

Module SuiteFacts.

Import Session Runner Server Suite FrameFacts QuietFacts.

Lemma suiteLoop_unfold feature maxIterations iteration results w :
  suiteLoop feature maxIterations iteration results w =
  if Z_lt_dec iteration maxIterations then
    match testFeature (withDefaultUrl feature w) w with
    | (Throw e, w1) => (Throw e, w1)
    | (Ok result, w1) =>
        if Runner.success result
        then (Ok (iteration + 1, true,
                  results ++ [SuitePassed (name feature) (iteration + 1)]), w1)
        else match Cursor.fixError (Runner.errors result) w1 with
             | (Throw e, w2) => (Throw e, w2)
             | (Ok fixResult, w2) =>
                 if Cursor.success fixResult
                 then suiteLoop feature maxIterations (iteration + 1) results
                        (sleep 2000 w2).2
                 else (Ok (iteration + 1, false,
                           results ++ [SuiteFixFailed (name feature) (iteration + 1)
                                         (Cursor.error fixResult)
                                         (Runner.errors result)]), w2)
             end
    end
  else (Ok (iteration, false, results), w).
Proof.
  rewrite suiteLoop_equation_1.
  destruct (Z_lt_dec iteration maxIterations); [|reflexivity].
  simpl. destruct (testFeature (withDefaultUrl feature w) w) as [[result|e] w1];
    [|reflexivity].
  simpl. destruct (Runner.success result); [reflexivity|].
  simpl. destruct (Cursor.fixError (Runner.errors result) w1) as [[fixResult|e] w2];
    [|reflexivity].
  simpl. destruct (Cursor.success fixResult); reflexivity.
Qed.

(** The loop for one feature: it ends, with the configuration as it was,
    after a pass that succeeded, after a fix that failed, or at the bound. *)
Lemma suiteLoop_run feature maxIterations n :
  forall iteration results w,
    Z.to_nat (maxIterations - iteration) = n ->
    exists last success added w',
      suiteLoop feature maxIterations iteration results w
      = (Ok (last, success, results ++ added), w') /\
      config w' = config w /\
      ((success = true /\ added = [SuitePassed (name feature) last] /\
        iteration < last <= maxIterations) \/
       (success = false /\
        (exists error lastErrors,
           added = [SuiteFixFailed (name feature) last error lastErrors]) /\
        iteration < last <= maxIterations) \/
       (success = false /\ added = [] /\ maxIterations <= last)).
Proof.
  induction n as [|n IH]; intros iteration results w Hn;
    rewrite suiteLoop_unfold;
    destruct (Z_lt_dec iteration maxIterations) as [Hlt|Hge]; try (exfalso; lia).
  - exists iteration, false, [], w. rewrite app_nil_r.
    split; [reflexivity|]. split; [reflexivity|]. right. right.
    split; [reflexivity|]. split; [reflexivity | lia].
  - destruct (VerdictFacts.testFeature_grows (withDefaultUrl feature w) w)
      as (result & w1 & Hrun & _).
    pose proof (frame_step config _ _ _ _
                  (quiet_testFeature config (withDefaultUrl feature w)) Hrun) as Hc1.
    rewrite Hrun. destruct (Runner.success result).
    { eexists _, true, _, w1. split; [reflexivity|]. split; [exact Hc1|].
      left. split; [reflexivity|]. split; [reflexivity | lia]. }
    destruct (RemedyFacts.fixError_file_cases (Runner.errors result) w1)
      as (fixResult & w2 & Hfix & _).
    pose proof (frame_step config _ _ _ _ (config_fixError _) Hfix) as Hc2.
    rewrite Hfix. destruct (Cursor.success fixResult).
    2:{ eexists _, false, _, w2. split; [reflexivity|]. split; [congruence|].
        right. left. split; [reflexivity|]. split; [eauto | lia]. }
    destruct (IH (iteration + 1) results (sleep 2000 w2).2 ltac:(lia))
      as (last & success & added & w' & Hloop & Hc & Hcases).
    exists last, success, added, w'. split; [exact Hloop|].
    split; [rewrite Hc; cbn; congruence|].
    destruct Hcases as [(? & ? & ?)|[(? & ? & ?)|(? & ? & ?)]];
      [left|right; left|right; right]; repeat split; auto; lia.
Qed.

Lemma suiteFeature_run args results feature w :
  exists added w',
    suiteFeature args results feature w = (Ok (results ++ added), w') /\
    config w' = config w /\
    featureEntries (suiteMaximum args w) feature added.
Proof.
  unfold suiteFeature. erewrite MFacts.bind_ok by reflexivity. cbv zeta.
  fold (suiteMaximum args w).
  destruct (suiteLoop_run feature (suiteMaximum args w) _ 0 results w eq_refl)
    as (last & success & added & w' & Hloop & Hc & Hcases).
  erewrite MFacts.bind_ok by exact Hloop. cbv beta iota.
  destruct Hcases
    as [(-> & -> & Hk)|[(-> & (error & lastErrors & ->) & Hk)|(-> & -> & Hk)]];
    cbn [negb andb].
  - eexists _, w'. split; [reflexivity|]. split; [exact Hc|]. constructor. lia.
  - destruct (suiteMaximum args w <=? last) eqn:Hle.
    + apply Z.leb_le in Hle. assert (last = suiteMaximum args w) as -> by lia.
      eexists _, w'. split; [rewrite <- app_assoc; reflexivity|]. split; [exact Hc|].
      cbn [app]. apply entries_fix_failed_last. lia.
    + apply Z.leb_gt in Hle. eexists _, w'. split; [reflexivity|]. split; [exact Hc|].
      apply entries_fix_failed. lia.
  - rewrite (proj2 (Z.leb_le _ _) Hk). rewrite app_nil_r.
    eexists _, w'. split; [reflexivity|]. split; [exact Hc|]. apply entries_exhausted.
Qed.

Lemma suiteFeatures_run args todo :
  forall results w,
    exists groups w',
      suiteFeatures args todo results w = (Ok (results ++ concat groups), w') /\
      Forall2 (featureEntries (suiteMaximum args w)) todo groups.
Proof.
  induction todo as [|feature rest IH]; intros results w; cbn [suiteFeatures].
  - exists [], w. cbn. rewrite app_nil_r. split; [reflexivity | constructor].
  - destruct (suiteFeature_run args results feature w) as (added & w1 & Hrun & Hc & Hg).
    erewrite MFacts.bind_ok by exact Hrun.
    destruct (IH (results ++ added) w1) as (groups & w' & Hrest & Hgs).
    exists (added :: groups), w'. split.
    + rewrite Hrest. cbn [concat]. rewrite <- app_assoc. reflexivity.
    + constructor; [exact Hg|].
      unfold suiteMaximum in *. rewrite Hc in Hgs. exact Hgs.
Qed.

Lemma featureEntries_length maxIterations feature g :
  featureEntries maxIterations feature g -> (1 <= length g <= 2)%nat.
Proof. destruct 1; cbn; lia. Qed.

Lemma featureEntries_success maxIterations feature g :
  featureEntries maxIterations feature g ->
  forallb entry_success g = true <-> exists k, g = [SuitePassed (name feature) k].
Proof.
  destruct 1; cbn; split; try discriminate; eauto; intros [k' Hk']; discriminate.
Qed.

(** X17: once the browser and the development server are there, the suite
    tool returns a report. Its results are, feature by feature and in order,
    one entry for a pass that succeeded, one entry for a fix that failed
    before the last allowed turn, two entries (the failed fix and "reached
    maximum iterations") for a fix that failed on the last allowed turn, or
    the single "reached maximum iterations" entry. So there are between one
    and two entries per feature, and [allPassed] holds exactly when every
    feature left the single entry of a pass that succeeded. *)
Theorem handleRunFeatureSuite_entries args w w1 v w2 :
  ensureBrowser w = (Ok tt, w1) ->
  request EnsureServerRunning w1 = (Ok v, w2) ->
  exists report w' groups,
    handleRunFeatureSuite args w = (Ok report, w') /\
    totalFeatures report = length (features args) /\
    results report = concat groups /\
    Forall2 (featureEntries (suiteMaximum args w)) (features args) groups /\
    (length (features args) <= length (results report)
     <= 2 * length (features args))%nat /\
    (allPassed report = true <->
     Forall2 (fun feature g => exists k, g = [SuitePassed (name feature) k])
       (features args) groups).
Proof.
  intros Hsetup Hserver. unfold handleRunFeatureSuite.
  erewrite MFacts.bind_ok by exact Hsetup.
  erewrite MFacts.bind_ok by exact Hserver.
  destruct (suiteFeatures_run args (features args) [] w2) as (groups & w' & Hrun & Hgs).
  erewrite MFacts.bind_ok by exact Hrun.
  assert (Hcfg : suiteMaximum args w2 = suiteMaximum args w).
  { unfold suiteMaximum. f_equal. f_equal.
    destruct (LoopFacts.ensureBrowser_frame w) as [Hc _]. rewrite Hsetup in Hc.
    cbn in Hc. rewrite <- Hc.
    eapply (frame_step config); [apply (quiet_request config) | exact Hserver]. }
  rewrite Hcfg in Hgs.
  eexists _, w', groups. split; [reflexivity|].
  cbn [totalFeatures results allPassed app].
  split; [reflexivity|]. split; [reflexivity|]. split; [exact Hgs|].
  clear Hrun. split.
  - induction Hgs as [|feature g rest groups Hg _ IH]; cbn [concat length]; [lia|].
    rewrite length_app. pose proof (featureEntries_length _ _ _ Hg). lia.
  - induction Hgs as [|feature g rest groups Hg _ IH]; cbn [concat].
    + split; [constructor | reflexivity].
    + rewrite forallb_app, andb_true_iff, IH, (featureEntries_success _ _ _ Hg).
      split; [intros [H1 H2]; constructor; assumption|].
      intros H. inversion H; subst. auto.
Qed.

Lemma handleRunFeatureSuite_entries_witness :
  exists report w',
    handleRunFeatureSuite Cases.loginOnce Scenario.nothingFound = (Ok report, w') /\
    totalFeatures report = 1%nat /\
    (1 <= length (results report) <= 2)%nat.
Proof.
  destruct (handleRunFeatureSuite_entries Cases.loginOnce Scenario.nothingFound
              _ _ _ eq_refl eq_refl)
    as (report & w' & groups & Hrun & Htotal & _ & _ & Hlen & _).
  exists report, w'. split; [exact Hrun|]. split; [exact Htotal | exact Hlen].
Defined.

(** A fix that fails on the only allowed turn is reported twice. *)
Example one_feature_two_entries :
  exists report lastErrors,
    (handleRunFeatureSuite Cases.loginOnce Scenario.nothingFound).1 = Ok report /\
    results report
    = [SuiteFixFailed "login" 1 (Some "Could not generate fix for the error")
         lastErrors;
       SuiteExhausted "login" 1].
Proof. eexists _, _. split; vm_compute; reflexivity. Qed.

End SuiteFacts.

(** ** Files across the fix-and-retest tool *)

Module FilesFacts.

Import Session Runner Server FrameFacts QuietFacts.

Lemma fixError_dom error w res w' :
  Cursor.fixError error w = (res, w') -> dom (fs w') = dom (fs w).
Proof.
  intros Hrun.
  destruct (RemedyFacts.fixError_file_cases error w)
    as (res0 & w0 & Hrun0 & _ & _ & _ & Hfs).
  rewrite Hrun in Hrun0. injection Hrun0 as _ <-.
  destruct Hfs as [->|(_ & path & node & content & rd & Hfile & ->)]; [reflexivity|].
  rewrite dom_insert_L. apply elem_of_dom_2 in Hfile.
  apply subseteq_union_1_L, singleton_subseteq_l. exact Hfile.
Qed.

Lemma retest_dom feature maxIterations n :
  forall iteration lastResult w,
    Z.to_nat (maxIterations - iteration) = n ->
    dom (fs (retest feature maxIterations iteration lastResult w).2) = dom (fs w).
Proof.
  induction n as [|n IH]; intros iteration lastResult w Hn;
    rewrite LoopFacts.retest_unfold;
    destruct (Z_lt_dec iteration maxIterations) as [Hlt|Hge];
    try (exfalso; lia); try reflexivity.
  pose proof (quiet_testFeature fs (withDefaultUrl feature w) w) as Hf1.
  destruct (testFeature (withDefaultUrl feature w) w) as [[result|e] w1];
    cbn in Hf1; [|cbn; rewrite Hf1; reflexivity].
  destruct (Runner.success result); [cbn; rewrite Hf1; reflexivity|].
  pose proof (fixError_dom (Runner.errors result) w1) as Hd.
  destruct (Cursor.fixError (Runner.errors result) w1) as [[fixResult|e] w2].
  2:{ cbn. rewrite (Hd _ _ eq_refl), Hf1. reflexivity. }
  specialize (Hd _ _ eq_refl).
  destruct (Cursor.success fixResult); [|cbn; rewrite Hd, Hf1; reflexivity].
  rewrite IH by lia. cbn. rewrite Hd, Hf1. reflexivity.
Qed.

(** X18: a verification pass changes no file, and a whole call of the
    fix-and-retest tool, whatever it returns, creates and removes none: the
    files after it are those before it, with new contents at most. *)
Theorem handleFixAndRetest_keeps_files args w :
  (forall feature, fs (testFeature feature w).2 = fs w) /\
  dom (fs (handleFixAndRetest args w).2) = dom (fs w).
Proof.
  split; [intros feature; apply (quiet_testFeature fs)|].
  unfold handleFixAndRetest, mbind, M_bind.
  pose proof (quiet_ensureBrowser fs w) as H1.
  destruct (ensureBrowser w) as [[[]|e] w1]; cbn in H1; [|cbn; rewrite H1; reflexivity].
  pose proof (quiet_request fs EnsureServerRunning w1) as H2.
  destruct (request EnsureServerRunning w1) as [[v|e] w2]; cbn in H2;
    [|cbn; rewrite H2, H1; reflexivity].
  unfold gets. erewrite retest_dom by reflexivity. rewrite H2, H1. reflexivity.
Qed.

End FilesFacts.

(** ** The capture tool *)

Module CaptureFacts.

Import Controller Session Runner Server Capture Detector.

(** X19: with a session and a URL, the capture tool loads the page twice:
    once itself and once in the pass it runs. A first load that throws makes
    the tool throw, nothing catches it. Otherwise the tool returns the
    collection of the pass, made of what arrived during the second load and
    while the probe ran: what was buffered before or arrived during the first
    load is not reported. *)
Theorem handleCaptureErrors_loads_twice w b c s v :
  let url := String c s in
  browser w = Some b ->
  live b = true ->
  outcome (env w (EnsureServerRunning :: trace w)) = Ok v ->
  match outcome (env w (loadedOnce url w)) with
  | Throw e => exists w', handleCaptureErrors (Some url) w = (Throw e, w')
  | Ok _ =>
      exists r w' collection,
        handleCaptureErrors (Some url) w = (Ok r, w') /\
        deref r w' = Some collection /\
        trace w' = match outcome (env w (loadedTwice url w)) with
                   | Ok _ => Evaluate reactProbe :: loadedTwice url w
                   | Throw _ => loadedTwice url w
                   end /\
        match outcome (env w (loadedTwice url w)),
              probeResult (env w (Evaluate reactProbe :: loadedTwice url w)) with
        | Ok _, Some probe =>
            Types.errors collection
            = List.filter (has_type console) (arrivals (env w (loadedTwice url w)))
              ++ probe ++
              List.filter (has_type ui)
                (arrivals (env w (Evaluate reactProbe :: loadedTwice url w)))
        | Ok _, None =>
            exists ts,
              collection
              = Notions.synthetic (JsError "reactErrors is not iterable") ts
        | Throw e, _ => exists ts, collection = Notions.synthetic e ts
        end
  end.
Proof.
  intros url Hb Hlive Hserver. subst url.
  unfold loadedTwice, loadedOnce, probeResult.
  destruct w as [env0 trace0 clock0 browser0 fs0 console0 heap0 fixes0 resolve0 config0].
  cbn in Hb, Hserver |- *. subst browser0.
  destruct (outcome (env0 (Navigate (String c s) :: EnsureServerRunning :: trace0)))
    as [v1|e1] eqn:H1;
  [destruct (outcome (env0 (Navigate (String c s) :: Navigate (String c s)
                              :: EnsureServerRunning :: trace0)))
     as [v2|e2] eqn:H2;
   [destruct (outcome (env0 (Evaluate reactProbe :: Navigate (String c s)
                               :: Navigate (String c s)
                               :: EnsureServerRunning :: trace0)))
      as [v3|e3] eqn:H3|]|].
  all: unfold handleCaptureErrors, ensureBrowser, captureFeature, testFeature, attempt,
    failed, observe, validate, detectAllErrors, detectConsoleErrors,
    detectNetworkErrors, detectUIErrors, detectReactErrors,
    spread, Browser.navigate, Browser.captureErrors, Browser.evaluate, Browser.capture,
    Browser.the_browser, Browser.put_browser, CDP.captureErrors,
    Playwright.captureErrors, try_catch, request, alloc, read, deref, now, gets, modify,
    throw, mbind, M_bind, mret, M_ret, suspend.
  all: unfold live in Hlive.
  all: destruct b as [[[cl ces]|] [[pg pes]|] []]; cbn in Hlive; subst; try discriminate.
  all: cbn; rewrite ?Hserver; cbn; rewrite ?H1; cbn; rewrite ?H2; cbn; rewrite ?H3; cbn.
  all: try (eexists; reflexivity).
  all: try (destruct v3 as [| [] |l|s3 err|[f|]]; cbn).
  all: rewrite ?list_lookup_middle by reflexivity; cbn.
  all: eexists _, _, _; (split; [reflexivity|]); cbn.
  all: rewrite ?app_nil_r.
  all: (split; [apply list_lookup_middle; reflexivity|]); cbn; rewrite ?app_nil_r.
  all: (split; [reflexivity|]).
  all: try reflexivity.
  all: try (eexists; reflexivity).
Qed.

Lemma handleCaptureErrors_loads_twice_witness :
  exists r w' collection,
    handleCaptureErrors (Some "http://localhost:3000") Scenario.twoBuffered
    = (Ok r, w') /\
    deref r w' = Some collection /\
    Types.errors collection = [].
Proof.
  pose proof (handleCaptureErrors_loads_twice Scenario.twoBuffered
                (Scenario.cdpWith [Scenario.uncaught; Scenario.notFound])
                "h" "ttp://localhost:3000" VUndefined eq_refl eq_refl eq_refl) as H.
  cbv zeta in H.
  change (outcome (env Scenario.twoBuffered
                     (loadedOnce "http://localhost:3000" Scenario.twoBuffered)))
    with (@Ok Value VUndefined) in H.
  change (outcome (env Scenario.twoBuffered
                     (loadedTwice "http://localhost:3000" Scenario.twoBuffered)))
    with (@Ok Value VUndefined) in H.
  cbv beta iota in H.
  destruct H as (r & w' & collection & Hrun & Hc & _ & Herr).
  assert (Hp : probeResult (env Scenario.twoBuffered
                              (Evaluate reactProbe
                               :: loadedTwice "http://localhost:3000"
                                    Scenario.twoBuffered))
               = Some []) by (vm_compute; reflexivity).
  rewrite Hp in Herr.
  exists r, w', collection. split; [exact Hrun|]. split; [exact Hc|].
  rewrite Herr. reflexivity.
Defined.

End CaptureFacts.

(** ** Waiting for errors *)

Module WaitingFacts.

Import Session Detector Waiting FrameFacts QuietFacts.

Lemma onward_ret {A} (a : A) : onward (mret a).
Proof. intros w. cbn. lia. Qed.

Lemma onward_throw {A} e : onward (@throw A e).
Proof. intros w. cbn. lia. Qed.

Lemma onward_bind {A C} (m : M A) (k : A -> M C) :
  onward m -> (forall a, onward (k a)) -> onward (m ≫= k).
Proof.
  intros Hm Hk w. unfold mbind, M_bind. specialize (Hm w).
  destruct (m w) as [[a|e] w1]; cbn in *; [|exact Hm].
  specialize (Hk a w1). lia.
Qed.

Lemma onward_try {A} (m : M A) h :
  onward m -> (forall e, onward (h e)) -> onward (try_catch m h).
Proof.
  intros Hm Hh w. unfold try_catch. specialize (Hm w).
  destruct (m w) as [[a|e] w1]; cbn in *; [exact Hm|].
  specialize (Hh e w1). lia.
Qed.

Lemma onward_request r : onward (request r).
Proof. intros w. cbn. lia. Qed.

Lemma onward_the_browser : onward Browser.the_browser.
Proof. intros w. unfold Browser.the_browser. destruct (browser w); cbn; lia. Qed.

Lemma onward_put_browser b : onward (Browser.put_browser b).
Proof. intros w. cbn. lia. Qed.

Lemma onward_alloc c : onward (alloc c).
Proof. intros w. cbn. lia. Qed.

Ltac steps_onward :=
  repeat first
    [ progress intros
    | apply onward_ret | apply onward_throw | apply onward_request
    | apply onward_the_browser | apply onward_put_browser | apply onward_alloc
    | apply onward_bind | apply onward_try
    | match goal with
      | |- onward (match ?x with _ => _ end) => destruct x
      | |- onward (if ?x then _ else _) => destruct x
      | |- onward (let '(_, _) := ?x in _) => destruct x
      end ].

Lemma onward_detectAllErrors : onward detectAllErrors.
Proof.
  unfold detectAllErrors, detectConsoleErrors, detectNetworkErrors,
    detectReactErrors, detectUIErrors, spread, Browser.captureErrors,
    Browser.evaluate.
  steps_onward.
Qed.

(** One pass of the detector, as the loop sees it. *)
Lemma detect_step w r w1 :
  detectAllErrors w = (Ok r, w1) ->
  r = length (heap w) /\ clock w <= clock w1 /\ env w1 = env w /\
  exists c, heap w1 = heap w ++ [c] /\
            hasErrors c = negb (bool_decide (errors c = [])) /\
            summary c = generateSummary (errors c).
Proof.
  intros H. destruct (RunnerFacts.detectAllErrors_heap _ _ _ H) as [Hr Hc].
  split; [exact Hr|]. split; [|split; [|exact Hc]].
  - pose proof (onward_detectAllErrors w) as Hf. rewrite H in Hf. exact Hf.
  - eapply (frame_step env); [apply quiet_detectAllErrors; tc_solve | exact H].
Qed.

Lemma waitLoop_run startTime timeout fuel :
  forall w lastCollection,
    pausesTakeTime w ->
    (Z.to_nat (timeout - (clock w - startTime)) < fuel)%nat ->
    (lastCollection < length (heap w))%nat ->
    exists res w',
      waitLoop fuel startTime timeout lastCollection w = (res, w') /\
      match res with
      | Ok (Some r) =>
          (r = lastCollection /\ deref r w' = deref r w) \/
          ((length (heap w) <= r)%nat /\
           exists c, deref r w' = Some c /\ hasErrors c = true /\
                     summary c = generateSummary (errors c))
      | Ok None => False
      | Throw e => True
      end.
Proof.
  induction fuel as [|fuel IH]; intros w lastCollection Hpause Hfuel Hlast; [lia|].
  cbn [waitLoop]. unfold now. erewrite MFacts.bind_ok by reflexivity.
  destruct (clock w - startTime <? timeout) eqn:Hlt.
  2:{ eexists _, _. split; [reflexivity|]. left. auto. }
  apply Z.ltb_lt in Hlt.
  destruct (detectAllErrors w) as [[r|e] w1] eqn:Hdet.
  2:{ erewrite MFacts.bind_throw by exact Hdet. eexists _, _. split; [reflexivity|].
      exact I. }
  erewrite MFacts.bind_ok by exact Hdet.
  destruct (detect_step _ _ _ Hdet) as (Hr & Hclock & Henv & c & Hheap & Hhas & Hsum).
  assert (Hc : deref r w1 = Some c).
  { unfold deref. rewrite Hheap, Hr. apply list_lookup_middle. reflexivity. }
  erewrite MFacts.bind_ok by (unfold read; rewrite Hc; reflexivity).
  assert (Hold : forall k, (k < length (heap w))%nat -> deref k w1 = deref k w).
  { intros k Hk. unfold deref. rewrite Hheap. apply lookup_app_l. exact Hk. }
  destruct (hasErrors c) eqn:Herr.
  2:{ eexists _, _. split; [reflexivity|]. left. auto. }
  unfold mbind at 1, M_bind at 1. unfold sleep at 1.
  cbn [suspend].
  set (w2 := {| env := env w1 |}).
  assert (Hclock2 : clock w1 + 1 <= clock w2).
  { unfold w2. cbn. specialize (Hpause (trace w1)). rewrite Henv. lia. }
  destruct (IH w2 r) as (res & w' & Hrun & Hres).
  { intros t. unfold w2. cbn. rewrite Henv. apply Hpause. }
  { lia. }
  { unfold w2. cbn. rewrite Hheap, length_app, Hr. cbn. lia. }
  exists res, w'. split; [exact Hrun|].
  destruct res as [[r'|]|e]; [|exact Hres|exact I].
  right. assert (Hh2 : heap w2 = heap w1) by reflexivity.
  destruct Hres as [[-> Hsame]|[Hge Hc']].
  - split; [lia|]. exists c. split; [|auto].
    rewrite Hsame. unfold deref. rewrite Hh2. exact Hc.
  - split; [|exact Hc']. rewrite Hh2, Hheap, length_app in Hge. lia.
Qed.

(** The loop, one turn unfolded. *)
Lemma waitLoop_unfold fuel startTime timeout lastCollection w :
  waitLoop (S fuel) startTime timeout lastCollection w
  = if clock w - startTime <? timeout then
      match detectAllErrors w with
      | (Ok r, w1) =>
          match deref r w1 with
          | Some c =>
              if hasErrors c
              then waitLoop fuel startTime timeout r (sleep 500 w1).2
              else (Ok (Some lastCollection), w1)
          | None => (Throw (JsError "Cannot read properties of undefined"), w1)
          end
      | (Throw e, w1) => (Throw e, w1)
      end
    else (Ok (Some lastCollection), w).
Proof.
  cbn [waitLoop]. unfold now. erewrite MFacts.bind_ok by reflexivity.
  destruct (clock w - startTime <? timeout); [|reflexivity].
  unfold mbind, M_bind, read.
  destruct (detectAllErrors w) as [[r|e] w1]; [|reflexivity].
  destruct (deref r w1) as [c|]; [|reflexivity].
  destruct (hasErrors c); reflexivity.
Qed.

(** X20: when every pause takes time and the turns allowed exceed the
    timeout, [waitForErrors] does not run out of turns. What it returns is
    either its own initial collection (no errors, summary "No errors") or a
    collection with errors built by a detection pass, never the clean
    collection of a pass. Without time to wait it runs no pass. Otherwise the
    first pass decides: when it finds nothing the initial collection is
    returned at once, and when it finds errors the initial collection is not
    returned, whatever later passes find. *)
Theorem waitForErrors_result fuel (timeout : option Z) w :
  pausesTakeTime w ->
  (Z.to_nat (default 5000%Z timeout) < fuel)%nat ->
  exists res w',
    waitForErrors fuel timeout w = (res, w') /\
    match res with
    | Ok (Some r) =>
        exists c,
          deref r w' = Some c /\
          ((r = length (heap w) /\ c = noErrors) \/
           ((length (heap w) < r)%nat /\ hasErrors c = true /\
            summary c = generateSummary (errors c)))
    | Ok None => False
    | Throw e => True
    end /\
    (default 5000 timeout <= 0 ->
     res = Ok (Some (length (heap w))) /\ w' = (alloc noErrors w).2) /\
    (0 < default 5000 timeout ->
     forall r1 w1 c1,
       detectAllErrors (alloc noErrors w).2 = (Ok r1, w1) ->
       deref r1 w1 = Some c1 ->
       if hasErrors c1 then res <> Ok (Some (length (heap w)))
       else res = Ok (Some (length (heap w))) /\ w' = w1).
Proof.
  intros Hpause Hfuel. unfold waitForErrors, now.
  erewrite MFacts.bind_ok by reflexivity.
  erewrite MFacts.bind_ok by reflexivity.
  change (alloc noErrors w).2 with (set_heap (heap w ++ [noErrors]) w).
  set (w0 := set_heap (heap w ++ [noErrors]) w).
  assert (Hlen0 : length (heap w0) = S (length (heap w)))
    by (unfold w0; cbn; rewrite length_app; cbn; lia).
  destruct (waitLoop_run (clock w) (default 5000 timeout) fuel w0 (length (heap w)))
    as (res & w' & Hrun & Hres).
  { exact Hpause. }
  { unfold w0. cbn. rewrite Z.sub_diag, Z.sub_0_r. exact Hfuel. }
  { lia. }
  exists res, w'. split; [exact Hrun|]. split; [|split].
  - destruct res as [[r|]|e]; [|exact Hres|exact I].
    destruct Hres as [[-> Hsame]|[Hge (c & Hc & Herr & Hsum)]].
    + exists noErrors. split; [|left; auto].
      rewrite Hsame. unfold deref, w0. cbn. apply list_lookup_middle. reflexivity.
    + exists c. split; [exact Hc|]. right. split; [lia|]. auto.
  - intros Hle. destruct fuel as [|fuel]; [lia|].
    rewrite waitLoop_unfold in Hrun.
    change (clock w0) with (clock w) in Hrun. rewrite Z.sub_diag in Hrun.
    rewrite (proj2 (Z.ltb_ge _ _) Hle) in Hrun. injection Hrun as <- <-. auto.
  - intros Hpos r1 w1 c1 Hdet Hc1. destruct fuel as [|fuel]; [lia|].
    rewrite waitLoop_unfold in Hrun.
    change (clock w0) with (clock w) in Hrun. rewrite Z.sub_diag in Hrun.
    rewrite (proj2 (Z.ltb_lt _ _) Hpos), Hdet, Hc1 in Hrun.
    destruct (hasErrors c1); [|injection Hrun as <- <-; auto].
    destruct (detect_step _ _ _ Hdet) as (Hr1 & Hclock & Henv & c & Hheap & _).
    change (env w0) with (env w) in Henv.
    change (clock w0) with (clock w) in Hclock.
    destruct (waitLoop_run (clock w) (default 5000 timeout) fuel (sleep 500 w1).2 r1)
      as (res2 & w2 & Hrun2 & Hres2).
    { intros t. cbn. rewrite Henv. apply Hpause. }
    { cbn. rewrite Henv. specialize (Hpause (trace w1)).
      lia. }
    { change (heap (sleep 500 w1).2) with (heap w1).
      rewrite Hheap, length_app, Hr1. cbn [length]. lia. }
    rewrite Hrun2 in Hrun. injection Hrun as <- <-.
    intros ->. change (heap (sleep 500 w1).2) with (heap w1) in Hres2.
    rewrite Hheap, length_app, Hlen0 in Hres2. cbn [length] in Hres2.
    destruct Hres2 as [[Heq _]|[Hge _]]; lia.
Qed.

Lemma waitForErrors_result_witness :
  pausesTakeTime Cases.patient /\
  exists res w',
    waitForErrors 601 (Some 600) Cases.patient = (res, w') /\
    res <> Ok (Some 0%nat).
Proof.
  assert (Hpause : pausesTakeTime Cases.patient) by (intros t; cbn; lia).
  assert (Hfuel : (Z.to_nat (default 5000%Z (Some 600%Z)) < 601)%nat) by (cbn; lia).
  split; [exact Hpause|].
  destruct (waitForErrors_result 601 (Some 600) Cases.patient Hpause Hfuel)
    as (res & w' & Hrun & _ & _ & Hfirst).
  exists res, w'. split; [exact Hrun|].
  assert (Hdet : detectAllErrors (alloc noErrors Cases.patient).2
                 = (Ok 1%nat, (detectAllErrors (alloc noErrors Cases.patient).2).2))
    by (vm_compute; reflexivity).
  assert (Hc : exists c, deref 1 (detectAllErrors (alloc noErrors Cases.patient).2).2
                         = Some c /\ hasErrors c = true)
    by (eexists; split; vm_compute; reflexivity).
  destruct Hc as (c & Hc & Herr).
  specialize (Hfirst ltac:(cbn; lia) _ _ _ Hdet Hc). rewrite Herr in Hfirst.
  exact Hfirst.
Defined.

End WaitingFacts.
